(** * app.py: single-job process supervisor with live log fan-out

    A shallow embedding of the supervisor and broadcast engine of
    [src/app.py] (the job slot [current_proc], [broadcast], [sse_stream],
    [spawn_process] with its [reader] thread, [api_stop], [api_status]),
    and the properties of the specification proved about it; then the
    argument builder [build_args_from_form] and the routes on a JSON body
    ([api_start], [api_run_raw], [api_mount], [api_umount]), the walk of
    [api_list_destinations], and further properties of the whole.

    Conventions.
    - Python [str] is modelled by [string] (a byte string: a non-ASCII
      character is its UTF-8 bytes).
    - Mutable module-level objects live in one [State] record that every
      operation threads; a [queue.Queue] object is a cell of the heap
      [queues], named by its identity, so that the registry [subscribers]
      and the generator that owns the queue alias the same object.
    - Exceptions are the [Raise] outcome of the monad [M]; the state
      reached when the exception is raised is kept, as in Python.
    - The operating system (process creation, clock, signals, wait) is an
      interface [OS] over an abstract world [W]; every theorem holds for
      every implementation of it.  A call that is not made leaves the
      world untouched.
    - Every [with lock:] block runs as one step, so a lock is free at
      every step boundary and is not part of the state.  The reader
      thread alone is also given statement by statement, [proc_lock]
      included, among the steps of the other threads ([thread_step]).
    - A JSON request body is a [pyval].  What the interpreter alone
      decides (the exception objects of its built-in errors, [str()] of a
      list or a dict) is the interface [Interp].
    - The file system that [api_list_destinations] reads is the interface
      [FileSystem]; the commands and directories of the mount routes are
      the interface [Admin]. *)

From Stdlib Require Import Ascii String ZArith Lia.
From stdpp Require Import gmap strings list pretty sorting.

Local Open Scope string_scope.
Local Open Scope list_scope.
Local Open Scope nat_scope.

(** ** Python built-ins used by the program *)

Module Py.

Definition newline : ascii := "010"%char.

Definition is_newline (c : ascii) : bool := bool_decide (c = newline).

(** [s.rstrip("\n")]: every trailing newline is removed. *)
Fixpoint rstrip_nl (s : string) : string :=
  match s with
  | EmptyString => EmptyString
  | String c s' =>
      match rstrip_nl s' with
      | EmptyString => if is_newline c then EmptyString else String c EmptyString
      | r => String c r
      end
  end.

(** [sep.join(xs)]. *)
Fixpoint join (sep : string) (xs : list string) : string :=
  match xs with
  | [] => EmptyString
  | [x] => x
  | x :: rest => x +:+ sep +:+ join sep rest
  end.

(** [l[-n:]]: the last [n] elements, the whole list when it is shorter;
    [l[-0:]] is [l[0:]], the whole list. *)
Definition slice_last {A} (n : nat) (l : list A) : list A :=
  match n with
  | O => l
  | _ => drop (length l - n) l
  end.

(** [str(i)] for an [int]. *)
Definition str_int (i : Z) : string := pretty i.

End Py.

(** ** [shlex.quote] of the Python standard library

    [[
    _find_unsafe = re.compile(r'[^\w@%+=:,./-]', re.ASCII).search
    def quote(s):
        if not s: return "''"
        if _find_unsafe(s) is None: return s
        return "'" + s.replace("'", "'\"'\"'") + "'"
    ]] *)

Module Shlex.

Definition squote : ascii := "039"%char.
Definition dquote : ascii := "034"%char.

Definition between (lo hi : ascii) (c : ascii) : bool :=
  (nat_of_ascii lo <=? nat_of_ascii c) && (nat_of_ascii c <=? nat_of_ascii hi).

(** The class [[\w@%+=:,./-]] under [re.ASCII]. *)
Definition safe_char (c : ascii) : bool :=
  between "a" "z" c || between "A" "Z" c || between "0" "9" c
  || bool_decide (c ∈ ["_"; "@"; "%"; "+"; "="; ":"; ","; "."; "/"; "-"]%char).

Fixpoint all_safe (s : string) : bool :=
  match s with
  | EmptyString => true
  | String c s' => safe_char c && all_safe s'
  end.

(** The five characters [squote dquote squote dquote squote] that replace a single quote. *)
Definition squote_escape : string :=
  String squote (String dquote (String squote (String dquote (String squote EmptyString)))).

(** [s.replace("'", squote_escape)]. *)
Fixpoint escape_squotes (s : string) : string :=
  match s with
  | EmptyString => EmptyString
  | String c s' =>
      if bool_decide (c = squote) then squote_escape +:+ escape_squotes s'
      else String c (escape_squotes s')
  end.

Definition quote (s : string) : string :=
  match s with
  | EmptyString => String squote (String squote EmptyString)
  | _ =>
      if all_safe s then s
      else String squote (escape_squotes s) +:+ String squote EmptyString
  end.

End Shlex.

(** ** How a POSIX shell reads a command line back into words

    The part of the shell's quoting rules that matters for text made of
    [shlex.quote]d words separated by spaces: outside quotes a space ends
    a word and a quote character opens a quoted part; between single
    quotes every character stands for itself; between double quotes every
    character does except the closing quote and the three that keep a
    meaning there (dollar, backquote, backslash).  Any other character
    outside quotes is taken as literal only if it is in the safe class;
    the reading fails ([None]) otherwise, and on an unclosed quote. *)

Module Sh.

Inductive mode := Bare | Single | Double.

Definition snoc (w : string) (c : ascii) : string := w +:+ String c EmptyString.

(** The word being read, if one was begun. *)
Definition flush (cur : option string) (acc : list string) : list string :=
  match cur with
  | Some w => acc ++ [w]
  | None => acc
  end.

Definition begun (cur : option string) : string :=
  match cur with
  | Some w => w
  | None => EmptyString
  end.

Definition special_in_double (c : ascii) : bool :=
  bool_decide (c ∈ ["$"; "`"; "\"]%char).

Fixpoint read (s : string) (m : mode) (cur : option string) (acc : list string)
    : option (list string) :=
  match s with
  | EmptyString =>
      match m with
      | Bare => Some (flush cur acc)
      | _ => None
      end
  | String c s' =>
      match m with
      | Bare =>
          if bool_decide (c = " "%char) then read s' Bare None (flush cur acc)
          else if bool_decide (c = Shlex.squote) then read s' Single (Some (begun cur)) acc
          else if bool_decide (c = Shlex.dquote) then read s' Double (Some (begun cur)) acc
          else if Shlex.safe_char c then read s' Bare (Some (snoc (begun cur) c)) acc
          else None
      | Single =>
          if bool_decide (c = Shlex.squote) then read s' Bare cur acc
          else read s' Single (Some (snoc (begun cur) c)) acc
      | Double =>
          if bool_decide (c = Shlex.dquote) then read s' Bare cur acc
          else if special_in_double c then None
          else read s' Double (Some (snoc (begun cur) c)) acc
      end
  end.

(** The words of a command line. *)
Definition words (s : string) : option (list string) := read s Bare None [].

End Sh.

(** ** Exceptions and results *)

Inductive exn_class :=
  | RuntimeError | ValueError | QueueFull | ProcessLookupError
  | FileNotFoundError | PermissionError | OtherException.

(** An exception object: its class and [str(e)]. *)
Record exn := Exn { exn_cls : exn_class; exn_str : string }.

#[global] Instance exn_class_eq_dec : EqDecision exn_class.
Proof. solve_decision. Defined.

Inductive Result (A : Type) :=
  | Ok (a : A)
  | Raise (e : exn).
Arguments Ok {A} a.
Arguments Raise {A} e.

(** ** Program data *)

Definition LOG_HISTORY_MAX : nat := 2000.

(** Identity of a [queue.Queue] object. *)
Definition qid := nat.

(** [queue.Queue(maxsize)]: [maxsize <= 0] means unbounded. *)
Record Queue := MkQueue { maxsize : nat; items : list string }.

(** A [subprocess.Popen] handle. *)
Record Popen := MkPopen { pid : nat }.

(** [time.time()] is a float; it is only stored and reported. *)
Definition timestamp := Z.

Inductive signal := SIGINT | SIGTERM | SIGKILL.

(** The dict [current_proc]. *)
Record Slot := MkSlot {
  slot_p : option Popen;
  slot_start_ts : option timestamp;
  slot_args : option (list string);
  slot_raw : bool
}.

Definition idle_slot : Slot :=
  {| slot_p := None; slot_start_ts := None; slot_args := None; slot_raw := false |}.

(** The operating system, as the program calls it. *)
Class OS (W : Type) := {
  (** [subprocess.Popen(args, stdout=PIPE, stderr=STDOUT, bufsize=1,
      universal_newlines=True, preexec_fn=os.setsid)] *)
  subprocess_Popen : list string → W → Result Popen * W;
  time_time : W → timestamp * W;
  os_getpgid : nat → W → Result nat * W;
  os_killpg : nat → signal → W → Result unit * W;
  (** [p.wait()] *)
  Popen_wait : Popen → W → Z * W
}.

Record State (W : Type) := MkState {
  current_proc : Slot;
  subscribers : gset qid;
  history : list string;
  queues : gmap qid Queue;          (* the heap of Queue objects *)
  threads : list Popen;             (* reader threads started, by their process *)
  world : W
}.
Arguments MkState {W}.
Arguments current_proc {W}.
Arguments subscribers {W}.
Arguments history {W}.
Arguments queues {W}.
Arguments threads {W}.
Arguments world {W}.

Definition set_current_proc {W} (v : Slot) (s : State W) : State W :=
  MkState v (subscribers s) (history s) (queues s) (threads s) (world s).
Definition set_subscribers {W} (v : gset qid) (s : State W) : State W :=
  MkState (current_proc s) v (history s) (queues s) (threads s) (world s).
Definition set_history {W} (v : list string) (s : State W) : State W :=
  MkState (current_proc s) (subscribers s) v (queues s) (threads s) (world s).
Definition set_queues {W} (v : gmap qid Queue) (s : State W) : State W :=
  MkState (current_proc s) (subscribers s) (history s) v (threads s) (world s).
Definition set_threads {W} (v : list Popen) (s : State W) : State W :=
  MkState (current_proc s) (subscribers s) (history s) (queues s) v (world s).
Definition set_world {W} (v : W) (s : State W) : State W :=
  MkState (current_proc s) (subscribers s) (history s) (queues s) (threads s) v.

(** The module state right after import. *)
Definition initial_state {W} (w : W) : State W :=
  MkState idle_slot ∅ [] ∅ [] w.

(** ** The state-and-exception monad *)

Definition M (W A : Type) : Type := State W → Result A * State W.

Definition ret {W A} (a : A) : M W A := λ s, (Ok a, s).

Definition bind {W A B} (m : M W A) (k : A → M W B) : M W B :=
  λ s, match m s with
       | (Ok a, s') => k a s'
       | (Raise e, s') => (Raise e, s')
       end.

Definition raise {W A} (e : exn) : M W A := λ s, (Raise e, s).

Definition gets {W A} (f : State W → A) : M W A := λ s, (Ok (f s), s).

Definition modify {W} (f : State W → State W) : M W unit := λ s, (Ok tt, f s).

(** [try: body except Exception: handler]. *)
Definition try_except {W A} (body : M W A) (handler : exn → M W A) : M W A :=
  λ s, match body s with
       | (Ok a, s') => (Ok a, s')
       | (Raise e, s') => handler e s'
       end.

(** [try: body finally: fin]: [fin] runs on both outcomes; the outcome of
    [body] is the outcome of the statement unless [fin] itself raises. *)
Definition try_finally {W A} (body : M W A) (fin : M W unit) : M W A :=
  λ s, match body s with
       | (r, s') =>
           match fin s' with
           | (Ok _, s'') => (r, s'')
           | (Raise e, s'') => (Raise e, s'')
           end
       end.

(** A call to the operating system. *)
Definition sys {W A} (call : W → A * W) : M W A :=
  λ s, let '(a, w) := call (world s) in (Ok a, set_world w s).

(** A call to the operating system that may raise. *)
Definition sys_result {W A} (call : W → Result A * W) : M W A :=
  λ s, let '(r, w) := call (world s) in (r, set_world w s).

Notation "'do' x <- c1 ; c2" := (bind c1 (λ x, c2))
  (at level 10, x name, c1 at level 100, c2 at level 200,
   format "'[v' 'do'  x  <-  c1 ; '/' c2 ']'").
Notation "'do_' c1 ; c2" := (bind c1 (λ _, c2))
  (at level 10, c1 at level 100, c2 at level 200,
   format "'[v' 'do_'  c1 ; '/' c2 ']'").

(** [for x in xs: acc = body(x, acc)], the loop's local variables in [acc]. *)
Fixpoint for_in {W A B} (xs : list A) (acc : B) (body : A → B → M W B) : M W B :=
  match xs with
  | [] => ret acc
  | x :: rest => do acc' <- body x acc; for_in rest acc' body
  end.

(** ** [queue.Queue] *)

(** [queue.Queue(maxsize=n)]: a new object at an unused identity. *)
Definition Queue_new {W} (n : nat) : M W qid :=
  λ s, let q := fresh (dom (queues s)) in
       (Ok q, set_queues (<[q := MkQueue n []]> (queues s)) s).

Definition queue_full (qu : Queue) : bool :=
  (0 <? maxsize qu) && (maxsize qu <=? length (items qu)).

(** [q.put_nowait(x)]: raises [queue.Full] rather than wait.  A registered
    identity always has its object (see [wf_state]); the last case only
    makes the function total. *)
Definition put_nowait {W} (q : qid) (x : string) : M W unit :=
  λ s, match queues s !! q with
       | Some qu =>
           if queue_full qu then (Raise (Exn QueueFull EmptyString), s)
           else (Ok tt, set_queues (<[q := MkQueue (maxsize qu) (items qu ++ [x])]> (queues s)) s)
       | None => (Raise (Exn OtherException "no such queue"), s)
       end.

(** [q.get()]: the oldest item is taken; [None] stands for the call that
    waits on an empty queue. *)
Definition Queue_get {W} (q : qid) (s : State W) : option (string * State W) :=
  match queues s !! q with
  | Some (MkQueue n (x :: rest)) => Some (x, set_queues (<[q := MkQueue n rest]> (queues s)) s)
  | _ => None
  end.

(** ** [broadcast] (lines 26-39) *)

(** Lines 28-31, under [history_lock]. *)
Definition broadcast_history {W} (line : string) : M W unit :=
  modify (λ s,
    let h := history s ++ [line] in
    set_history (if LOG_HISTORY_MAX <? length h then Py.slice_last LOG_HISTORY_MAX h else h) s).

(** Lines 32-39, for the snapshot [qs = list(subscribers)]. *)
Definition broadcast_fanout {W} (line : string) (qs : list qid) : M W unit :=
  do dead <- for_in qs [] (λ q dead,
               try_except (do_ put_nowait q line; ret dead)
                          (λ _, ret (dead ++ [q])));
  for_in dead tt (λ q _, modify (λ s, set_subscribers (subscribers s ∖ {[q]}) s)).

Definition broadcast {W} (line : string) : M W unit :=
  let line := Py.rstrip_nl line in
  do_ broadcast_history line;
  do qs <- gets (λ s, elements (subscribers s));
  broadcast_fanout line qs.

(** ** [sse_stream] (lines 41-58) *)

(** Lines 45-49: [for ln in history[-500:]], leaving the loop at the first
    [put_nowait] that raises. *)
Fixpoint seed_loop {W} (q : qid) (lns : list string) : M W unit :=
  match lns with
  | [] => ret tt
  | ln :: rest =>
      λ s, match put_nowait q ln s with
           | (Ok _, s') => seed_loop q rest s'
           | (Raise _, s') => (Ok tt, s')
           end
  end.

(** Lines 42-49: the new queue, seeded under [history_lock]. *)
Definition sse_seed {W} : M W qid :=
  do q <- Queue_new 1000;
  do lns <- gets (λ s, Py.slice_last 500 (history s));
  do_ seed_loop q lns;
  ret q.

(** Line 50: [subscribers.add(q)]. *)
Definition sse_register {W} (q : qid) : M W unit :=
  modify (λ s, set_subscribers ({[q]} ∪ subscribers s) s).

(** The generator up to its first [q.get()]. *)
Definition sse_attach {W} : M W qid :=
  do q <- sse_seed;
  do_ sse_register q;
  ret q.

(** Lines 53-54: one turn of the loop, the event yielded; [None] while
    [q.get()] waits. *)
Definition sse_next {W} (q : qid) (s : State W) : option (string * State W) :=
  match Queue_get q s with
  | Some (line, s') =>
      Some ("data: " +:+ line +:+ String Py.newline (String Py.newline EmptyString), s')
  | None => None
  end.

(** Lines 55-58: the generator is closed; [subscribers.discard(q)]. *)
Definition sse_close {W} (q : qid) : M W unit :=
  modify (λ s, set_subscribers (subscribers s ∖ {[q]}) s).

(** ** [spawn_process] and its [reader] thread (lines 128-151) *)

Definition starting_line (args : list string) : string :=
  "# Starting: " +:+ Py.join " " (map Shlex.quote args).

Definition finished_line (rc : Z) : string :=
  "# Finished with exit code " +:+ Py.str_int rc.

Definition already_running : exn := Exn RuntimeError "Another task is running".

(** Lines 129-141 run under [proc_lock]; line 151 starts the thread that
    runs [reader] for the new process. *)
Definition spawn_process {W} `{OS W} (args : list string) (raw : bool) : M W unit :=
  do slot <- gets current_proc;
  match slot_p slot with
  | Some _ => raise already_running
  | None =>
      do_ broadcast (starting_line args);
      do p <- sys_result (subprocess_Popen args);
      do now <- sys time_time;
      do_ modify (set_current_proc
                    {| slot_p := Some p; slot_start_ts := Some now;
                       slot_args := Some args; slot_raw := raw |});
      modify (λ s, set_threads (threads s ++ [p]) s)
  end.

(** How the iteration over [p.stdout] ends: the child closed its output,
    or the read raised. *)
Inductive stream_end :=
  | EOF
  | ReadError (e : exn).

(** [for line in p.stdout: body(line)], for a child that writes the lines
    [out] and whose stream then ends with [fin]. *)
Definition for_stdout {W} (out : list string) (fin : stream_end)
    (body : string → M W unit) : M W unit :=
  do_ for_in out tt (λ line _, body line);
  match fin with
  | EOF => ret tt
  | ReadError e => raise e
  end.

(** Lines 147-150, the [finally] block; the slot is cleared under [proc_lock]. *)
Definition reader_finally {W} `{OS W} (p : Popen) : M W unit :=
  do rc <- sys (Popen_wait p);
  do_ broadcast (finished_line rc);
  modify (set_current_proc idle_slot).

(** Lines 142-150. *)
Definition reader {W} `{OS W} (p : Popen) (out : list string) (fin : stream_end) : M W unit :=
  try_finally
    (for_stdout out fin (λ line, broadcast (Py.rstrip_nl line)))
    (reader_finally p).

(** ** Routes (lines 158-199) *)

Inductive json :=
  | JNull
  | JBool (b : bool)
  | JNum (t : timestamp)
  | JStr (s : string)
  | JArr (l : list string).

(** A Flask response: [jsonify(body)] with its status code. *)
Record response := MkResponse { status_code : nat; body : list (string * json) }.

Definition jsonify (b : list (string * json)) : response := MkResponse 200 b.

Definition json_opt {A} (f : A → json) (o : option A) : json :=
  match o with
  | Some a => f a
  | None => JNull
  end.

(** [try: body except cls: handler]: any other exception passes through. *)
Definition try_except_class {W A} (cls : exn_class) (body : M W A) (handler : M W A) : M W A :=
  λ s, match body s with
       | (Ok a, s') => (Ok a, s')
       | (Raise e, s') =>
           if decide (exn_cls e = cls) then handler s' else (Raise e, s')
       end.

(** Lines 182-191. *)
Definition api_stop {W} `{OS W} : M W response :=
  do slot <- gets current_proc;
  match slot_p slot with
  | None => ret (jsonify [("status", JStr "idle")])
  | Some p =>
      do_ try_except_class ProcessLookupError
            (do g <- sys_result (os_getpgid (pid p));
             sys_result (os_killpg g SIGINT))
            (ret tt);
      ret (jsonify [("status", JStr "stopping")])
  end.

(** Lines 194-199. *)
Definition api_status {W} : M W response :=
  do slot <- gets current_proc;
  ret (jsonify [("running", JBool (bool_decide (is_Some (slot_p slot))));
                ("args", json_opt JArr (slot_args slot));
                ("start_ts", json_opt JNum (slot_start_ts slot))]).

Definition error_response (e : exn) : response :=
  MkResponse 400 [("error", JStr (exn_str e))].

Section Routes.
Context {W : Type} `{OS W}.

(** The request body and [build_args_from_form] (lines 60-126), which
    builds the argument vector or raises; [shlex.split]. *)
Variable Form : Type.
Variable build_args_from_form : Form → Result (list string).
Variable shlex_split : string → Result (list string).

Definition pure_result {A} (r : Result A) : M W A := λ s, (r, s).

(** Lines 159-166. *)
Definition api_start (data : Form) : M W response :=
  try_except
    (do args <- pure_result (build_args_from_form data);
     do_ spawn_process args false;
     ret (jsonify [("status", JStr "started")]))
    (λ e, ret (error_response e)).

(** Lines 169-179, for [cmd], the value of [data.get('cmd', '').strip()]. *)
Definition api_run_raw (cmd : string) : M W response :=
  match cmd with
  | EmptyString => ret (MkResponse 400 [("error", JStr "Missing cmd")])
  | _ =>
      try_except
        (do args <- pure_result (shlex_split cmd);
         do_ spawn_process args true;
         ret (jsonify [("status", JStr "started")]))
        (λ e, ret (error_response e))
  end.
End Routes.

(** ** A simulated operating system, to run the program on *)

Module Sim.

Inductive os_call :=
  | CallPopen (args : list string)
  | CallTime
  | CallGetpgid (p : nat)
  | CallKillpg (pgid : nat) (sig : signal)
  | CallWait (p : nat).

Record World := MkWorld {
  calls : list os_call;          (* every call made, oldest first *)
  installed : list string;       (* the executables that resolve *)
  clock : timestamp;
  next_pid : nat;
  groups : list nat;             (* the process groups that exist *)
  exit_code : Z
}.

Definition log (c : os_call) (w : World) : World :=
  MkWorld (calls w ++ [c]) (installed w) (clock w) (next_pid w) (groups w) (exit_code w).

Definition set_groups (g : list nat) (w : World) : World :=
  MkWorld (calls w) (installed w) (clock w) (next_pid w) g (exit_code w).

(** [str(e)] of the [FileNotFoundError] of [Popen]: the message, then
    the name of the program as [repr] shows it (here for a name of
    printable characters without quote or backslash). *)
Definition no_such_file (name : string) : exn :=
  Exn FileNotFoundError ("[Errno 2] No such file or directory: '" +:+ name +:+ "'").
Definition no_such_process : exn := Exn ProcessLookupError "[Errno 3] No such process".

(** The child is made a session leader ([os.setsid]): its group is its pid. *)
Definition popen (args : list string) (w : World) : Result Popen * World :=
  let w := log (CallPopen args) w in
  match args with
  | a :: _ =>
      if bool_decide (a ∈ installed w) then
        (Ok (MkPopen (next_pid w)),
         MkWorld (calls w) (installed w) (clock w) (S (next_pid w))
                 (next_pid w :: groups w) (exit_code w))
      else (Raise (no_such_file a), w)
  | [] => (Raise (Exn OtherException "list index out of range"), w)
  end.

Definition getpgid (p : nat) (w : World) : Result nat * World :=
  (if bool_decide (p ∈ groups w) then Ok p else Raise no_such_process, log (CallGetpgid p) w).

Definition killpg (g : nat) (sig : signal) (w : World) : Result unit * World :=
  (if bool_decide (g ∈ groups w) then Ok tt else Raise no_such_process, log (CallKillpg g sig) w).

Definition wait (p : Popen) (w : World) : Z * World :=
  (exit_code w, set_groups (filter (λ g, g ≠ pid p) (groups w)) (log (CallWait (pid p)) w)).

#[global] Instance sim_os : OS World := {|
  subprocess_Popen := popen;
  time_time := λ w, (clock w, log CallTime w);
  os_getpgid := getpgid;
  os_killpg := killpg;
  Popen_wait := wait
|}.

Definition boot : State World :=
  initial_state (MkWorld [] ["yt-dlp"; "echo_stub"] 1700000000%Z 100 [] 0%Z).

End Sim.

(** Running a computation for its state or its outcome. *)
Definition exec {W A} (m : M W A) (s : State W) : State W := snd (m s).
Definition outcome {W A} (m : M W A) (s : State W) : Result A := fst (m s).

(** ** What one [put_nowait] does to a queue object *)

(** The object after [put_nowait(x)]; untouched when the call raises. *)
Definition deliver (x : string) (o : option Queue) : option Queue :=
  match o with
  | Some qu => if queue_full qu then Some qu else Some (MkQueue (maxsize qu) (items qu ++ [x]))
  | None => None
  end.

(** Whether [put_nowait] returns normally on the object. *)
Definition accepts (o : option Queue) : bool :=
  match o with
  | Some qu => negb (queue_full qu)
  | None => false
  end.

(** The lines waiting in queue [q]. *)
Definition pending {W} (q : qid) (s : State W) : list string :=
  match queues s !! q with
  | Some qu => items qu
  | None => []
  end.

(** Every registered identity has its object. *)
Definition wf_state {W} (s : State W) : Prop := subscribers s ⊆ dom (queues s).

(** History after one append (lines 29-31). *)
Definition appended (h : list string) (line : string) : list string :=
  if LOG_HISTORY_MAX <? length (h ++ [line])
  then Py.slice_last LOG_HISTORY_MAX (h ++ [line]) else h ++ [line].

(** The state [broadcast] leaves, field by field. *)
Record broadcast_post {W} (line : string) (s s' : State W) : Prop := {
  bp_history : history s' = appended (history s) (Py.rstrip_nl line);
  bp_subscribers : ∀ q, q ∈ subscribers s' ↔ q ∈ subscribers s ∧ accepts (queues s !! q) = true;
  bp_queues : ∀ q, queues s' !! q =
                if decide (q ∈ subscribers s) then deliver (Py.rstrip_nl line) (queues s !! q)
                else queues s !! q;
  bp_current_proc : current_proc s' = current_proc s;
  bp_threads : threads s' = threads s;
  bp_world : world s' = world s
}.

(** [s'] has the objects of [s], and registers no identity without object
    that [s] did not. *)
Definition extends {W} (s s' : State W) : Prop :=
  dom (queues s) ⊆ dom (queues s')
  ∧ subscribers s' ⊆ subscribers s ∪ dom (queues s').

(** ** Lines that [rstrip] leaves alone *)

Fixpoint last_char (s : string) : option ascii :=
  match s with
  | EmptyString => None
  | String c s' =>
      match last_char s' with
      | Some d => Some d
      | None => Some c
      end
  end.

(** A string that ends, and not in a newline. *)
Definition ends_clean (s : string) : Prop :=
  ∃ c, last_char s = Some c ∧ c ≠ Py.newline.

(** ** Answers of [/api/stop] *)

Definition stopping : response := jsonify [("status", JStr "stopping")].
Definition idle : response := jsonify [("status", JStr "idle")].

(** ** Sequences of operations *)

(** [broadcast] called on each line of [ls] in turn. *)
Definition broadcast_all {W} (ls : list string) : M W unit :=
  for_in ls tt (λ line _, broadcast line).

(** The text of one server-sent event (line 54). *)
Definition sse_event (line : string) : string :=
  "data: " +:+ line +:+ String Py.newline (String Py.newline EmptyString).

(** What happens around one subscriber: a line is appended, or its
    generator takes its next turn. *)
Inductive event :=
  | Append (line : string)
  | Next.

Definition appended_lines (evs : list event) : list string :=
  omap (λ ev, match ev with Append line => Some line | Next => None end) evs.

(** The events that the generator of queue [q] yields along [evs], and the
    state reached.  A turn taken on an empty queue waits: nothing is
    yielded. *)
Fixpoint run_subscriber {W} (q : qid) (evs : list event) (s : State W)
    : list string * State W :=
  match evs with
  | [] => ([], s)
  | Append line :: rest => run_subscriber q rest (exec (broadcast line) s)
  | Next :: rest =>
      match sse_next q s with
      | Some (ev, s') =>
          let '(ys, s'') := run_subscriber q rest s' in (ev :: ys, s'')
      | None => run_subscriber q rest s
      end
  end.

(** Everything subscriber [q] has been given: the events it has yielded,
    then those its queue still holds. *)
Definition stream {W} (q : qid) (r : list string * State W) : list string :=
  r.1 ++ map sse_event (pending q r.2).

(** A subscription made after the lines [before], around which [evs]
    happens, is seeded with the newest 500 of them and has been given
    every line appended since. *)
Definition delivers_all {W} (s0 : State W) (before : list string) (evs : list event) : Prop :=
  match sse_attach (exec (broadcast_all before) s0) with
  | (Ok q, s1) =>
      pending q s1 = Py.slice_last 500 (map Py.rstrip_nl before)
      ∧ stream q (run_subscriber q evs s1)
        = map sse_event (pending q s1 ++ map Py.rstrip_nl (appended_lines evs))
  | (Raise _, _) => False
  end.

(** Along [evs], every append finds room in queue [q]: fewer than 1000
    lines are waiting in it at that moment. *)
Fixpoint keeps_up {W} (q : qid) (evs : list event) (s : State W) : bool :=
  match evs with
  | [] => true
  | Append line :: rest =>
      (length (pending q s) <? 1000) && keeps_up q rest (exec (broadcast line) s)
  | Next :: rest =>
      keeps_up q rest (match sse_next q s with Some (_, s') => s' | None => s end)
  end.

(** For each line of [ls] in turn: the line is appended, then the
    subscriber takes a turn. *)
Definition paced (ls : list string) : list event :=
  concat (map (λ line, [Append line; Next]) ls).

(** The lines ["0"], ["1"], ... up to [n], excluded. *)
Definition numbered (n : nat) : list string := map pretty (seq 0 n).

(** ** One subscriber attaching while one line is broadcast

    Two threads: one runs [sse_stream] up to its first [q.get()], in the
    steps [SubSeed] (lines 42-49, the second half under [history_lock]) and
    [SubRegister] (line 50); the other runs [broadcast], in the steps
    [BcHistory] (lines 27-31, under [history_lock]), [BcSnapshot]
    ([list(subscribers)] of line 33) and [BcFanout] (the loops of lines
    33-39 over that list). *)

Inductive tstep := SubSeed | SubRegister | BcHistory | BcSnapshot | BcFanout.

#[global] Instance tstep_eq_dec : EqDecision tstep.
Proof. solve_decision. Defined.

Record Machine (W : Type) := MkMachine {
  shared : State W;
  sub_q : option qid;               (* the local [q] of the subscribing thread *)
  bc_qs : option (list qid)         (* the list the broadcasting thread iterates *)
}.
Arguments MkMachine {W}.
Arguments shared {W}.
Arguments sub_q {W}.
Arguments bc_qs {W}.

Definition tstep_run {W} (line : string) (t : tstep) (m : Machine W) : Machine W :=
  match t with
  | SubSeed =>
      match sse_seed (shared m) with
      | (Ok q, s') => MkMachine s' (Some q) (bc_qs m)
      | (Raise _, s') => MkMachine s' None (bc_qs m)
      end
  | SubRegister =>
      match sub_q m with
      | Some q => MkMachine (exec (sse_register q) (shared m)) (sub_q m) (bc_qs m)
      | None => m
      end
  | BcHistory =>
      MkMachine (exec (broadcast_history (Py.rstrip_nl line)) (shared m)) (sub_q m) (bc_qs m)
  | BcSnapshot =>
      MkMachine (shared m) (sub_q m) (Some (elements (subscribers (shared m))))
  | BcFanout =>
      match bc_qs m with
      | Some qs =>
          MkMachine (exec (broadcast_fanout (Py.rstrip_nl line) qs) (shared m)) (sub_q m) (bc_qs m)
      | None => m
      end
  end.

Definition schedule_run {W} (line : string) (sched : list tstep) (s : State W) : Machine W :=
  foldl (λ m t, tstep_run line t m) (MkMachine s None None) sched.

(** Every interleaving of two threads, each keeping its own order. *)
Fixpoint merges {A} (l1 : list A) : list A → list (list A) :=
  fix go (l2 : list A) : list (list A) :=
    match l1, l2 with
    | [], _ => [l2]
    | _, [] => [l1]
    | x :: l1', y :: l2' => map (cons x) (merges l1' l2) ++ map (cons y) (go l2')
    end.

Definition schedules : list (list tstep) :=
  merges [SubSeed; SubRegister] [BcHistory; BcSnapshot; BcFanout].

(** Position of the first [t] in the schedule. *)
Fixpoint position (t : tstep) (sched : list tstep) : nat :=
  match sched with
  | [] => 0
  | u :: rest => if decide (u = t) then 0 else S (position t rest)
  end.

Definition before (t u : tstep) (sched : list tstep) : bool :=
  position t sched <? position u sched.

(** The line is appended after the seed snapshot was taken and before the
    registration completes. *)
Definition in_window (sched : list tstep) : bool :=
  before SubSeed BcHistory sched && before BcHistory SubRegister sched.

(** The lines the new subscriber finds in its queue once both threads are done. *)
Definition subscriber_gets {W} (line : string) (sched : list tstep) (s : State W)
    : list string :=
  let m := schedule_run line sched s in
  match sub_q m with
  | Some q => pending q (shared m)
  | None => []
  end.

(** The new subscriber finds the seed and then the line, once. *)
Definition exactly_once {W} (line : string) (sched : list tstep) (s : State W) : Prop :=
  subscriber_gets line sched s = Py.slice_last 500 (history s) ++ [Py.rstrip_nl line].

(** ** The operations of the running program *)

Section System.
Context {W : Type} `{OS W}.
Variable Form : Type.
Variable build_args_from_form : Form → Result (list string).
Variable shlex_split : string → Result (list string).

(** What a thread of the program can do in one step: serve a request, take
  a turn of an event stream, or, in a reader thread, run one iteration
  of the loop over [p.stdout] or the [finally] block. *)
Inductive action :=
| ActApiStart (data : Form)
| ActApiRunRaw (cmd : string)
| ActApiStop
| ActApiStatus
| ActSseAttach
| ActSseNext (q : qid)
| ActSseClose (q : qid)
| ActReaderLine (line : string)
| ActReaderFinally (p : Popen).

Definition step (a : action) (s : State W) : State W :=
match a with
| ActApiStart data => exec (api_start Form build_args_from_form data) s
| ActApiRunRaw cmd => exec (api_run_raw shlex_split cmd) s
| ActApiStop => exec api_stop s
| ActApiStatus => exec api_status s
| ActSseAttach => exec sse_attach s
| ActSseNext q => match sse_next q s with Some (_, s') => s' | None => s end
| ActSseClose q => exec (sse_close q) s
| ActReaderLine line => exec (broadcast (Py.rstrip_nl line)) s
| ActReaderFinally p => exec (reader_finally p) s
end.

End System.

(** ** Example states of the simulated system *)

Module Scenario.

Definition job : list string := ["echo_stub"; "hello world"].

(** A job was started from the fresh state. *)
Definition running : State Sim.World := exec (spawn_process job false) Sim.boot.

(** The reader thread has waited for the process (line 147) and has not
    yet cleared the slot (line 150): the process group is gone. *)
Definition reaped : State Sim.World :=
  set_world (Sim.wait (MkPopen 100) (world running)).2 running.

(** A first subscriber attached, 1000 lines were appended without it
    taking a turn, then a second subscriber attached. *)
Definition crowded : State Sim.World :=
  exec sse_attach (exec (broadcast_all (numbered 1000)) (exec sse_attach Sim.boot)).

(** A request body is the argument vector itself. *)
Definition build (data : list string) : Result (list string) := Ok data.

(** A command line without spaces or quotes. *)
Definition split (cmd : string) : Result (list string) := Ok [cmd].

End Scenario.

(** ** More of Python's [str]: [strip] and iteration *)

Module PyStr.

(** The string of the given bytes. *)
Fixpoint bytes (l : list nat) : string :=
  match l with
  | [] => EmptyString
  | n :: rest => String (ascii_of_nat n) (bytes rest)
  end.

(** The characters [c] with [c.isspace()], each in UTF-8: the ASCII ones,
    U+0085, U+00A0, U+1680, U+2000 to U+200A, U+2028, U+2029, U+202F,
    U+205F and U+3000. *)
Definition whitespace : list string :=
  map bytes
    [[9]; [10]; [11]; [12]; [13]; [28]; [29]; [30]; [31]; [32];
     [194; 133]; [194; 160];
     [225; 154; 128];
     [226; 128; 128]; [226; 128; 129]; [226; 128; 130]; [226; 128; 131];
     [226; 128; 132]; [226; 128; 133]; [226; 128; 134]; [226; 128; 135];
     [226; 128; 136]; [226; 128; 137]; [226; 128; 138];
     [226; 128; 168]; [226; 128; 169]; [226; 128; 175];
     [226; 129; 159];
     [227; 128; 128]].

Definition is_whitespace (w : string) : bool := bool_decide (w ∈ whitespace).

(** [s.lstrip()]: whitespace characters, of one to three bytes, are taken
    off the front. *)
Fixpoint lstrip (s : string) : string :=
  match s with
  | EmptyString => EmptyString
  | String a s1 =>
      if is_whitespace (String a EmptyString) then lstrip s1
      else
        match s1 with
        | EmptyString => s
        | String b s2 =>
            if is_whitespace (String a (String b EmptyString)) then lstrip s2
            else
              match s2 with
              | EmptyString => s
              | String c s3 =>
                  if is_whitespace (String a (String b (String c EmptyString)))
                  then lstrip s3
                  else s
              end
        end
  end.

(** [s.rstrip()]: with the end of the string already stripped, what is
    left is dropped too when it is one whitespace character. *)
Fixpoint rstrip (s : string) : string :=
  match s with
  | EmptyString => EmptyString
  | String a s' =>
      let r := rstrip s' in
      if is_whitespace (String a r) then EmptyString else String a r
  end.

(** [s.strip()]. *)
Definition strip (s : string) : string := rstrip (lstrip s).

(** A byte that continues a UTF-8 character. *)
Definition is_continuation (a : ascii) : bool :=
  (128 <=? nat_of_ascii a) && (nat_of_ascii a <? 192).

Definition continues (w : string) : bool :=
  match w with
  | String a _ => is_continuation a
  | EmptyString => false
  end.

(** [list(s)]: the characters of [s], each with its continuation bytes. *)
Fixpoint chars (s : string) : list string :=
  match s with
  | EmptyString => []
  | String a s' =>
      match chars s' with
      | w :: ws => if continues w then String a w :: ws else String a EmptyString :: w :: ws
      | [] => [String a EmptyString]
      end
  end.

(** [posixpath.join(a, b)]. *)
Definition path_join (a b : string) : string :=
  match b with
  | String "/" _ => b
  | _ =>
      match a with
      | EmptyString => b
      | _ => if bool_decide (last_char a = Some "/"%char) then a +:+ b else a +:+ "/" +:+ b
      end
  end.

End PyStr.

(** ** [shlex.split] of the Python standard library

    [shlex.split(s)] runs the lexer in POSIX mode with [whitespace_split]
    set and no comment characters; [read_token] is then this machine, one
    character at a time.  A character of several bytes goes through it
    byte by byte with the same result, since none of its bytes is a
    white space, a quote or the backslash. *)

Module ShlexSplit.

Definition backslash : ascii := "092"%char.

(** [self.whitespace]: space, tab, carriage return, newline. *)
Definition is_space (c : ascii) : bool :=
  bool_decide (c ∈ [" "; "009"; "013"; "010"]%char).

Definition is_quote (c : ascii) : bool :=
  bool_decide (c = Shlex.squote) || bool_decide (c = Shlex.dquote).

(** [self.state]: [' '], ['a'], a quote character, or the escape character
    with the state to go back to in [escapedstate] (['a'], or the double
    quote the escape was met in). *)
Inductive state :=
  | White
  | Word
  | Quote (q : ascii)
  | Escape (back : option ascii).

Definition no_closing_quotation : exn := Exn ValueError "No closing quotation".
Definition no_escaped_character : exn := Exn ValueError "No escaped character".

(** [if self.token or (self.posix and quoted): break], the token emitted. *)
Definition emit (token : string) (quoted : bool) (acc : list string) : list string :=
  if negb (bool_decide (token = EmptyString)) || quoted then acc ++ [token] else acc.

Definition snoc (token : string) (c : ascii) : string := token +:+ String c EmptyString.

Fixpoint lex (s : string) (st : state) (token : string) (quoted : bool)
    (acc : list string) : Result (list string) :=
  match s with
  | EmptyString =>
      match st with
      | White => Ok acc
      | Word => Ok (emit token quoted acc)
      | Quote _ => Raise no_closing_quotation
      | Escape _ => Raise no_escaped_character
      end
  | String c s' =>
      match st with
      | White =>
          if is_space c then lex s' White EmptyString false (emit token quoted acc)
          else if bool_decide (c = backslash) then lex s' (Escape None) token quoted acc
          else if is_quote c then lex s' (Quote c) token quoted acc
          else lex s' Word (String c EmptyString) quoted acc
      | Quote q =>
          if bool_decide (c = q) then lex s' Word token true acc
          else if bool_decide (c = backslash) && bool_decide (q = Shlex.dquote)
          then lex s' (Escape (Some q)) token true acc
          else lex s' (Quote q) (snoc token c) true acc
      | Escape back =>
          match back with
          | Some q =>
              let token :=
                if negb (bool_decide (c = backslash)) && negb (bool_decide (c = q))
                then snoc token backslash else token in
              lex s' (Quote q) (snoc token c) quoted acc
          | None => lex s' Word (snoc token c) quoted acc
          end
      | Word =>
          if is_space c then lex s' White EmptyString false (emit token quoted acc)
          else if is_quote c then lex s' (Quote c) token quoted acc
          else if bool_decide (c = backslash) then lex s' (Escape None) token quoted acc
          else lex s' Word (snoc token c) quoted acc
      end
  end.

(** [shlex.split(s)]. *)
Definition split (s : string) : Result (list string) := lex s White EmptyString false [].

End ShlexSplit.

(** ** Python values of a JSON request body *)

(** What [request.get_json] returns.  A float is given by what the program
    can observe of it: whether it is zero, and its [str()].  A dict is its
    items in insertion order, each key once. *)
#[warnings="-register-all"] Inductive pyval :=
  | PNone
  | PBool (b : bool)
  | PInt (z : Z)
  | PFloat (is_zero : bool) (text : string)
  | PStr (s : string)
  | PList (l : list pyval)
  | PDict (d : list (string * pyval)).

(** The errors that the interpreter itself raises in this code. *)
Inductive builtin_error :=
  | NoAttribute (v : pyval) (attr : string)     (* AttributeError *)
  | NotIterable (v : pyval)                     (* TypeError *)
  | Unhashable (v : pyval).                     (* TypeError *)

(** What is left to the interpreter: the exception object of each built-in
    error, and [str()] of a list or a dict. *)
Class Interp := {
  builtin_exn : builtin_error → exn;
  container_str : pyval → string
}.

Definition rbind {A B} (r : Result A) (k : A → Result B) : Result B :=
  match r with
  | Ok a => k a
  | Raise e => Raise e
  end.

Notation "'doR' x <- c1 ; c2" := (rbind c1 (λ x, c2))
  (at level 10, x name, c1 at level 100, c2 at level 200,
   format "'[v' 'doR'  x  <-  c1 ; '/' c2 ']'").

Module PyVal.

(** [bool(v)]. *)
Definition truthy (v : pyval) : bool :=
  match v with
  | PNone => false
  | PBool b => b
  | PInt z => negb (Z.eqb z 0)
  | PFloat is_zero _ => negb is_zero
  | PStr s => negb (bool_decide (s = EmptyString))
  | PList l => match l with [] => false | _ => true end
  | PDict d => match d with [] => false | _ => true end
  end.

(** [a or b]. *)
Definition or (a b : pyval) : pyval := if truthy a then a else b.

(** [str(v)]. *)
Definition str `{Interp} (v : pyval) : string :=
  match v with
  | PNone => "None"
  | PBool true => "True"
  | PBool false => "False"
  | PInt z => Py.str_int z
  | PFloat _ text => text
  | PStr s => s
  | PList _ | PDict _ => container_str v
  end.

(** [v == s] for a [str] [s]. *)
Definition eq_str (v : pyval) (s : string) : bool :=
  match v with
  | PStr t => bool_decide (t = s)
  | _ => false
  end.

(** [d[key]] in the items of a dict. *)
Fixpoint lookup (key : string) (d : list (string * pyval)) : option pyval :=
  match d with
  | [] => None
  | (k, v) :: rest => if bool_decide (k = key) then Some v else lookup key rest
  end.

(** [d[key] = v]: in place when the key is there, at the end otherwise. *)
Fixpoint set (key : string) (v : pyval) (d : list (string * pyval))
    : list (string * pyval) :=
  match d with
  | [] => [(key, v)]
  | (k, w) :: rest =>
      if bool_decide (k = key) then (k, v) :: rest else (k, w) :: set key v rest
  end.

(** [data.get(key, default)]. *)
Definition get `{Interp} (data : pyval) (key : string) (default : pyval) : Result pyval :=
  match data with
  | PDict d => Ok (from_option id default (lookup key d))
  | _ => Raise (builtin_exn (NoAttribute data "get"))
  end.

(** [v.strip()]. *)
Definition strip `{Interp} (v : pyval) : Result string :=
  match v with
  | PStr s => Ok (PyStr.strip s)
  | _ => Raise (builtin_exn (NoAttribute v "strip"))
  end.

(** The values that [for t in v] goes through. *)
Definition iter `{Interp} (v : pyval) : Result (list pyval) :=
  match v with
  | PList l => Ok l
  | PStr s => Ok (map PStr (PyStr.chars s))
  | PDict d => Ok (map (λ kv, PStr kv.1) d)
  | _ => Raise (builtin_exn (NotIterable v))
  end.

(** [t in allowed] for a set of strings: [t] is hashed first. *)
Definition in_set `{Interp} (t : pyval) (allowed : list string) : Result bool :=
  match t with
  | PList _ | PDict _ => Raise (builtin_exn (Unhashable t))
  | PStr s => Ok (bool_decide (s ∈ allowed))
  | _ => Ok false
  end.

End PyVal.

(** ** [build_args_from_form] (lines 60-126) *)

Definition YTDLP_BIN : string := "yt-dlp".

Definition missing_url : exn := Exn ValueError "Missing URL".

(** The set [allowed] of lines 107-115. *)
Definition allowed : list string :=
  ["--no-abort-on-error"; "--skip-unavailable-fragments"; "--continue";
   "--restrict-filenames"; "--windows-filenames";
   "--embed-thumbnail"; "--embed-metadata"; "--embed-chapters";
   "--write-description"; "--write-info-json"; "--no-clean-info-json";
   "--write-subs"; "--no-simulate"; "--no-ignore-no-formats-error";
   "--list-formats"; "--list-subs"; "--progress"; "--console-title";
   "--no-keep-fragments"].

Definition nonempty (s : string) : bool := negb (bool_decide (s = EmptyString)).

Section BuildArgs.
Context `{Interp}.

(** [data.get(key, '').strip()]. *)
Definition get_strip (data : pyval) (key : string) : Result string :=
  doR v <- PyVal.get data key (PStr EmptyString);
  PyVal.strip v.

(** [str(data.get(key) or '').strip()]. *)
Definition get_str_strip (data : pyval) (key : string) : Result string :=
  doR v <- PyVal.get data key PNone;
  Ok (PyStr.strip (PyVal.str (PyVal.or v (PStr EmptyString)))).

(** Lines 116-118: [for t in toggles: if t in allowed: args.append(t)]. *)
Fixpoint add_toggles (ts : list pyval) (args : list string) : Result (list string) :=
  match ts with
  | [] => Ok args
  | t :: rest =>
      doR ok <- PyVal.in_set t allowed;
      add_toggles rest (if ok then args ++ [PyVal.str t] else args)
  end.

(** Lines 81-94, the preset formats. *)
Definition preset_format (dl_kind : pyval) (max_height : string) : string :=
  if PyVal.eq_str dl_kind "audio" then "bestaudio/best"
  else if PyVal.eq_str dl_kind "video" then
    if nonempty max_height
    then "bestvideo*[height<=" +:+ max_height +:+ "]/bestvideo"
    else "bestvideo"
  else
    if nonempty max_height
    then "bestvideo*[height<=" +:+ max_height +:+ "]+bestaudio/best[height<="
           +:+ max_height +:+ "]/best"
    else "bestvideo+bestaudio/best".

Definition build_args_from_form (data : pyval) : Result (list string) :=
  doR url <- get_strip data "url";
  if negb (nonempty url) then Raise missing_url else
  let args := [YTDLP_BIN; "--newline"] in
  doR out_tmpl <- get_strip data "output_template";
  let args := if nonempty out_tmpl then args ++ ["-o"; out_tmpl] else args in
  doR arch <- get_strip data "archive_path";
  let args := if nonempty arch then args ++ ["--download-archive"; arch] else args in
  doR mode <- PyVal.get data "format_mode" (PStr "preset");
  doR args <-
    (if PyVal.eq_str mode "custom" then
       doR cf <- get_strip data "custom_format";
       Ok (if nonempty cf then args ++ ["-f"; cf] else args)
     else
       doR dl_kind <- PyVal.get data "dl_kind" (PStr "video_audio");
       doR max_height <- get_str_strip data "max_height";
       Ok (args ++ ["-f"; preset_format dl_kind max_height]));
  doR limit_rate <- get_strip data "limit_rate";
  let args := if nonempty limit_rate then args ++ ["--limit-rate"; limit_rate] else args in
  doR sleep_i <- get_str_strip data "sleep_interval";
  doR sleep_max <- get_str_strip data "max_sleep_interval";
  let args := if nonempty sleep_i then args ++ ["--sleep-interval"; sleep_i] else args in
  let args := if nonempty sleep_max then args ++ ["--max-sleep-interval"; sleep_max] else args in
  doR toggles <- PyVal.get data "toggles" (PList []);
  doR ts <- PyVal.iter toggles;
  doR args <- add_toggles ts args;
  doR base_dir <- get_strip data "destination_dir";
  let args :=
    if nonempty base_dir && negb (nonempty out_tmpl)
    then args ++ ["-o"; PyStr.path_join base_dir "%(uploader)s/%(title)s.%(ext)s"]
    else args in
  Ok (args ++ [url]).

End BuildArgs.

(** ** The routes on a JSON body *)

Section JsonRoutes.
Context {W : Type} `{OS W} `{Interp}.

(** Lines 159-166, with [data = request.get_json(...) or {}]. *)
Definition api_start_json (body : pyval) : M W response :=
  api_start pyval build_args_from_form (PyVal.or body (PDict [])).

(** Lines 169-179.  Line 171 is outside the [try]: an exception there
    leaves the view. *)
Definition api_run_raw_json (body : pyval) : M W response :=
  do cmd <- pure_result (get_strip (PyVal.or body (PDict [])) "cmd");
  api_run_raw ShlexSplit.split cmd.

End JsonRoutes.

(** ** Runs of the program *)

Section Runs.
Context {W : Type} `{OS W}.
Variable Form : Type.
Variable build_args_from_form : Form → Result (list string).
Variable shlex_split : string → Result (list string).

(** The state after the operations [acts], in this order. *)
Definition run (acts : list (action Form)) (s : State W) : State W :=
  foldl (λ s a, step Form build_args_from_form shlex_split a s) s acts.

End Runs.

(** The slot holds a job with its timestamp and argv, or nothing at all. *)
Definition slot_coherent (sl : Slot) : Prop :=
  match slot_p sl with
  | Some _ => is_Some (slot_start_ts sl) ∧ is_Some (slot_args sl)
  | None => sl = idle_slot
  end.

(** The history and every queue are within their bounds. *)
Definition bounded {W} (s : State W) : Prop :=
  length (history s) ≤ LOG_HISTORY_MAX
  ∧ ∀ q qu, queues s !! q = Some qu → maxsize qu = 1000 ∧ length (items qu) ≤ 1000.

(** The toggles that line 117 lets through. *)
Definition allowed_toggle (t : pyval) : bool :=
  match t with
  | PStr x => bool_decide (x ∈ allowed)
  | _ => false
  end.

(** A value that can be hashed. *)
Definition hashable (t : pyval) : bool :=
  match t with
  | PList _ | PDict _ => false
  | _ => true
  end.

(** A value that [for t in v] accepts. *)
Definition iterable (v : pyval) : bool :=
  match v with
  | PStr _ | PList _ | PDict _ => true
  | _ => false
  end.

(** The field [key] of a request is a string or is not there. *)
Definition text_field (d : list (string * pyval)) (key : string) : Prop :=
  PyVal.lookup key d = None ∨ ∃ t, PyVal.lookup key d = Some (PStr t).

(** The field [key] is not there, or is a string of white space only. *)
Definition blank_field (d : list (string * pyval)) (key : string) : Prop :=
  PyVal.lookup key d = None
  ∨ ∃ ws, PyVal.lookup key d = Some (PStr (foldr String.append EmptyString ws))
          ∧ Forall (λ w, w ∈ PyStr.whitespace) ws.

(** The keys that [build_args_from_form] reads besides ["url"]. *)
Definition option_keys : list string :=
  ["output_template"; "archive_path"; "format_mode"; "custom_format"; "dl_kind";
   "max_height"; "limit_rate"; "sleep_interval"; "max_sleep_interval"; "toggles";
   "destination_dir"].

(** An ASCII character that is not white space. *)
Definition plain (c : ascii) : bool :=
  (nat_of_ascii c <? 128) && negb (PyStr.is_whitespace (String c EmptyString)).

Definition first_char (s : string) : option ascii :=
  match s with
  | String c _ => Some c
  | EmptyString => None
  end.

(** The text that line 132 puts after ["# Starting: "]. *)
Definition command_text (args : list string) : string :=
  Py.join " " (map Shlex.quote args).

Definition started : response := jsonify [("status", JStr "started")].

(** [s'] holds the same history, queues and registry as [s]. *)
Definition same_logs {W} (s s' : State W) : Prop :=
  history s' = history s ∧ queues s' = queues s ∧ subscribers s' = subscribers s.

(** No retained line ends in a newline. *)
Definition stripped {W} (s : State W) : Prop :=
  Forall (λ l, Py.rstrip_nl l = l) (history s)
  ∧ ∀ q qu, queues s !! q = Some qu → Forall (λ l, Py.rstrip_nl l = l) (items qu).
(** ** Instances for the examples *)

Module Sample.

(** [type(v).__name__]. *)
Definition type_name (v : pyval) : string :=
  match v with
  | PNone => "NoneType"
  | PBool _ => "bool"
  | PInt _ => "int"
  | PFloat _ _ => "float"
  | PStr _ => "str"
  | PList _ => "list"
  | PDict _ => "dict"
  end.

(** CPython's messages for the built-in errors. *)
Definition message (e : builtin_error) : string :=
  match e with
  | NoAttribute v attr =>
      "'" +:+ type_name v +:+ "' object has no attribute '" +:+ attr +:+ "'"
  | NotIterable v => "'" +:+ type_name v +:+ "' object is not iterable"
  | Unhashable v => "unhashable type: '" +:+ type_name v +:+ "'"
  end.

(** [repr(v)], for strings of printable ASCII characters without quote or
    backslash, which are written between single quotes as they are. *)
Fixpoint repr (v : pyval) : string :=
  match v with
  | PNone => "None"
  | PBool true => "True"
  | PBool false => "False"
  | PInt z => Py.str_int z
  | PFloat _ text => text
  | PStr s => "'" +:+ s +:+ "'"
  | PList l => "[" +:+ Py.join ", " (map repr l) +:+ "]"
  | PDict d =>
      "{" +:+ Py.join ", " (map (λ kv, let '(k, x) := kv in "'" +:+ k +:+ "': " +:+ repr x) d)
          +:+ "}"
  end.

(** [AttributeError] and [TypeError] are classes that the program does not
    tell apart from other exceptions. *)
#[global] Instance interp : Interp := {|
  builtin_exn := λ e, Exn OtherException (message e);
  container_str := repr
|}.

(** A request for one video. *)
Definition video : list (string * pyval) := [("url", PStr " https://example.org/v ")].

End Sample.

(** A system on which the caller may not signal the job: [os.killpg]
    raises [PermissionError], and so does [os.getpgid] when [strict]. *)
Module Denied.

Record World := MkWorld { strict : bool }.

Definition not_permitted : exn := Exn PermissionError "[Errno 1] Operation not permitted".

#[global] Instance denied_os : OS World := {|
  subprocess_Popen := λ _ w, (Ok (MkPopen 1), w);
  time_time := λ w, (0%Z, w);
  os_getpgid := λ p w, (if strict w then Raise not_permitted else Ok p, w);
  os_killpg := λ _ _ w, (Raise not_permitted, w);
  Popen_wait := λ _ w, (0%Z, w)
|}.

(** A job is running. *)
Definition running (strict : bool) : State World :=
  exec (spawn_process ["yt-dlp"] false) (initial_state (MkWorld strict)).

End Denied.
(** ** The administration routes (lines 237-261) *)

(** What [subprocess.check_output(argv, stderr=STDOUT, text=True)] comes
    to: the output of the command, [CalledProcessError] with the output and
    the exit status, or another exception (the program is not there). *)
Inductive check_result :=
  | Output (out : string)
  | CalledProcessError (output : string) (returncode : Z)
  | CheckRaise (e : exn).

Class Admin (W : Type) := {
  check_output : list string → W → check_result * W;
  (** [os.makedirs(path, exist_ok=True)] *)
  os_makedirs : string → W → Result unit * W
}.

Section AdminRoutes.
Context {W : Type} `{Admin W} `{Interp}.

(** Lines 246-249 and 258-261. *)
Definition run_command (argv : list string) (w : W) : Result response * W :=
  match check_output argv w with
  | (Output out, w) => (Ok (jsonify [("ok", JBool true); ("out", JStr out)]), w)
  | (CalledProcessError output returncode, w) =>
      (Ok (MkResponse 500 [("ok", JBool false); ("out", JStr output);
                           ("code", JNum returncode)]), w)
  | (CheckRaise e, w) => (Raise e, w)
  end.

(** Lines 238-249. *)
Definition api_mount (body : pyval) (w : W) : Result response * W :=
  let data := PyVal.or body (PDict []) in
  match get_strip data "device" with
  | Raise e => (Raise e, w)
  | Ok dev =>
      match get_strip data "mountpoint" with
      | Raise e => (Raise e, w)
      | Ok mnt =>
          if negb (nonempty dev) || negb (nonempty mnt) then
            (Ok (MkResponse 400 [("error", JStr "device and mountpoint required")]), w)
          else
            match os_makedirs mnt w with
            | (Raise e, w) => (Raise e, w)
            | (Ok _, w) => run_command ["sudo"; "mount"; dev; mnt] w
            end
      end
  end.

(** Lines 252-261. *)
Definition api_umount (body : pyval) (w : W) : Result response * W :=
  let data := PyVal.or body (PDict []) in
  match get_strip data "target" with
  | Raise e => (Raise e, w)
  | Ok target =>
      if negb (nonempty target) then
        (Ok (MkResponse 400 [("error", JStr "target required")]), w)
      else run_command ["sudo"; "umount"; target] w
  end.

End AdminRoutes.

(** ** [api_list_destinations] (lines 221-235) *)

Definition DEFAULT_DOWNLOAD_DIRS : list string :=
  ["/media/pi"; "/media/usb"; "/mnt"; "/home/pi/Downloads"; "/srv/downloads"].

Module PyPath.

Definition sep : ascii := "/"%char.

(** [s.split(sep)], with [cur] the piece being read. *)
Fixpoint split_from (s cur : string) : list string :=
  match s with
  | EmptyString => [cur]
  | String c s' =>
      if bool_decide (c = sep) then cur :: split_from s' EmptyString
      else split_from s' (cur +:+ String c EmptyString)
  end.

Definition split (s : string) : list string := split_from s EmptyString.

(** [part.lstrip(sep)]. *)
Fixpoint lstrip_sep (part : string) : string :=
  match part with
  | String c rest => if bool_decide (c = sep) then lstrip_sep rest else part
  | EmptyString => EmptyString
  end.

(** [_PosixFlavour.splitroot]: the root and the rest. *)
Definition splitroot (part : string) : string * string :=
  match part with
  | String c _ =>
      if bool_decide (c = sep) then
        let stripped_part := lstrip_sep part in
        if String.length part - String.length stripped_part =? 2
        then ("//", stripped_part)
        else ("/", stripped_part)
      else (EmptyString, part)
  | EmptyString => (EmptyString, part)
  end.

(** A piece of the path that [parse_parts] keeps. *)
Definition kept (x : string) : bool := nonempty x && negb (bool_decide (x = ".")).

(** [pathlib.Path(s).parts]. *)
Definition parts (s : string) : list string :=
  let '(root, rel) := splitroot s in
  (if nonempty root then [root] else []) ++ List.filter kept (split rel).

(** The order of [str]: by code points, which is the order of the bytes
    of UTF-8, one after the other. *)
Definition le (a b : string) : Prop := String.leb a b = true.

#[global] Instance le_dec a b : Decision (le a b) := decide (String.leb a b = true).

(** [sorted(set(l))]: the elements of [l], each once, in increasing order. *)
Definition sorted_set (l : list string) : list string := merge_sort le (remove_dups l).

End PyPath.

(** The file system as the request sees it. *)
Class FileSystem := {
  os_path_isdir : string → bool;
  os_path_islink : string → bool;
  (** [os.scandir(top)]: the entries, each with its name and [is_dir()];
      nothing when the directory cannot be read. *)
  os_scandir : string → option (list (string * bool))
}.

Section Destinations.
Context `{FileSystem}.

(** [os.walk(top)], top down, without [onerror] or [followlinks].  [body]
    is what the caller's loop does at each [yield]: it gets [root], [dirs]
    and [files], and gives back [dirs] as it leaves the list, which is the
    one [os.walk] goes on with.  [fuel] bounds the depth. *)
Fixpoint walk {S : Type} (fuel : nat)
    (body : string → list string → list string → S → list string * S)
    (top : string) (st : S) : option S :=
  match fuel with
  | 0 => None
  | S fuel =>
      match os_scandir top with
      | None => Some st
      | Some entries =>
          let dirs := (List.filter (λ e, e.2) entries).*1 in
          let nondirs := (List.filter (λ e, negb e.2) entries).*1 in
          let '(dirs, st) := body top dirs nondirs st in
          foldl (λ acc dirname,
                   match acc with
                   | None => None
                   | Some st =>
                       let new_path := PyStr.path_join top dirname in
                       if os_path_islink new_path then Some st
                       else walk fuel body new_path st
                   end)
                (Some st) dirs
      end
  end.

(** Lines 227-232, the body of the loop over [os.walk(base)]. *)
Definition visit (base root : string) (dirs files found : list string)
    : list string * list string :=
  let depth := PyPath.parts root in
  if (Z.of_nat (length depth) - Z.of_nat (length (PyPath.parts base)) >? 1)%Z
  then ([], found)
  else (dirs, found ++ [root]).

(** Lines 223-232. *)
Definition find_destinations (fuel : nat) : option (list string) :=
  foldl (λ acc base,
           match acc with
           | None => None
           | Some found =>
               if os_path_isdir base then walk fuel (visit base) base found
               else Some found
           end)
        (Some []) DEFAULT_DOWNLOAD_DIRS.

(** Lines 222-235. *)
Definition api_list_destinations (fuel : nat) : option response :=
  found ← find_destinations fuel;
  Some (jsonify [("paths", JArr (PyPath.sorted_set found))]).

(** A name that a directory entry can have. *)
Definition entry_name (n : string) : bool :=
  PyPath.kept n && negb (bool_decide (PyPath.sep ∈ list_ascii_of_string n)).

(** The paths that the walk reports: a base directory that can be read,
    and each directory in it that is not a symbolic link and can be read. *)
Definition destination (p : string) : Prop :=
  ∃ base entries,
    base ∈ DEFAULT_DOWNLOAD_DIRS ∧ os_path_isdir base = true
    ∧ os_scandir base = Some entries
    ∧ (p = base
       ∨ ∃ n, (n, true) ∈ entries
              ∧ os_path_islink (PyStr.path_join base n) = false
              ∧ is_Some (os_scandir (PyStr.path_join base n))
              ∧ p = PyStr.path_join base n).

(** The directories of [entries], in [base], that the walk goes into and
    can read. *)
Definition children (base : string) (entries : list (string * bool)) : list string :=
  omap (λ e : string * bool,
          let new_path := PyStr.path_join base e.1 in
          if e.2 && negb (os_path_islink new_path)
                 && bool_decide (is_Some (os_scandir new_path))
          then Some new_path else None)
       entries.

(** What the walk of one base directory reports. *)
Definition reported (base : string) : list string :=
  if os_path_isdir base then
    match os_scandir base with
    | Some entries => base :: children base entries
    | None => []
    end
  else [].

(** Directory entries have names of files: not empty, not [.], without
    a slash. *)
Definition proper_names : Prop :=
  ∀ top entries, os_scandir top = Some entries →
    Forall (λ e : string * bool, entry_name e.1 = true) entries.

End Destinations.

(** A file system for the examples: [/mnt] with a mounted stick, a file,
    a symbolic link to a directory, and a directory that cannot be read;
    [/media/usb], which cannot be read; and an empty [/srv/downloads]. *)
Module Disk.

Definition listings : list (string * list (string * bool)) :=
  [("/mnt", [("usb", true); ("notes.txt", false); ("backup", true); ("locked", true)]);
   ("/mnt/usb", [("videos", true); ("a.mp4", false)]);
   ("/mnt/usb/videos", [("2024", true)]);
   ("/mnt/usb/videos/2024", [("deep", true)]);
   ("/mnt/backup", [("old", true)]);
   ("/srv/downloads", [])].

Fixpoint listing (top : string) (l : list (string * list (string * bool)))
    : option (list (string * bool)) :=
  match l with
  | [] => None
  | (k, entries) :: rest => if bool_decide (k = top) then Some entries else listing top rest
  end.

#[global] Instance disk : FileSystem := {|
  os_path_isdir := λ p, bool_decide (p ∈ ["/mnt"; "/media/usb"; "/srv/downloads"]);
  os_path_islink := λ p, bool_decide (p = "/mnt/backup");
  os_scandir := λ top, listing top listings
|}.

End Disk.

(** A system where [mount] is there and refuses. *)
Module Refusing.

Record World := MkWorld { made : list string; ran : list (list string) }.

#[global] Instance refusing : Admin World := {|
  check_output := λ argv w,
    (CalledProcessError "mount: only root can do that" 1, MkWorld (made w) (ran w ++ [argv]));
  os_makedirs := λ path w, (Ok tt, MkWorld (made w ++ [path]) (ran w))
|}.

End Refusing.

(** An absolute path with one slash at the front and none at the end. *)
Definition clean (top : string) : Prop :=
  (∃ c rest, top = String PyPath.sep (String c rest) ∧ c ≠ PyPath.sep)
  ∧ last_char top ≠ Some PyPath.sep.

(** ** The reader thread, statement by statement, among the other threads *)

(** Where the thread is in lines 143-150.  While the [finally] block runs,
    the exception of the read, if any, is pending. *)
Inductive reader_pc :=
  | AtRead (out : list string) (fin : stream_end)   (* line 144, with what is still to come *)
  | AtWait (exc : option exn)                       (* line 147, in [p.wait()] *)
  | AtReport (rc : Z) (exc : option exn)            (* line 148 *)
  | AtLock (rc : Z) (exc : option exn)              (* line 149, taking [proc_lock] *)
  | AtClear (rc : Z) (exc : option exn)             (* line 150, holding [proc_lock] *)
  | AtUnlock (rc : Z) (exc : option exn)            (* leaving the [with] block *)
  | Ended (r : Result unit).

(** The program with one reader thread: the shared state, the place of
    the reader, and whether [proc_lock] is held.  Every other [with
    proc_lock:] block runs as one step, so at a step boundary the lock is
    held by the reader or by no one. *)
Record Config (W : Type) := MkConfig {
  cfg_state : State W;
  cfg_pc : reader_pc;
  cfg_locked : bool
}.
Arguments MkConfig {W} _ _ _.
Arguments cfg_state {W} _.
Arguments cfg_pc {W} _.
Arguments cfg_locked {W} _.

(** How the thread ends once the [finally] block is through. *)
Definition reader_result (exc : option exn) : Result unit :=
  match exc with
  | None => Ok tt
  | Some e => Raise e
  end.

(** The exception that the end of the stream leaves pending. *)
Definition read_error (fin : stream_end) : option exn :=
  match fin with
  | EOF => None
  | ReadError e => Some e
  end.

Section ReaderThread.
Context {W : Type} `{OS W}.
Variable Form : Type.
Variable build_args_from_form : Form → Result (list string).
Variable shlex_split : string → Result (list string).

(** One step of the reader of process [p]; none when the thread has ended,
    or when it cannot take the lock.  The step at line 147 is the return
    of [p.wait()]. *)
Definition reader_step (p : Popen) (c : Config W) : option (Config W) :=
  let s := cfg_state c in
  match cfg_pc c with
  | AtRead (line :: out) fin =>
      Some (MkConfig (exec (broadcast (Py.rstrip_nl line)) s) (AtRead out fin) (cfg_locked c))
  | AtRead [] fin => Some (MkConfig s (AtWait (read_error fin)) (cfg_locked c))
  | AtWait exc =>
      let '(rc, w) := Popen_wait p (world s) in
      Some (MkConfig (set_world w s) (AtReport rc exc) (cfg_locked c))
  | AtReport rc exc =>
      Some (MkConfig (exec (broadcast (finished_line rc)) s) (AtLock rc exc) (cfg_locked c))
  | AtLock rc exc =>
      if cfg_locked c then None else Some (MkConfig s (AtClear rc exc) true)
  | AtClear rc exc =>
      Some (MkConfig (set_current_proc idle_slot s) (AtUnlock rc exc) (cfg_locked c))
  | AtUnlock rc exc => Some (MkConfig s (Ended (reader_result exc)) false)
  | Ended _ => None
  end.

(** The reader running alone for [n] steps. *)
Fixpoint reader_run (p : Popen) (n : nat) (c : Config W) : Config W :=
  match n with
  | 0 => c
  | S n =>
      match reader_step p c with
      | Some c' => reader_run p n c'
      | None => c
      end
  end.

(** The operations that run under [proc_lock] (lines 129, 183, 195). *)
Definition takes_proc_lock (a : action Form) : bool :=
  match a with
  | ActApiStart _ _ | ActApiRunRaw _ _ | ActApiStop _ | ActApiStatus _ => true
  | _ => false
  end.

(** The operations of the other threads: the requests and the event
    streams.  (While the job holds the slot there is no other reader.) *)
Definition other_thread (a : action Form) : bool :=
  match a with
  | ActReaderLine _ _ | ActReaderFinally _ _ => false
  | _ => true
  end.

(** One step of the program: a step of the reader, or an operation of
    another thread, which waits while it needs the lock and the reader
    holds it. *)
Inductive thread_step (p : Popen) : Config W → Config W → Prop :=
  | StepReader c c' :
      reader_step p c = Some c' → thread_step p c c'
  | StepOther a c :
      other_thread a = true →
      (takes_proc_lock a = true → cfg_locked c = false) →
      thread_step p c
        (MkConfig (step Form build_args_from_form shlex_split a (cfg_state c))
                  (cfg_pc c) (cfg_locked c)).

(** The configurations that the program reaches while the reader of [p]
    goes over the output [out], ending as [fin] says, from state [s]. *)
Definition reached (p : Popen) (out : list string) (fin : stream_end) (s : State W)
    (c : Config W) : Prop :=
  rtc (thread_step p) (MkConfig s (AtRead out fin) false) c.

(** What holds of every configuration reached: the lock is held exactly
    around line 150, the job is in the slot until then, and from line
    149 on the line with the exit code is the newest of the history. *)
Definition reader_inv (c : Config W) : Prop :=
  match cfg_pc c with
  | AtRead _ _ | AtWait _ | AtReport _ _ =>
      cfg_locked c = false ∧ is_Some (slot_p (current_proc (cfg_state c)))
  | AtLock rc _ =>
      cfg_locked c = false ∧ is_Some (slot_p (current_proc (cfg_state c)))
      ∧ last (history (cfg_state c)) = Some (finished_line rc)
  | AtClear rc _ =>
      cfg_locked c = true ∧ is_Some (slot_p (current_proc (cfg_state c)))
      ∧ last (history (cfg_state c)) = Some (finished_line rc)
  | AtUnlock rc _ =>
      cfg_locked c = true ∧ current_proc (cfg_state c) = idle_slot
      ∧ last (history (cfg_state c)) = Some (finished_line rc)
  | Ended _ => cfg_locked c = false
  end.

End ReaderThread.

(** A job that ends on the interrupt: its exit code is -2. *)
Module Interrupted.

Definition boot : State Sim.World :=
  initial_state (Sim.MkWorld [] ["yt-dlp"; "echo_stub"] 1700000000%Z 100 [] (-2)%Z).

Definition running : State Sim.World := exec (spawn_process Scenario.job false) boot.

End Interrupted.

(** * Proofs *)

(** ** [broadcast] *)

Section BroadcastFacts.
Context {W : Type}.
Implicit Types (s : State W) (q : qid) (line : string).

Lemma put_nowait_spec q line s :
  put_nowait q line s =
    if accepts (queues s !! q)
    then (Ok tt, set_queues (<[q := default (MkQueue 0 []) (deliver line (queues s !! q))]> (queues s)) s)
    else (Raise (match queues s !! q with
                 | Some _ => Exn QueueFull EmptyString
                 | None => Exn OtherException "no such queue"
                 end), s).
Proof.
  unfold put_nowait, accepts, deliver.
  destruct (queues s !! q) as [qu|]; [|done].
  by destruct (queue_full qu).
Qed.

(** The first loop of the fan-out: the queues that accept get the line,
    the others are collected in [dead]. *)
Lemma fanout_collect line (qs : list qid) :
  NoDup qs → ∀ dead s,
  ∃ dead' heap',
    for_in qs dead (λ q dead,
       try_except (do_ put_nowait q line; ret dead) (λ _, ret (dead ++ [q]))) s
      = (Ok dead', set_queues heap' s)
    ∧ (∀ q, q ∈ dead' ↔ q ∈ dead ∨ (q ∈ qs ∧ accepts (queues s !! q) = false))
    ∧ (∀ q, heap' !! q = if decide (q ∈ qs) then deliver line (queues s !! q)
                         else queues s !! q).
Proof.
  induction 1 as [|q qs Hq Hnd IH]; intros dead s.
  - exists dead, (queues s). split; [by destruct s|]. split.
    + intros q. split; [auto|]. intros [?|[Hin _]]; [done|]. by apply elem_of_nil in Hin.
    + intros q. rewrite decide_False; [done|]. apply not_elem_of_nil.
  - cbn [for_in]. unfold bind at 1, try_except at 1, bind at 1.
    rewrite put_nowait_spec.
    destruct (accepts (queues s !! q)) eqn:Hacc.
    + cbn [ret].
      set (s1 := set_queues _ s).
      destruct (IH dead s1) as (dead' & heap' & Hrun & Hdead & Hheap).
      exists dead', heap'. split; [by rewrite Hrun|]. split.
      * intros q'. rewrite Hdead. subst s1. cbn.
        destruct (decide (q' = q)) as [->|Hne].
        -- rewrite Hacc.
           split; [intros [?|[? ?]]; [by left|done] | intros [?|[_ ?]]; [by left|done]].
        -- rewrite lookup_insert_ne by done. rewrite elem_of_cons. naive_solver.
      * intros q'. rewrite Hheap. subst s1. cbn.
        destruct (decide (q' = q)) as [->|Hne].
        -- rewrite decide_False by done. rewrite decide_True by (apply elem_of_cons; by left).
           rewrite lookup_insert_eq. unfold accepts, deliver in *.
           destruct (queues s !! q) as [qu|]; [|done]. by destruct (queue_full qu).
        -- rewrite lookup_insert_ne by done.
           destruct (decide (q' ∈ qs)) as [Hin|Hnin].
           ++ by rewrite decide_True by (apply elem_of_cons; by right).
           ++ rewrite decide_False; [done|]. rewrite elem_of_cons. naive_solver.
    + cbn [ret].
      destruct (IH (dead ++ [q]) s) as (dead' & heap' & Hrun & Hdead & Hheap).
      exists dead', heap'. split; [done|]. split.
      * intros q'. rewrite Hdead, elem_of_app, list_elem_of_singleton, elem_of_cons.
        split.
        -- intros [[?| ->]|[? ?]]; [by left|by right; split; [left|]|by right; split; [right|]].
        -- intros [?|[[->|?] ?]]; [by left; left|by left; right|by right].
      * intros q'. rewrite Hheap.
        destruct (decide (q' = q)) as [->|Hne].
        -- rewrite decide_False by done. rewrite decide_True by (apply elem_of_cons; by left).
           unfold accepts, deliver in *.
           destruct (queues s !! q) as [qu|]; [|done]. by destruct (queue_full qu).
        -- destruct (decide (q' ∈ qs)) as [Hin|Hnin].
           ++ by rewrite decide_True by (apply elem_of_cons; by right).
           ++ rewrite decide_False; [done|]. rewrite elem_of_cons. naive_solver.
Qed.

(** The second loop: every dead queue leaves the registry. *)
Lemma fanout_discard (dead : list qid) s :
  for_in dead tt (λ q _, modify (λ s, set_subscribers (subscribers s ∖ {[q]}) s)) s
    = (Ok tt, set_subscribers (subscribers s ∖ list_to_set dead) s).
Proof.
  revert s. induction dead as [|q dead IH]; intros s.
  - cbn. unfold ret, set_subscribers. destruct s; cbn. do 2 f_equal. set_solver.
  - cbn [for_in]. unfold bind at 1, modify at 1. rewrite IH.
    unfold set_subscribers. destruct s; cbn. do 2 f_equal. set_solver.
Qed.

(** [broadcast] returns normally, whatever the queues do, and leaves
    the state that [broadcast_post] describes. *)
Lemma broadcast_spec line s :
  ∃ s', broadcast line s = (Ok tt, s') ∧ broadcast_post line s s'.
Proof.
  unfold broadcast, broadcast_fanout, broadcast_history.
  unfold bind at 1, modify at 1. unfold bind at 1, gets at 1.
  set (s1 := set_history _ s). unfold bind at 1.
  destruct (fanout_collect (Py.rstrip_nl line) (elements (subscribers s1))
              (NoDup_elements _) [] s1) as (dead & heap' & Hrun & Hdead & Hheap).
  rewrite Hrun, fanout_discard.
  eexists. split; [done|].
  split; cbn; try done.
  - intros q. rewrite elem_of_difference, elem_of_list_to_set, Hdead.
    rewrite elem_of_elements. cbn.
    destruct (accepts (queues s !! q)); split; try naive_solver.
    intros [? _]. split; [done|]. intros [Hnil|[_ ?]]; [|done].
    by apply elem_of_nil in Hnil.
  - intros q. rewrite Hheap. cbn.
    destruct (decide (q ∈ subscribers s)).
    + by rewrite decide_True by (by apply elem_of_elements).
    + by rewrite decide_False by (by rewrite elem_of_elements).
Qed.

Lemma broadcast_exec line s : broadcast line s = (Ok tt, exec (broadcast line) s).
Proof. unfold exec. destruct (broadcast_spec line s) as (s' & -> & _). done. Qed.

Lemma broadcast_exec_post line s : broadcast_post line s (exec (broadcast line) s).
Proof. unfold exec. destruct (broadcast_spec line s) as (s' & -> & ?). done. Qed.

End BroadcastFacts.

(** ** Strings *)

Section StringFacts.
Local Arguments String.append !_ _ / : simpl nomatch.

Lemma last_char_None s : last_char s = None → s = EmptyString.
Proof. destruct s as [|c s]; [done|]. cbn. by destruct (last_char s). Qed.

Lemma last_char_app a b :
  last_char (a +:+ b) = match last_char b with Some c => Some c | None => last_char a end.
Proof.
  induction a as [|c a IH]; cbn.
  - by destruct (last_char b).
  - rewrite IH. by destruct (last_char b), (last_char a).
Qed.

Lemma ends_clean_app a b : ends_clean b → ends_clean (a +:+ b).
Proof. intros (c & Hc & ?). exists c. by rewrite last_char_app, Hc. Qed.

Lemma rstrip_nl_clean s : ends_clean s → Py.rstrip_nl s = s.
Proof.
  induction s as [|c s IH]; intros (d & Hd & Hne); [done|].
  cbn in Hd |- *. destruct (last_char s) as [e|] eqn:He.
  - rewrite IH by (exists e; naive_solver).
    destruct s; [done|done].
  - apply last_char_None in He as ->. cbn.
    unfold Py.is_newline. rewrite bool_decide_eq_false_2; [done|congruence].
Qed.

Lemma rstrip_nl_idemp s : Py.rstrip_nl (Py.rstrip_nl s) = Py.rstrip_nl s.
Proof.
  induction s as [|c s IH]; [done|]. cbn.
  destruct (Py.rstrip_nl s) as [|d r] eqn:Hr.
  - destruct (Py.is_newline c) eqn:Hc; [done|]. cbn. by rewrite Hc.
  - cbn in IH |- *. destruct (Py.rstrip_nl r) as [|e r'] eqn:Hr'.
    + destruct (Py.is_newline d); [done|]. by inversion IH.
    + by inversion IH.
Qed.

Lemma safe_char_not_newline c : Shlex.safe_char c = true → c ≠ Py.newline.
Proof. intros Hs ->. by vm_compute in Hs. Qed.

Lemma all_safe_ends_clean s :
  s ≠ EmptyString → Shlex.all_safe s = true → ends_clean s.
Proof.
  induction s as [|c s IH]; [done|]. intros _. cbn.
  intros [Hc Hs]%andb_true_iff. unfold ends_clean. cbn.
  destruct s as [|d s].
  - exists c. split; [done|]. by apply safe_char_not_newline.
  - destruct IH as (e & He & ?); [done|done|]. exists e. by rewrite He.
Qed.

Lemma quote_ends_clean s : ends_clean (Shlex.quote s).
Proof.
  unfold Shlex.quote. destruct s as [|c s].
  - by exists Shlex.squote.
  - destruct (Shlex.all_safe (String c s)) eqn:Hs.
    + by apply all_safe_ends_clean.
    + apply (ends_clean_app (String _ _)). by exists Shlex.squote.
Qed.

Lemma join_ends_clean sep xs :
  xs ≠ [] → Forall ends_clean xs → ends_clean (Py.join sep xs).
Proof.
  induction xs as [|x xs IH]; [done|]. intros _ Hall.
  apply Forall_cons in Hall as [Hx Hxs].
  destruct xs as [|y xs]; [done|].
  change (Py.join sep (x :: y :: xs)) with (x +:+ sep +:+ Py.join sep (y :: xs)).
  do 2 apply ends_clean_app. by apply IH.
Qed.

Lemma starting_line_clean args : ends_clean (starting_line args).
Proof.
  unfold starting_line. destruct args as [|a args].
  - by exists " "%char.
  - apply ends_clean_app, join_ends_clean; [done|].
    apply Forall_forall. intros x (a' & -> & _)%list_elem_of_fmap.
    apply quote_ends_clean.
Qed.

Lemma pretty_N_char_digit x : pretty_N_char x ≠ Py.newline.
Proof. unfold pretty_N_char. by repeat case_match. Qed.

Lemma pretty_N_go_ends_clean x s : ends_clean s → ends_clean (pretty_N_go x s).
Proof.
  revert s. induction (N.lt_wf_0 x) as [x _ IH]; intros s Hs.
  assert (x = 0 ∨ 0 < x)%N as [->|?] by lia.
  - by rewrite pretty_N_go_0.
  - rewrite pretty_N_go_step by done. apply IH; [by apply N.div_lt|].
    destruct Hs as (c & Hc & ?). exists c. cbn. by rewrite Hc.
Qed.

Lemma pretty_N_ends_clean (x : N) : ends_clean (pretty x).
Proof.
  unfold pretty, pretty_N. case_decide; [by exists "0"%char|].
  rewrite pretty_N_go_step by lia. apply pretty_N_go_ends_clean.
  eexists. split; [done|]. apply pretty_N_char_digit.
Qed.

Lemma finished_line_clean rc : ends_clean (finished_line rc).
Proof.
  unfold finished_line, Py.str_int, pretty, pretty_Z.
  apply ends_clean_app. destruct rc as [|p|p].
  - by exists "0"%char.
  - apply (pretty_N_ends_clean (N.pos p)).
  - apply ends_clean_app, (pretty_N_ends_clean (N.pos p)).
Qed.

End StringFacts.

(** ** [shlex.quote] and the shell *)

Section ShellFacts.
Local Arguments String.append !_ _ / : simpl nomatch.
Implicit Types (s rest w : string) (c : ascii) (acc : list string).

Lemma snoc_app w c s : Sh.snoc w c +:+ s = w +:+ String c s.
Proof. unfold Sh.snoc. induction w as [|d w IH]; cbn; [done|]. by rewrite IH. Qed.

Lemma app_empty_r w : w +:+ EmptyString = w.
Proof. induction w as [|d w IH]; cbn; [done|]. by rewrite IH. Qed.

Lemma safe_char_plain c :
  Shlex.safe_char c = true →
  c ≠ " "%char ∧ c ≠ Shlex.squote ∧ c ≠ Shlex.dquote.
Proof. intros Hs. repeat split; intros ->; by vm_compute in Hs. Qed.

(** A run of safe characters outside quotes is added to the word as it is. *)
Lemma read_safe s : ∀ rest w acc,
  Shlex.all_safe s = true →
  Sh.read (s +:+ rest) Sh.Bare (Some w) acc = Sh.read rest Sh.Bare (Some (w +:+ s)) acc.
Proof.
  induction s as [|c s IH]; intros rest w acc Hs.
  - cbn. by rewrite app_empty_r.
  - cbn in Hs. apply andb_true_iff in Hs as [Hc Hs].
    destruct (safe_char_plain c Hc) as (Hsp & Hsq & Hdq).
    cbn [String.append Sh.read].
    rewrite !bool_decide_eq_false_2, Hc by done.
    rewrite IH by done. cbn [Sh.begun]. by rewrite snoc_app.
Qed.

(** Between single quotes, the escaped text followed by the closing quote
    adds the original text to the word. *)
Lemma read_escaped s : ∀ rest w acc,
  Sh.read (Shlex.escape_squotes s +:+ String Shlex.squote rest) Sh.Single (Some w) acc
  = Sh.read rest Sh.Bare (Some (w +:+ s)) acc.
Proof.
  induction s as [|c s IH]; intros rest w acc.
  - cbn. by rewrite app_empty_r.
  - cbn [Shlex.escape_squotes]. case_bool_decide as Hc.
    + subst c. unfold Shlex.squote_escape. cbn [String.append Sh.read].
      cbn [Sh.begun].
      change (bool_decide (Shlex.squote = Shlex.squote)) with true.
      change (bool_decide (Shlex.dquote = " "%char)) with false.
      change (bool_decide (Shlex.dquote = Shlex.squote)) with false.
      change (bool_decide (Shlex.dquote = Shlex.dquote)) with true.
      change (bool_decide (Shlex.squote = Shlex.dquote)) with false.
      change (Sh.special_in_double Shlex.squote) with false.
      cbn match. cbn [Sh.begun].
      change (bool_decide (Shlex.squote = " "%char)) with false. cbn match.
      rewrite IH. by rewrite snoc_app.
    + cbn [String.append Sh.read]. rewrite bool_decide_eq_false_2 by done.
      rewrite IH. cbn [Sh.begun]. by rewrite snoc_app.
Qed.

(** One quoted argument is read back as one word, the argument. *)
Lemma read_quote s rest acc :
  Sh.read (Shlex.quote s +:+ rest) Sh.Bare None acc = Sh.read rest Sh.Bare (Some s) acc.
Proof.
  unfold Shlex.quote. destruct s as [|c s]; [done|].
  destruct (Shlex.all_safe (String c s)) eqn:Hs.
  - cbn in Hs. apply andb_true_iff in Hs as [Hc Hs].
    destruct (safe_char_plain c Hc) as (Hsp & Hsq & Hdq).
    cbn [String.append Sh.read].
    rewrite !bool_decide_eq_false_2, Hc by done.
    cbn [Sh.begun]. rewrite read_safe by done. done.
  - cbn [String.append Sh.read].
    change (bool_decide (Shlex.squote = " "%char)) with false.
    change (bool_decide (Shlex.squote = Shlex.squote)) with true. cbn match.
    cbn [Sh.begun].
    assert (∀ a b, (a +:+ String Shlex.squote EmptyString) +:+ b
                   = a +:+ String Shlex.squote b) as Happ.
    { intros a b. induction a as [|d a IH]; cbn; [done|]. by rewrite IH. }
    rewrite Happ, read_escaped. done.
Qed.

(** The shell reads the joined, quoted arguments back as the arguments. *)
Lemma read_join_quote args : ∀ acc,
  Sh.read (Py.join " " (map Shlex.quote args)) Sh.Bare None acc = Some (acc ++ args).
Proof.
  induction args as [|a args IH]; intros acc.
  - cbn. by rewrite app_nil_r.
  - destruct args as [|b args].
    + cbn [map Py.join]. rewrite <- (app_empty_r (Shlex.quote a)), read_quote. done.
    + change (Py.join " " (map Shlex.quote (a :: b :: args)))
        with (Shlex.quote a +:+ " " +:+ Py.join " " (map Shlex.quote (b :: args))).
      rewrite read_quote. cbn [String.append Sh.read].
      change (bool_decide (" "%char = " "%char)) with true. cbn match.
      rewrite IH. cbn [Sh.flush]. by rewrite <- app_assoc.
Qed.

Lemma words_join_quote args :
  Sh.words (Py.join " " (map Shlex.quote args)) = Some args.
Proof. apply read_join_quote. Qed.

End ShellFacts.

(** ** The history ring *)

Section HistoryFacts.
Context {A : Type}.
Implicit Types (l h : list A) (n : nat).

Lemma slice_last_short n l : length l ≤ n → Py.slice_last n l = l.
Proof.
  intros Hl. unfold Py.slice_last. destruct n as [|n]; [done|].
  replace (length l - S n) with 0 by lia. done.
Qed.

Lemma slice_last_length n l : 0 < n → length (Py.slice_last n l) = length l `min` n.
Proof.
  intros Hn. unfold Py.slice_last. destruct n as [|n]; [lia|].
  rewrite length_drop. lia.
Qed.

Lemma slice_last_app n h l :
  0 < n → Py.slice_last n (Py.slice_last n h ++ l) = Py.slice_last n (h ++ l).
Proof.
  intros Hn. unfold Py.slice_last. destruct n as [|n]; [lia|].
  rewrite length_app, length_drop.
  destruct (decide (length h ≤ S n)) as [Hle|Hgt].
  - replace (length h - S n) with 0 by lia. cbn [drop].
    by rewrite length_app, Nat.sub_0_r.
  - rewrite length_app.
    replace (length h + length l - S n)
      with ((length h - S n) + (length h - (length h - S n) + length l - S n)) by lia.
    rewrite <- drop_drop. f_equal. rewrite drop_app_le by lia. done.
Qed.

Lemma slice_last_slice_last n m l :
  0 < n → n ≤ m → Py.slice_last n (Py.slice_last m l) = Py.slice_last n l.
Proof.
  intros Hn Hm. unfold Py.slice_last at 1 3. destruct n as [|n]; [lia|].
  rewrite slice_last_length by lia.
  unfold Py.slice_last. destruct m as [|m]; [lia|].
  rewrite drop_drop. f_equal. lia.
Qed.

End HistoryFacts.

Section AppendedFacts.
Implicit Types (h : list string) (x : string).

(** Lines 29-31 amount to keeping the last [LOG_HISTORY_MAX] entries. *)
Lemma appended_slice h x : appended h x = Py.slice_last LOG_HISTORY_MAX (h ++ [x]).
Proof.
  unfold appended. destruct (LOG_HISTORY_MAX <? length (h ++ [x])) eqn:Hlt; [done|].
  apply Nat.ltb_ge in Hlt. by rewrite slice_last_short.
Qed.

Lemma appended_length h x : length (appended h x) ≤ LOG_HISTORY_MAX.
Proof.
  rewrite appended_slice, slice_last_length by (unfold LOG_HISTORY_MAX; lia). lia.
Qed.

Lemma appended_last h x : last (appended h x) = Some x.
Proof.
  rewrite appended_slice. unfold Py.slice_last, LOG_HISTORY_MAX.
  rewrite length_app. cbn [length].
  rewrite drop_app_le by lia. apply last_snoc.
Qed.

(** Appending the lines [ls] one by one. *)
Lemma appended_all h ls :
  ls ≠ [] → foldl appended h ls = Py.slice_last LOG_HISTORY_MAX (h ++ ls).
Proof.
  revert h. induction ls as [|x ls IH]; [done|]. intros h _. cbn [foldl].
  destruct ls as [|y ls].
  - apply appended_slice.
  - rewrite IH by done. rewrite appended_slice.
    rewrite slice_last_app by (unfold LOG_HISTORY_MAX; lia).
    by rewrite <- app_assoc.
Qed.

End AppendedFacts.

(** ** The job slot: start and stop *)

Section Supervisor.
Context {W : Type} `{OS W}.
Implicit Types (s : State W) (p : Popen) (args : list string).

Lemma spawn_process_busy args raw s p :
  slot_p (current_proc s) = Some p →
  spawn_process args raw s = (Raise already_running, s).
Proof.
  intros Hp. unfold spawn_process, bind, gets. by rewrite Hp.
Qed.

(** C1. A start request made while the slot holds a process raises
    [RuntimeError("Another task is running")] and leaves the whole state
    as it was: the world (no process is spawned), the history and every
    queue (no starting line is broadcast) and the slot (handle, start
    timestamp, argv and raw flag). *)
Theorem spawn_process_while_running args raw s p :
  slot_p (current_proc s) = Some p →
  spawn_process args raw s = (Raise already_running, s).
Proof.
  intros Hp. unfold spawn_process, bind, gets. by rewrite Hp.
Qed.

(** C4. A stop request made while the slot is empty answers
    [{"status": "idle"}] and leaves the whole state as it was: the world
    (no signal is sent, nothing is spawned), the slot, the history, the
    registry and the queues. *)
Theorem api_stop_idle s :
  slot_p (current_proc s) = None →
  api_stop s = (Ok idle, s).
Proof.
  intros Hp. unfold api_stop, bind, gets. by rewrite Hp.
Qed.

(** C5, amended.  A stop request made while the slot holds process [p]
    asks the system for the process group of [p.pid] and sends that group
    one [SIGINT]; it calls nothing else (it does not wait for the
    process).  It answers [{"status": "stopping"}] when both calls return,
    and also when the group is gone, at the signal or already at the
    lookup: [ProcessLookupError] is swallowed.  Any other exception of the
    two calls is not caught: it leaves the view, after the calls made. *)
Theorem api_stop_running s p :
  slot_p (current_proc s) = Some p →
  (∀ g w1 rk w2,
     os_getpgid (pid p) (world s) = (Ok g, w1) →
     os_killpg g SIGINT w1 = (rk, w2) →
     rk = Ok tt ∨ (∃ msg, rk = Raise (Exn ProcessLookupError msg)) →
     api_stop s = (Ok stopping, set_world w2 s))
  ∧ (∀ msg w1,
     os_getpgid (pid p) (world s) = (Raise (Exn ProcessLookupError msg), w1) →
     api_stop s = (Ok stopping, set_world w1 s))
  ∧ (∀ g w1 e w2,
     os_getpgid (pid p) (world s) = (Ok g, w1) →
     os_killpg g SIGINT w1 = (Raise e, w2) →
     exn_cls e ≠ ProcessLookupError →
     api_stop s = (Raise e, set_world w2 s))
  ∧ (∀ e w1,
     os_getpgid (pid p) (world s) = (Raise e, w1) →
     exn_cls e ≠ ProcessLookupError →
     api_stop s = (Raise e, set_world w1 s)).
Proof.
  intros Hp. split; [|split; [|split]].
  - intros g w1 rk w2 Hg Hk Hrk.
    unfold api_stop, bind at 1, gets. rewrite Hp.
    unfold bind at 1, try_except_class, bind, sys_result. rewrite Hg. cbn. rewrite Hk.
    destruct Hrk as [->|[msg ->]]; by destruct s.
  - intros msg w1 Hg.
    unfold api_stop, bind at 1, gets. rewrite Hp.
    unfold bind at 1, try_except_class, bind, sys_result. rewrite Hg. by destruct s.
  - intros g w1 e w2 Hg Hk He.
    unfold api_stop, bind at 1, gets. rewrite Hp.
    unfold bind at 1, try_except_class, bind, sys_result. rewrite Hg. cbn. rewrite Hk.
    rewrite decide_False by done. by destruct s.
  - intros e w1 Hg He.
    unfold api_stop, bind at 1, gets. rewrite Hp.
    unfold bind at 1, try_except_class, bind, sys_result. rewrite Hg.
    rewrite decide_False by done. by destruct s.
Qed.



End Supervisor.

(** C5 as stated fails: where the caller may not signal the job, a stop
    request made while the job is active does not answer "stopping"; the
    [PermissionError] of [os.killpg] leaves the view. *)
Lemma api_stop_not_permitted :
  is_Some (slot_p (current_proc (Denied.running false)))
  ∧ api_stop (Denied.running false) = (Raise Denied.not_permitted, Denied.running false)
  ∧ ∀ r, outcome api_stop (Denied.running false) ≠ Ok r.
Proof.
  split; [by exists (MkPopen 1)|]. split; [reflexivity|]. intros r. discriminate.
Qed.

(** ** The history and the fan-out *)

Section Broadcaster.
Context {W : Type}.
Implicit Types (s : State W) (q : qid) (line : string) (ls : list string).

Lemma broadcast_all_nil s : broadcast_all [] s = (Ok tt, s).
Proof. done. Qed.

Lemma broadcast_all_cons line ls s :
  broadcast_all (line :: ls) s = broadcast_all ls (exec (broadcast line) s).
Proof.
  unfold broadcast_all. cbn [for_in]. unfold bind at 1. by rewrite broadcast_exec.
Qed.

Lemma broadcast_all_exec ls s : broadcast_all ls s = (Ok tt, exec (broadcast_all ls) s).
Proof.
  revert s. induction ls as [|line ls IH]; intros s; [done|].
  unfold exec at 1. rewrite broadcast_all_cons. apply IH.
Qed.

(** What a run of appends leaves outside the queues. *)
Lemma broadcast_all_frame ls s :
  let s' := exec (broadcast_all ls) s in
  history s' = foldl appended (history s) (map Py.rstrip_nl ls)
  ∧ current_proc s' = current_proc s
  ∧ threads s' = threads s
  ∧ world s' = world s.
Proof.
  revert s. induction ls as [|line ls IH]; intros s; [done|].
  cbn zeta. unfold exec. rewrite broadcast_all_cons.
  destruct (IH (exec (broadcast line) s)) as (Hh & Hc & Ht & Hw).
  destruct (broadcast_exec_post line s) as [Hh' _ _ Hc' Ht' Hw'].
  fold (exec (broadcast_all ls) (exec (broadcast line) s)).
  rewrite Hh, Hc, Ht, Hw, Hh', Hc', Ht', Hw'. done.
Qed.

Lemma history_from_empty s ls :
  history s = [] →
  history (exec (broadcast_all ls) s) = Py.slice_last 2000 (map Py.rstrip_nl ls).
Proof.
  intros Hnil. destruct (broadcast_all_frame ls s) as (-> & _).
  rewrite Hnil. destruct ls as [|l ls]; [done|].
  by rewrite appended_all.
Qed.

(** C2. After any call of [broadcast] the history holds at most 2000
    entries.  After 2000 + k calls in a row, from any state, it holds
    exactly the last 2000 of the lines passed, oldest first, each as
    [rstrip] left it: the first k are gone.  Lines that [rstrip] does not
    change are stored as they are.  From an empty history, any number of
    calls leaves the last 2000 lines (all of them when there are fewer). *)
Theorem history_keeps_last_2000 :
  (∀ s line, length (history (exec (broadcast line) s)) ≤ 2000)
  ∧ (∀ s ls k, length ls = 2000 + k →
       history (exec (broadcast_all ls) s) = drop k (map Py.rstrip_nl ls)
       ∧ length (history (exec (broadcast_all ls) s)) = 2000)
  ∧ (∀ s ls k, length ls = 2000 + k → map Py.rstrip_nl ls = ls →
       history (exec (broadcast_all ls) s) = drop k ls)
  ∧ (∀ s ls, history s = [] →
       history (exec (broadcast_all ls) s) = Py.slice_last 2000 (map Py.rstrip_nl ls)).
Proof.
  assert (∀ s ls k, length ls = 2000 + k →
            history (exec (broadcast_all ls) s) = drop k (map Py.rstrip_nl ls)) as Hdrop.
  { intros s ls k Hlen.
    destruct (broadcast_all_frame ls s) as (-> & _).
    rewrite appended_all by (destruct ls; [cbn in Hlen; lia|done]).
    unfold Py.slice_last, LOG_HISTORY_MAX.
    rewrite length_app, length_map, Hlen.
    replace (length (history s) + (2000 + k) - 2000) with (length (history s) + k) by lia.
    apply drop_app_add. }
  split; [|split; [|split]].
  - intros s line. destruct (broadcast_exec_post line s) as [-> _ _ _ _ _].
    apply appended_length.
  - intros s ls k Hlen. split; [by apply Hdrop|].
    rewrite (Hdrop s ls k Hlen), length_drop, length_map. lia.
  - intros s ls k Hlen Hclean. by rewrite (Hdrop s ls k Hlen), Hclean.
  - intros s ls Hnil. by apply history_from_empty.
Qed.

Lemma pending_deliver line s s' q :
  queues s' !! q = deliver line (queues s !! q) →
  accepts (queues s !! q) = true →
  pending q s' = pending q s ++ [line].
Proof.
  unfold pending, accepts, deliver. intros ->.
  destruct (queues s !! q) as [qu|]; [|done].
  by destruct (queue_full qu).
Qed.

Lemma deliver_refused line (o : option Queue) : accepts o = false → deliver line o = o.
Proof. destruct o as [qu|]; [|done]. cbn. by destruct (queue_full qu). Qed.

Lemma put_nowait_outcome q line s :
  outcome (put_nowait q line) s = Ok tt ↔ accepts (queues s !! q) = true.
Proof.
  unfold outcome. rewrite put_nowait_spec.
  destruct (accepts (queues s !! q)); cbn; split; congruence.
Qed.

(** C6. [broadcast] always returns normally; no operation in it waits
    ([put_nowait] raises at once on a full queue).  The line, stripped, is
    the newest entry of the history.  A registered queue whose
    [put_nowait] raises, as it does when the queue is full, is out of the
    registry afterwards and keeps its content; every other registered
    queue stays registered and has the line added at its end; an
    unregistered queue is untouched. *)
Theorem broadcast_drops_failing_subscribers s line :
  let l := Py.rstrip_nl line in
  let s' := exec (broadcast line) s in
  broadcast line s = (Ok tt, s')
  ∧ history s' = appended (history s) l
  ∧ last (history s') = Some l
  ∧ (∀ q qu, queues s !! q = Some qu → queue_full qu = true →
       ∃ e, outcome (put_nowait q l) s = Raise e)
  ∧ (∀ q e, q ∈ subscribers s → outcome (put_nowait q l) s = Raise e →
       q ∉ subscribers s' ∧ queues s' !! q = queues s !! q)
  ∧ (∀ q, q ∈ subscribers s → outcome (put_nowait q l) s = Ok tt →
       q ∈ subscribers s' ∧ pending q s' = pending q s ++ [l])
  ∧ (∀ q, q ∉ subscribers s →
       q ∉ subscribers s' ∧ queues s' !! q = queues s !! q).
Proof.
  intros l s'. subst l s'.
  destruct (broadcast_exec_post line s) as [Hh Hsub Hq _ _ _].
  split; [apply broadcast_exec|]. split; [done|].
  split; [rewrite Hh; apply appended_last|].
  split; [|split; [|split]].
  - intros q qu Hqu Hfull. unfold outcome, put_nowait. rewrite Hqu, Hfull. by eexists.
  - intros q e Hin Hraise.
    assert (accepts (queues s !! q) = false) as Hacc.
    { destruct (accepts (queues s !! q)) eqn:Hacc; [|done].
      apply put_nowait_outcome with (line := Py.rstrip_nl line) in Hacc. congruence. }
    split.
    + rewrite Hsub. intros [_ ?]. congruence.
    + rewrite Hq, decide_True by done. by apply deliver_refused.
  - intros q Hin Hok%put_nowait_outcome. split.
    + by apply Hsub.
    + apply pending_deliver; [|done]. by rewrite Hq, decide_True.
  - intros q Hnin. split.
    + rewrite Hsub. by intros [? _].
    + by rewrite Hq, decide_False.
Qed.

End Broadcaster.

(** ** Subscriptions *)

Section Subscriptions.
Context {W : Type}.
Implicit Types (s : State W) (q : qid) (line : string) (ls its : list string).

Lemma queue_has_room n its : length its < n → queue_full (MkQueue n its) = false.
Proof.
  intros Hlt. unfold queue_full. cbn [maxsize items].
  apply andb_false_iff. right. apply Nat.leb_gt. lia.
Qed.

Lemma seed_loop_spec q ls : ∀ s n its,
  queues s !! q = Some (MkQueue n its) →
  length its + length ls ≤ n →
  seed_loop q ls s = (Ok tt, set_queues (<[q := MkQueue n (its ++ ls)]> (queues s)) s).
Proof.
  induction ls as [|l ls IH]; intros s n its Hq Hlen.
  - cbn. rewrite app_nil_r, insert_id by done. by destruct s.
  - cbn [seed_loop]. unfold put_nowait. rewrite Hq.
    cbn [length] in Hlen.
    rewrite queue_has_room by lia.
    cbn [maxsize items].
    rewrite (IH _ n (its ++ [l])).
    + cbn. by rewrite insert_insert_eq, <- app_assoc.
    + cbn. by rewrite lookup_insert_eq.
    + rewrite length_app. cbn. lia.
Qed.

(** Lines 42-49: a new queue object holding the newest 500 history lines. *)
Lemma sse_seed_spec s :
  let q := fresh (dom (queues s)) in
  q ∉ dom (queues s)
  ∧ sse_seed s
    = (Ok q, set_queues (<[q := MkQueue 1000 (Py.slice_last 500 (history s))]> (queues s)) s).
Proof.
  intros q. split; [apply is_fresh|].
  unfold sse_seed, bind at 1, Queue_new. fold q.
  unfold bind at 1, gets. cbn [history set_queues].
  unfold bind at 1.
  rewrite (seed_loop_spec q _ _ 1000 []).
  - cbn. by rewrite insert_insert_eq.
  - cbn. by rewrite lookup_insert_eq.
  - rewrite slice_last_length by lia. cbn. lia.
Qed.

Lemma sse_attach_spec s :
  let q := fresh (dom (queues s)) in
  q ∉ dom (queues s)
  ∧ sse_attach s
    = (Ok q, set_subscribers ({[q]} ∪ subscribers s)
               (set_queues (<[q := MkQueue 1000 (Py.slice_last 500 (history s))]> (queues s)) s)).
Proof.
  intros q. destruct (sse_seed_spec s) as [Hfresh Hseed]. split; [done|].
  unfold sse_attach, bind at 1. rewrite Hseed. done.
Qed.

(** A turn of the generator touches its own queue only. *)
Lemma sse_next_spec q s :
  match queues s !! q with
  | Some (MkQueue n (x :: rest)) =>
      sse_next q s = Some (sse_event x, set_queues (<[q := MkQueue n rest]> (queues s)) s)
  | _ => sse_next q s = None
  end.
Proof.
  unfold sse_next, Queue_get. destruct (queues s !! q) as [[n [|x rest]]|]; done.
Qed.

(** Once out of the registry, a queue gets nothing more. *)
Lemma run_unregistered q evs : ∀ s n its,
  queues s !! q = Some (MkQueue n its) →
  q ∉ subscribers s →
  stream q (run_subscriber q evs s) = map sse_event its
  ∧ q ∉ subscribers (run_subscriber q evs s).2.
Proof.
  induction evs as [|[line|] evs IH]; intros s n its Hq Hnin.
  - unfold stream, pending. cbn. by rewrite Hq.
  - cbn [run_subscriber].
    destruct (broadcast_exec_post line s) as [_ Hsub Hqs _ _ _].
    apply (IH _ n its).
    + by rewrite Hqs, decide_False.
    + rewrite Hsub. by intros [? _].
  - cbn [run_subscriber]. pose proof (sse_next_spec q s) as Hnext. rewrite Hq in Hnext.
    destruct its as [|x rest].
    + rewrite Hnext. by apply (IH _ n []).
    + rewrite Hnext.
      destruct (IH (set_queues (<[q := MkQueue n rest]> (queues s)) s) n rest) as [Hst Hnin'].
      { cbn. by rewrite lookup_insert_eq. }
      { done. }
      destruct (run_subscriber q evs _) as [ys s2]. unfold stream in *. cbn in *.
      by rewrite Hst.
Qed.

(** What a subscriber has been given is always an initial part of the
    seed followed by the lines appended since, and all of it while the
    subscriber is registered. *)
Lemma run_registered q evs : ∀ s n its,
  queues s !! q = Some (MkQueue n its) →
  let r := run_subscriber q evs s in
  let all := map sse_event (its ++ map Py.rstrip_nl (appended_lines evs)) in
  stream q r `prefix_of` all
  ∧ (q ∈ subscribers r.2 → stream q r = all).
Proof.
  induction evs as [|[line|] evs IH]; intros s n its Hq.
  - cbn. unfold stream, pending. cbn. rewrite Hq, app_nil_r. done.
  - cbn [run_subscriber appended_lines omap]. cbn zeta.
    change (omap _ evs) with (appended_lines evs). cbn [map].
    destruct (broadcast_exec_post line s) as [_ Hsub Hqs _ _ _].
    destruct (decide (q ∈ subscribers s ∧ accepts (queues s !! q) = true)) as [[Hin Hacc]|Hno].
    + specialize (IH (exec (broadcast line) s) n (its ++ [Py.rstrip_nl line])).
      rewrite <- app_assoc in IH. cbn [app] in IH. apply IH.
      rewrite Hqs, decide_True, Hq by done. rewrite Hq in Hacc. cbn in *.
      by destruct (queue_full _).
    + destruct (run_unregistered q evs (exec (broadcast line) s) n its) as [Hst Hnin].
      { rewrite Hqs. destruct (decide (q ∈ subscribers s)); [|done].
        rewrite deliver_refused; [done|]. destruct (accepts _); [|done]. naive_solver. }
      { rewrite Hsub. naive_solver. }
      split; [|done]. rewrite Hst, map_app. by apply prefix_app_r.
  - cbn [run_subscriber appended_lines omap]. cbn zeta.
    change (omap _ evs) with (appended_lines evs).
    pose proof (sse_next_spec q s) as Hnext. rewrite Hq in Hnext.
    destruct its as [|x rest].
    + rewrite Hnext. by apply (IH _ n []).
    + rewrite Hnext.
      destruct (IH (set_queues (<[q := MkQueue n rest]> (queues s)) s) n rest) as [Hpre Heq].
      { cbn. by rewrite lookup_insert_eq. }
      destruct (run_subscriber q evs _) as [ys s2]. unfold stream in *. cbn in *.
      split; [by apply prefix_cons|]. intros Hin. by rewrite Heq.
Qed.

(** With room for all of them, no line is refused. *)
Lemma run_room q evs : ∀ s its,
  queues s !! q = Some (MkQueue 1000 its) →
  q ∈ subscribers s →
  length its + length (appended_lines evs) ≤ 1000 →
  q ∈ subscribers (run_subscriber q evs s).2.
Proof.
  induction evs as [|[line|] evs IH]; intros s its Hq Hin Hlen.
  - done.
  - cbn [run_subscriber].
    change (appended_lines (Append line :: evs)) with (line :: appended_lines evs) in Hlen.
    cbn [length] in Hlen.
    destruct (broadcast_exec_post line s) as [_ Hsub Hqs _ _ _].
    assert (queue_full (MkQueue 1000 its) = false) as Hroom.
    { apply queue_has_room. lia. }
    apply (IH _ (its ++ [Py.rstrip_nl line])).
    + rewrite Hqs, decide_True, Hq by done. unfold deliver. by rewrite Hroom.
    + apply Hsub. split; [done|]. rewrite Hq. unfold accepts. by rewrite Hroom.
    + rewrite length_app. cbn [length]. lia.
  - cbn [run_subscriber].
    change (appended_lines (Next :: evs)) with (appended_lines evs) in Hlen.
    pose proof (sse_next_spec q s) as Hnext. rewrite Hq in Hnext.
    destruct its as [|x rest].
    + rewrite Hnext. by apply (IH _ []).
    + rewrite Hnext.
      pose proof (IH (set_queues (<[q := MkQueue 1000 rest]> (queues s)) s) rest) as IH'.
      destruct (run_subscriber q evs _) as [ys s2]. cbn [snd fst] in *.
      apply IH'; [cbn; by rewrite lookup_insert_eq|done|cbn [length] in Hlen; lia].
Qed.

End Subscriptions.

Section SubscriptionRuns.
Context {W : Type}.
Implicit Types (s : State W) (q : qid) (line : string) (ls its : list string).

(** A run in two parts. *)
Lemma run_subscriber_app q evs1 evs2 : ∀ s,
  run_subscriber q (evs1 ++ evs2) s
  = ((run_subscriber q evs1 s).1 ++ (run_subscriber q evs2 (run_subscriber q evs1 s).2).1,
     (run_subscriber q evs2 (run_subscriber q evs1 s).2).2).
Proof.
  induction evs1 as [|[line|] evs1 IH]; intros s.
  - cbn. by destruct (run_subscriber q evs2 s).
  - cbn [app run_subscriber]. apply IH.
  - cbn [app run_subscriber]. destruct (sse_next q s) as [[ev s']|]; [|apply IH].
    rewrite IH. destruct (run_subscriber q evs1 s') as [ys s2]. cbn [fst snd].
    by destruct (run_subscriber q evs2 s2).
Qed.

(** The queue object stays, with its capacity. *)
Lemma run_queue q evs : ∀ s n its,
  queues s !! q = Some (MkQueue n its) →
  ∃ its', queues (run_subscriber q evs s).2 !! q = Some (MkQueue n its').
Proof.
  induction evs as [|[line|] evs IH]; intros s n its Hq.
  - by exists its.
  - cbn [run_subscriber].
    destruct (broadcast_exec_post line s) as [_ _ Hqs _ _ _].
    specialize (Hqs q). rewrite Hq in Hqs.
    destruct (decide (q ∈ subscribers s)); [|by eapply IH].
    cbn [deliver] in Hqs. destruct (queue_full (MkQueue n its)); by eapply IH.
  - cbn [run_subscriber]. pose proof (sse_next_spec q s) as Hnext. rewrite Hq in Hnext.
    destruct its as [|x rest]; rewrite Hnext; [by eapply IH|].
    destruct (IH (set_queues (<[q := MkQueue n rest]> (queues s)) s) n rest) as [its' Hits].
    { cbn. by rewrite lookup_insert_eq. }
    destruct (run_subscriber q evs _) as [ys s2]. by exists its'.
Qed.

(** While every append finds room, the subscriber stays registered. *)
Lemma run_keeps_up q evs : ∀ s its,
  queues s !! q = Some (MkQueue 1000 its) →
  q ∈ subscribers s →
  keeps_up q evs s = true →
  q ∈ subscribers (run_subscriber q evs s).2.
Proof.
  induction evs as [|[line|] evs IH]; intros s its Hq Hin Hup.
  - done.
  - cbn [run_subscriber]. cbn [keeps_up] in Hup.
    apply andb_true_iff in Hup as [Hlen%Nat.ltb_lt Hup].
    unfold pending in Hlen. rewrite Hq in Hlen. cbn [items] in Hlen.
    destruct (broadcast_exec_post line s) as [_ Hsub Hqs _ _ _].
    assert (queue_full (MkQueue 1000 its) = false) as Hroom by (by apply queue_has_room).
    apply (IH _ (its ++ [Py.rstrip_nl line])); [| |done].
    + rewrite Hqs, decide_True, Hq by done. unfold deliver. by rewrite Hroom.
    + apply Hsub. split; [done|]. rewrite Hq. unfold accepts. by rewrite Hroom.
  - cbn [run_subscriber]. cbn [keeps_up] in Hup.
    pose proof (sse_next_spec q s) as Hnext. rewrite Hq in Hnext.
    destruct its as [|x rest]; rewrite Hnext in Hup |- *; [by apply (IH _ [])|].
    pose proof (IH (set_queues (<[q := MkQueue 1000 rest]> (queues s)) s) rest) as IH'.
    destruct (run_subscriber q evs _) as [ys s2]. cbn [snd fst] in *.
    apply IH'; [cbn; by rewrite lookup_insert_eq|done|done].
Qed.

(** An append that finds the queue of a registered subscriber full takes
    the subscriber out of the registry: what it has been given stays as
    it is, whatever follows. *)
Lemma run_dropped q line later s its :
  queues s !! q = Some (MkQueue 1000 its) →
  length its = 1000 →
  stream q (run_subscriber q (Append line :: later) s) = map sse_event its
  ∧ q ∉ subscribers (run_subscriber q (Append line :: later) s).2.
Proof.
  intros Hq Hlen. cbn [run_subscriber].
  destruct (broadcast_exec_post line s) as [_ Hsub Hqs _ _ _].
  assert (accepts (queues s !! q) = false) as Hfull.
  { rewrite Hq. unfold accepts, queue_full. cbn [maxsize items]. rewrite Hlen. done. }
  apply (run_unregistered q later _ 1000 its).
  - rewrite Hqs. destruct (decide (q ∈ subscribers s)); [|done].
    by rewrite deliver_refused.
  - rewrite Hsub, Hfull. by intros [_ ?].
Qed.

End SubscriptionRuns.

Section SubscriptionClaims.
Context {W : Type}.
Implicit Types (s : State W) (q : qid) (line : string).

(** C7, amended. A subscription made after exactly N lines were appended
    (to an empty history) is registered with a new queue that holds the
    newest min(N, 500) history lines, oldest first.  Whatever is appended
    and consumed afterwards, what the subscriber has been given (the
    events yielded, then the lines still queued) is an initial part of
    that seed followed by the lines appended since, in order, without gap
    or repetition.  It is all of them, and the subscriber is still
    registered, when every append found room in its queue, which holds at
    most 1000 lines that are not consumed yet.  An append that finds the
    queue of the registered subscriber full, with 1000 lines, takes it out
    of the registry: it is given neither that line nor any later one. *)
Theorem subscription_seeded_then_fed s0 (before : list string) :
  history s0 = [] →
  ∃ q s1,
    sse_attach (exec (broadcast_all before) s0) = (Ok q, s1)
    ∧ q ∈ subscribers s1
    ∧ pending q s1 = Py.slice_last 500 (map Py.rstrip_nl before)
    ∧ length (pending q s1) = length before `min` 500
    ∧ ∀ evs,
        let r := run_subscriber q evs s1 in
        let all := map sse_event (pending q s1 ++ map Py.rstrip_nl (appended_lines evs)) in
        stream q r `prefix_of` all
        ∧ (q ∈ subscribers r.2 → stream q r = all)
        ∧ (keeps_up q evs s1 = true → q ∈ subscribers r.2 ∧ stream q r = all)
        ∧ (q ∈ subscribers r.2 → length (pending q r.2) = 1000 →
           ∀ line later,
             let r' := run_subscriber q (evs ++ Append line :: later) s1 in
             q ∉ subscribers r'.2 ∧ stream q r' = all).
Proof.
  intros Hnil. set (s := exec (broadcast_all before) s0).
  destruct (sse_attach_spec s) as [Hfresh Hattach].
  set (q := fresh (dom (queues s))) in *.
  eexists q, _. split; [exact Hattach|].
  assert (history s = Py.slice_last 2000 (map Py.rstrip_nl before)) as Hh.
  { by apply history_from_empty. }
  set (s1 := set_subscribers _ _).
  assert (queues s1 !! q = Some (MkQueue 1000 (Py.slice_last 500 (history s)))) as Hq.
  { subst s1. cbn. by rewrite lookup_insert_eq. }
  assert (pending q s1 = Py.slice_last 500 (map Py.rstrip_nl before)) as Hpend.
  { unfold pending. rewrite Hq. cbn [items]. rewrite Hh. apply slice_last_slice_last; lia. }
  assert (q ∈ subscribers s1) as Hin1 by (subst s1; cbn; set_solver).
  split; [done|]. split; [done|].
  split; [rewrite Hpend, slice_last_length, length_map by lia; done|].
  intros evs r all.
  assert (pending q s1 = Py.slice_last 500 (history s)) as Hpend'.
  { unfold pending. by rewrite Hq. }
  destruct (run_registered q evs s1 _ _ Hq) as [Hpre Heq].
  subst r all. rewrite Hpend'. split; [done|]. split; [done|]. split.
  - intros Hup.
    assert (q ∈ subscribers (run_subscriber q evs s1).2) as Hin.
    { by apply (run_keeps_up q evs s1 _ Hq). }
    split; [done|]. by apply Heq.
  - intros Hin Hfull line later.
    destruct (run_queue q evs s1 _ _ Hq) as [its Hits].
    unfold pending in Hfull. rewrite Hits in Hfull. cbn [items] in Hfull.
    destruct (run_dropped q line later _ its Hits Hfull) as [Hst Hout].
    cbn zeta. rewrite run_subscriber_app. cbn [fst snd]. split; [done|].
    rewrite <- (Heq Hin). unfold stream in Hst |- *. cbn [fst snd].
    rewrite <- app_assoc. f_equal. unfold stream in Hst. rewrite Hst.
    unfold pending. by rewrite Hits.
Qed.

End SubscriptionClaims.

(** C7 as stated fails: a subscriber that attaches to the empty history and
    takes no turn while 1001 lines are appended has not been given them
    all (its queue holds 1000). *)
Lemma subscription_overflow_loses_lines :
  ¬ delivers_all Sim.boot [] (map Append (numbered 1001)).
Proof.
  unfold delivers_all. intros H.
  assert (∀ (x y : list string), x = y → length x = length y) as Hlen by (by intros ?? ->).
  vm_compute sse_attach in H. destruct H as [_ H].
  apply Hlen in H. vm_compute in H. discriminate.
Qed.

(** ** A subscriber attaching while a line is broadcast *)

Section AttachRace.
Context {W : Type}.
Implicit Types (s : State W) (q : qid) (line : string).

(** Lines 32-39 for a list [qs] without repetition, as [list(subscribers)] is. *)
Lemma broadcast_fanout_post l (qs : list qid) s :
  NoDup qs →
  let s' := exec (broadcast_fanout l qs) s in
  (∀ q, queues s' !! q = if decide (q ∈ qs) then deliver l (queues s !! q) else queues s !! q)
  ∧ (∀ q, q ∈ subscribers s' ↔
          q ∈ subscribers s ∧ ¬ (q ∈ qs ∧ accepts (queues s !! q) = false))
  ∧ history s' = history s.
Proof.
  intros Hnd s'. subst s'.
  destruct (fanout_collect l qs Hnd [] s) as (dead & heap' & Hrun & Hdead & Hheap).
  assert (broadcast_fanout l qs s
          = (Ok tt, set_subscribers (subscribers s ∖ list_to_set dead) (set_queues heap' s)))
    as Hfan.
  { unfold broadcast_fanout, bind at 1. by rewrite Hrun, fanout_discard. }
  unfold exec. rewrite Hfan. cbn. split; [done|]. split; [|done].
  intros q. rewrite elem_of_difference, elem_of_list_to_set, Hdead.
  split; [intros [? Hno]; split; [done|]; intros ?; apply Hno; by right|].
  intros [? Hno]. split; [done|]. intros [Hnil|?]; [|done]. by apply elem_of_nil in Hnil.
Qed.

Lemma register_frame q s :
  history (exec (sse_register q) s) = history s
  ∧ queues (exec (sse_register q) s) = queues s
  ∧ subscribers (exec (sse_register q) s) = {[q]} ∪ subscribers s.
Proof. done. Qed.

Lemma broadcast_history_frame l s :
  history (exec (broadcast_history l) s) = appended (history s) l
  ∧ queues (exec (broadcast_history l) s) = queues s
  ∧ subscribers (exec (broadcast_history l) s) = subscribers s.
Proof. done. Qed.

(** The three steps of the broadcasting thread, run in a row, are [broadcast]. *)
Lemma broadcast_in_steps line s :
  shared (schedule_run line [BcHistory; BcSnapshot; BcFanout] s) = exec (broadcast line) s.
Proof. done. Qed.

(** The two steps of the subscribing thread, run in a row, are the attach. *)
Lemma attach_in_steps line s :
  shared (schedule_run line [SubSeed; SubRegister] s) = exec sse_attach s.
Proof.
  unfold schedule_run, exec. cbn [foldl tstep_run shared].
  destruct (sse_attach_spec s) as [_ ->]. destruct (sse_seed_spec s) as [_ ->]. done.
Qed.

(** C3, amended. A subscriber attaches while one line is broadcast, the
    line entering the history after the seed was read and before the
    subscriber is registered.  The subscriber ends registered, with the
    seed (the newest 500 lines of the history before the append) in its
    queue, followed by the line once if the registration came before the
    broadcasting thread listed the registry (line 33), and by nothing if
    it came after: the line is never given twice, and it is lost when the
    registry was listed first. *)
Theorem attach_during_broadcast s line sched :
  wf_state s →
  sched ∈ schedules →
  in_window sched = true →
  let m := schedule_run line sched s in
  subscriber_gets line sched s
    = Py.slice_last 500 (history s)
      ++ (if before SubRegister BcSnapshot sched then [Py.rstrip_nl line] else [])
  ∧ history (shared m) = appended (history s) (Py.rstrip_nl line)
  ∧ ∃ q, sub_q m = Some q ∧ q ∈ subscribers (shared m).
Proof.
  intros Hwf Hin Hwin.
  destruct (sse_seed_spec s) as [Hfresh Hseed].
  set (q := fresh (dom (queues s))) in *.
  assert (q ∉ subscribers s) as Hnsub by (intros ?; by apply Hfresh, Hwf).
  set (seed := Py.slice_last 500 (history s)) in *.
  assert (queue_full (MkQueue 1000 seed) = false) as Hroom.
  { apply queue_has_room. subst seed. rewrite slice_last_length; lia. }
  set (s1 := set_queues (<[q := MkQueue 1000 seed]> (queues s)) s) in *.
  assert (subscribers s1 = subscribers s ∧ history s1 = history s) as [Hs1 Hh1] by done.
  clearbody seed q.
  unfold schedules in Hin. cbn in Hin.
  repeat (apply elem_of_cons in Hin as [->|Hin]); try (by apply elem_of_nil in Hin);
    vm_compute in Hwin; try discriminate Hwin; clear Hwin;
    match goal with
    | |- context [before ?a ?b ?l] =>
        let v := eval vm_compute in (before a b l) in change (before a b l) with v
    end;
    unfold subscriber_gets, schedule_run; cbn zeta;
    cbn [foldl tstep_run shared sub_q bc_qs]; rewrite Hseed;
    cbn [foldl tstep_run shared sub_q bc_qs].
  - (* seed, history, register, list, fan-out *)
    match goal with |- context [exec (broadcast_fanout ?l ?qs) ?s0] =>
      destruct (broadcast_fanout_post l qs s0 (NoDup_elements _)) as (Hq & Hsub & Hh);
      destruct (register_frame q (exec (broadcast_history l) s1)) as (Hrh & Hrq & Hrs);
      destruct (broadcast_history_frame l s1) as (Hbh & Hbq & Hbs)
    end.
    assert (q ∈ subscribers (exec (sse_register q)
                (exec (broadcast_history (Py.rstrip_nl line)) s1))) as Hreg.
    { rewrite Hrs. set_solver. }
    split; [|split].
    + unfold pending. rewrite Hq, decide_True by (by apply elem_of_elements).
      rewrite Hrq, Hbq. subst s1. cbn [queues set_queues].
      rewrite lookup_insert_eq. unfold deliver. by rewrite Hroom.
    + by rewrite Hh, Hrh, Hbh.
    + exists q. split; [done|]. apply Hsub. split; [done|].
      intros [_ Hacc]. rewrite Hrq, Hbq in Hacc. subst s1. cbn [queues set_queues] in Hacc.
      rewrite lookup_insert_eq in Hacc. unfold accepts in Hacc. by rewrite Hroom in Hacc.
  - (* seed, history, list, register, fan-out *)
    match goal with |- context [exec (broadcast_fanout ?l ?qs) ?s0] =>
      destruct (broadcast_fanout_post l qs s0 (NoDup_elements _)) as (Hq & Hsub & Hh);
      destruct (register_frame q (exec (broadcast_history l) s1)) as (Hrh & Hrq & Hrs);
      destruct (broadcast_history_frame l s1) as (Hbh & Hbq & Hbs)
    end.
    assert (q ∉ elements (subscribers (exec (broadcast_history (Py.rstrip_nl line)) s1)))
      as Hnel by (by rewrite elem_of_elements, Hbs).
    split; [|split].
    + unfold pending. rewrite Hq, decide_False by done.
      rewrite Hrq, Hbq. subst s1. cbn [queues set_queues].
      rewrite lookup_insert_eq, app_nil_r. done.
    + by rewrite Hh, Hrh, Hbh.
    + exists q. split; [done|]. apply Hsub. split; [rewrite Hrs; set_solver|]. by intros [? _].
  - (* seed, history, list, fan-out, register *)
    match goal with |- context [exec (broadcast_fanout ?l ?qs) ?s0] =>
      destruct (broadcast_fanout_post l qs s0 (NoDup_elements _)) as (Hq & Hsub & Hh);
      destruct (register_frame q (exec (broadcast_fanout l qs) s0)) as (Hrh & Hrq & Hrs);
      destruct (broadcast_history_frame l s1) as (Hbh & Hbq & Hbs)
    end.
    assert (q ∉ elements (subscribers (exec (broadcast_history (Py.rstrip_nl line)) s1)))
      as Hnel by (by rewrite elem_of_elements, Hbs).
    split; [|split].
    + unfold pending. rewrite Hrq, Hq, decide_False by done.
      rewrite Hbq. subst s1. cbn [queues set_queues].
      rewrite lookup_insert_eq, app_nil_r. done.
    + by rewrite Hrh, Hh, Hbh.
    + exists q. split; [done|]. rewrite Hrs. set_solver.
Qed.

End AttachRace.

(** C3 as stated fails: the subscriber attaches to the empty history, the
    whole broadcast of one line runs between its seeding and its
    registration, and the line is neither in the seed nor in the queue. *)
Lemma attach_race_loses_line :
  let sched := [SubSeed; BcHistory; BcSnapshot; BcFanout; SubRegister] in
  sched ∈ schedules
  ∧ in_window sched = true
  ∧ subscriber_gets "x" sched Sim.boot = []
  ∧ ¬ exactly_once "x" sched Sim.boot.
Proof.
  cbn zeta. split; [|split; [done|split; [done|]]].
  - unfold schedules. cbn. set_solver.
  - unfold exactly_once. vm_compute. discriminate.
Qed.

(** Outside the window the line can come twice: appended before the seed
    is read, fanned out after the registration, it is in the seed and is
    delivered again. *)
Example attach_race_repeats_line :
  let sched := [BcHistory; SubSeed; SubRegister; BcSnapshot; BcFanout] in
  sched ∈ schedules
  ∧ in_window sched = false
  ∧ subscriber_gets "x" sched Sim.boot = ["x"; "x"].
Proof.
  cbn zeta. split; [|split; done].
  unfold schedules. cbn. set_solver.
Qed.

(** ** The reader thread and the way back to idle *)

Section Reader.
Context {W : Type} `{OS W}.
Implicit Types (s : State W) (p : Popen) (out : list string).

Lemma for_stdout_lines out s :
  for_in out tt (λ line _, broadcast (Py.rstrip_nl line)) s
  = broadcast_all (map Py.rstrip_nl out) s.
Proof.
  revert s. induction out as [|l out IH]; intros s; [done|].
  cbn [map]. rewrite broadcast_all_cons. cbn [for_in]. unfold bind at 1.
  rewrite broadcast_exec. apply IH.
Qed.

Lemma map_rstrip_idemp out :
  map Py.rstrip_nl (map Py.rstrip_nl out) = map Py.rstrip_nl out.
Proof. induction out as [|l out IH]; [done|]. cbn. by rewrite IH, rstrip_nl_idemp. Qed.

(** The state and outcome of a whole run of [reader]. *)
Lemma reader_spec p out fin s :
  reader p out fin s
  = (match fin with EOF => Ok tt | ReadError e => Raise e end,
     set_current_proc idle_slot
       (exec (broadcast (finished_line (Popen_wait p (world s)).1))
          (set_world (Popen_wait p (world s)).2
             (exec (broadcast_all (map Py.rstrip_nl out)) s)))).
Proof.
  unfold reader, try_finally, for_stdout, bind at 1.
  rewrite for_stdout_lines, broadcast_all_exec.
  set (sa := exec (broadcast_all (map Py.rstrip_nl out)) s).
  assert (world sa = world s) as Hw by apply broadcast_all_frame.
  assert (reader_finally p sa
          = (Ok tt, set_current_proc idle_slot
                      (exec (broadcast (finished_line (Popen_wait p (world s)).1))
                         (set_world (Popen_wait p (world s)).2 sa)))) as Hfin.
  { unfold reader_finally, bind at 1, sys. rewrite Hw.
    destruct (Popen_wait p (world s)) as [rc w']. cbn [fst snd].
    unfold bind at 1. by rewrite broadcast_exec. }
  destruct fin as [|e]; cbn [ret raise]; by rewrite Hfin.
Qed.

Lemma spawn_process_running args raw s :
  is_Some (slot_p (current_proc s)) → spawn_process args raw s = (Raise already_running, s).
Proof. intros [p Hp]. by eapply spawn_process_busy. Qed.

Lemma api_stop_slot s : current_proc (exec api_stop s) = current_proc s.
Proof.
  unfold exec, api_stop, bind at 1, gets.
  destruct (slot_p (current_proc s)) as [p|]; [|done].
  unfold bind at 1, try_except_class, bind, sys_result.
  destruct (os_getpgid (pid p) (world s)) as [[g|e] w1]; cbn.
  - destruct (os_killpg g SIGINT w1) as [[[]|e] w2]; cbn; [done|].
    by destruct (decide (exn_cls e = ProcessLookupError)).
  - by destruct (decide (exn_cls e = ProcessLookupError)).
Qed.

Lemma sse_next_slot q s :
  current_proc (match sse_next q s with Some (_, s') => s' | None => s end) = current_proc s.
Proof.
  pose proof (sse_next_spec q s) as Hnext.
  destruct (queues s !! q) as [[n [|x rest]]|]; by rewrite Hnext.
Qed.

(** Among the operations of the program, only the [finally] block of a
    reader takes the slot from running to idle. *)
Lemma slot_cleared_by_reader (Form : Type) build split (a : action Form) s :
  is_Some (slot_p (current_proc s)) →
  slot_p (current_proc (step Form build split a s)) = None →
  ∃ p, a = ActReaderFinally Form p.
Proof.
  intros Hrun Hidle.
  destruct a as [data|cmd| | | |q|q|line|p]; cbn [step] in Hidle;
    try (by eexists); exfalso; destruct Hrun as [p0 Hrun].
  + unfold exec, api_start, try_except, bind at 1, pure_result in Hidle.
    destruct (build data) as [args|e]; cbn in Hidle; [|congruence].
    unfold bind at 1 in Hidle.
    rewrite spawn_process_running in Hidle by (by eexists). cbn in Hidle. congruence.
  + unfold exec, api_run_raw in Hidle. destruct cmd as [|c cmd]; [cbn in Hidle; congruence|].
    unfold try_except, bind at 1, pure_result in Hidle.
    destruct (split (String c cmd)) as [args|e]; cbn in Hidle; [|congruence].
    unfold bind at 1 in Hidle.
    rewrite spawn_process_running in Hidle by (by eexists). cbn in Hidle. congruence.
  + rewrite api_stop_slot in Hidle. congruence.
  + cbn in Hidle. congruence.
  + unfold exec in Hidle. destruct (sse_attach_spec s) as [_ Hat]. rewrite Hat in Hidle.
    cbn in Hidle. congruence.
  + rewrite sse_next_slot in Hidle. congruence.
  + cbn in Hidle. congruence.
  + destruct (broadcast_exec_post (Py.rstrip_nl line) s) as [_ _ _ Hcp _ _].
    rewrite Hcp in Hidle. congruence.
Qed.

End Reader.

(** ** Registered queues exist *)

Section WellFormed.
Context {W : Type} `{OS W}.
Implicit Types (s : State W) (q : qid).

Lemma extends_refl s : extends s s.
Proof. split; set_solver. Qed.

Lemma extends_wf s s' : extends s s' → wf_state s → wf_state s'.
Proof. unfold wf_state. intros [Hd Hs] Hwf. set_solver. Qed.

Lemma extends_trans s1 s2 s3 : extends s1 s2 → extends s2 s3 → extends s1 s3.
Proof. intros [Hd1 Hs1] [Hd2 Hs2]. split; set_solver. Qed.

Lemma extends_same s s' :
  queues s' = queues s → subscribers s' = subscribers s → extends s s'.
Proof. intros Hq Hs. split; rewrite ?Hq, ?Hs; set_solver. Qed.

Lemma broadcast_extends line s : extends s (exec (broadcast line) s).
Proof.
  destruct (broadcast_exec_post line s) as [_ Hsub Hq _ _ _]. split.
  - intros q [qu Hqu]%elem_of_dom. apply elem_of_dom. rewrite Hq.
    destruct (decide (q ∈ subscribers s)); rewrite Hqu; [|done].
    cbn. by destruct (queue_full qu).
  - intros q Hin%Hsub. set_solver.
Qed.

Lemma spawn_process_extends args raw s : extends s (exec (spawn_process args raw) s).
Proof.
  unfold exec, spawn_process, bind at 1, gets.
  destruct (slot_p (current_proc s)); [apply extends_refl|].
  unfold bind at 1. rewrite broadcast_exec.
  eapply extends_trans; [apply (broadcast_extends (starting_line args))|].
  set (sb := exec (broadcast (starting_line args)) s).
  unfold bind at 1, sys_result.
  destruct (subprocess_Popen args (world sb)) as [[p|e] w1]; [|by apply extends_same].
  unfold bind, sys, modify. cbn. destruct (time_time w1) as [now w2]. by apply extends_same.
Qed.

Lemma reader_finally_extends p s : extends s (exec (reader_finally p) s).
Proof.
  unfold exec, reader_finally, bind at 1, sys.
  destruct (Popen_wait p (world s)) as [rc w1]. unfold bind at 1. rewrite broadcast_exec.
  eapply extends_trans; [by apply (extends_same s (set_world w1 s))|].
  eapply extends_trans; [apply (broadcast_extends (finished_line rc))|].
  by apply extends_same.
Qed.

Lemma api_stop_extends s : extends s (exec api_stop s).
Proof.
  unfold exec, api_stop, bind at 1, gets.
  destruct (slot_p (current_proc s)) as [p|]; [|apply extends_refl].
  unfold bind at 1, try_except_class, bind, sys_result.
  destruct (os_getpgid (pid p) (world s)) as [[g|e] w1]; cbn.
  - destruct (os_killpg g SIGINT w1) as [[[]|e] w2]; cbn; [by apply extends_same|].
    destruct (decide (exn_cls e = ProcessLookupError)); by apply extends_same.
  - destruct (decide (exn_cls e = ProcessLookupError)); by apply extends_same.
Qed.

Lemma sse_attach_extends s : extends s (exec sse_attach s).
Proof.
  unfold exec. destruct (sse_attach_spec s) as [_ ->]. cbn. split; cbn.
  - rewrite dom_insert_L. set_solver.
  - rewrite dom_insert_L. set_solver.
Qed.

Lemma sse_next_extends q s :
  extends s (match sse_next q s with Some (_, s') => s' | None => s end).
Proof.
  pose proof (sse_next_spec q s) as Hnext.
  destruct (queues s !! q) as [[n [|x rest]]|] eqn:Hq; rewrite Hnext;
    try apply extends_refl.
  split; cbn; rewrite dom_insert_L; set_solver.
Qed.

(** The initial state is well formed, and every operation of the program
    keeps the state well formed. *)
Lemma wf_state_step (Form : Type) build_args_from_form shlex_split (a : action Form) s :
  wf_state s → wf_state (step Form build_args_from_form shlex_split a s).
Proof.
  apply extends_wf. destruct a as [data|cmd| | | |q|q|line|p]; cbn [step].
  - unfold exec, api_start, try_except, bind at 1, pure_result.
    destruct (build_args_from_form data) as [args|e]; [|apply extends_refl].
    unfold bind at 1. pose proof (spawn_process_extends args false s) as Hext.
    unfold exec in Hext. by destruct (spawn_process args false s) as [[[]|e] s'].
  - unfold exec, api_run_raw. destruct cmd as [|c cmd]; [apply extends_refl|].
    unfold try_except, bind at 1, pure_result.
    destruct (shlex_split (String c cmd)) as [args|e]; [|apply extends_refl].
    unfold bind at 1. pose proof (spawn_process_extends args true s) as Hext.
    unfold exec in Hext. by destruct (spawn_process args true s) as [[[]|e] s'].
  - apply api_stop_extends.
  - apply extends_refl.
  - apply sse_attach_extends.
  - apply sse_next_extends.
  - split; cbn; set_solver.
  - apply broadcast_extends.
  - apply reader_finally_extends.
Qed.

Lemma wf_state_initial (w : W) : wf_state (initial_state w).
Proof. unfold wf_state. cbn. set_solver. Qed.

End WellFormed.

(** ** The theorems at work on the simulated system *)

Lemma spawn_process_while_running_witness :
  slot_p (current_proc Scenario.running) = Some (MkPopen 100)
  ∧ spawn_process ["yt-dlp"; "--newline"] true Scenario.running
    = (Raise already_running, Scenario.running).
Proof.
  split; [reflexivity|].
  apply (spawn_process_while_running _ _ _ (MkPopen 100)). reflexivity.
Defined.

Lemma api_stop_idle_witness :
  slot_p (current_proc Sim.boot) = None ∧ api_stop Sim.boot = (Ok idle, Sim.boot).
Proof.
  split; [reflexivity|]. apply api_stop_idle. reflexivity.
Defined.

Lemma api_stop_running_witness :
  (∃ w, api_stop Scenario.running = (Ok stopping, set_world w Scenario.running)
        ∧ Sim.calls w = [Sim.CallPopen Scenario.job; Sim.CallTime;
                         Sim.CallGetpgid 100; Sim.CallKillpg 100 SIGINT])
  ∧ (∃ w, api_stop Scenario.reaped = (Ok stopping, set_world w Scenario.reaped)
        ∧ Sim.calls w = [Sim.CallPopen Scenario.job; Sim.CallTime;
                         Sim.CallWait 100; Sim.CallGetpgid 100])
  ∧ api_stop (Denied.running false) = (Raise Denied.not_permitted, Denied.running false)
  ∧ api_stop (Denied.running true) = (Raise Denied.not_permitted, Denied.running true).
Proof.
  split; [|split; [|split]].
  - eexists. split.
    + eapply (proj1 (api_stop_running Scenario.running (MkPopen 100) eq_refl));
        [reflexivity|reflexivity|left; reflexivity].
    + reflexivity.
  - eexists. split.
    + eapply (proj1 (proj2 (api_stop_running Scenario.reaped (MkPopen 100) eq_refl))).
      reflexivity.
    + reflexivity.
  - apply (proj1 (proj2 (proj2 (api_stop_running (Denied.running false) (MkPopen 1) eq_refl)))
             1 (Denied.MkWorld false) Denied.not_permitted (Denied.MkWorld false));
      [reflexivity|reflexivity|discriminate].
  - apply (proj2 (proj2 (proj2 (api_stop_running (Denied.running true) (MkPopen 1) eq_refl)))
             Denied.not_permitted (Denied.MkWorld true)); [reflexivity|discriminate].
Defined.



Lemma history_keeps_last_2000_witness :
  history (exec (broadcast_all (numbered 2003)) Scenario.running)
  = drop 3 (numbered 2003).
Proof.
  apply (proj1 (proj2 (proj2 history_keeps_last_2000))).
  - reflexivity.
  - vm_compute. reflexivity.
Defined.

Lemma broadcast_drops_failing_subscribers_witness :
  let s' := exec (broadcast "late") Scenario.crowded in
  0 ∉ subscribers s' ∧ pending 1 s' = pending 1 Scenario.crowded ++ ["late"].
Proof.
  destruct (broadcast_drops_failing_subscribers Scenario.crowded "late")
    as (_ & _ & _ & _ & Hdrop & Hkeep & _).
  split.
  - eapply Hdrop.
    + apply (bool_decide_unpack _). vm_compute. exact I.
    + vm_compute. reflexivity.
  - apply Hkeep.
    + apply (bool_decide_unpack _). vm_compute. exact I.
    + vm_compute. reflexivity.
Defined.

Lemma subscription_seeded_then_fed_witness :
  ∃ q s1,
    sse_attach (exec (broadcast_all (numbered 600)) Sim.boot) = (Ok q, s1)
    ∧ pending q s1 = drop 100 (numbered 600)
    ∧ (let r := run_subscriber q (paced (numbered 1500)) s1 in
       q ∈ subscribers r.2
       ∧ stream q r = map sse_event (drop 100 (numbered 600) ++ numbered 1500))
    ∧ (let r' := run_subscriber q (map Append (numbered 500)
                                     ++ Append "late" :: [Append "later"; Next]) s1 in
       q ∉ subscribers r'.2
       ∧ stream q r' = map sse_event (drop 100 (numbered 600) ++ numbered 500)).
Proof.
  destruct (subscription_seeded_then_fed Sim.boot (numbered 600) eq_refl)
    as (q & s1 & Hattach & _ & Hseed & _ & Hruns).
  assert (q = 0) as ->.
  { assert (outcome sse_attach (exec (broadcast_all (numbered 600)) Sim.boot) = Ok q) as Hq
      by (unfold outcome; by rewrite Hattach).
    vm_compute in Hq. by injection Hq. }
  assert (s1 = exec sse_attach (exec (broadcast_all (numbered 600)) Sim.boot)) as ->
    by (unfold exec at 1; by rewrite Hattach).
  eexists 0, _. split; [exact Hattach|].
  assert (pending 0 (exec sse_attach (exec (broadcast_all (numbered 600)) Sim.boot))
          = drop 100 (numbered 600)) as Hpend by (vm_compute; reflexivity).
  split; [exact Hpend|]. split.
  - destruct (Hruns (paced (numbered 1500))) as (_ & _ & Hfed & _).
    destruct Hfed as [Hin Hall]; [vm_compute; reflexivity|].
    split; [exact Hin|]. rewrite Hall, Hpend. vm_compute. reflexivity.
  - destruct (Hruns (map Append (numbered 500))) as (_ & _ & _ & Hdrop).
    destruct (Hdrop) with (line := "late") (later := [Append "later"; Next]) as [Hout Hall].
    + apply (bool_decide_unpack _). vm_compute. exact I.
    + vm_compute. reflexivity.
    + split; [exact Hout|]. cbn zeta in Hall. rewrite Hall, Hpend. vm_compute. reflexivity.
Defined.

Lemma attach_during_broadcast_witness :
  subscriber_gets "x" [SubSeed; BcHistory; SubRegister; BcSnapshot; BcFanout] Sim.boot
  = ["x"].
Proof.
  edestruct (attach_during_broadcast Sim.boot "x"
               [SubSeed; BcHistory; SubRegister; BcSnapshot; BcFanout]) as (Hgets & _).
  - intros q Hq. exact (False_ind _ (not_elem_of_empty (C := gset qid) q Hq)).
  - apply (bool_decide_unpack _). vm_compute. exact I.
  - reflexivity.
  - exact Hgets.
Defined.

(** ** What every operation does to the history, the queues and the registry *)

Section Logs.
Context {W : Type} `{OS W}.
Implicit Types (s : State W) (q : qid).

Lemma same_logs_refl s : same_logs s s.
Proof. done. Qed.

Lemma spawn_process_logs args raw s :
  ∃ s0, (s0 = s ∨ s0 = exec (broadcast (starting_line args)) s)
        ∧ same_logs s0 (exec (spawn_process args raw) s).
Proof.
  unfold exec at 2. unfold spawn_process, bind at 1, gets.
  destruct (slot_p (current_proc s)); [exists s; split; [by left|done]|].
  eexists. split; [by right|].
  unfold bind at 1. rewrite broadcast_exec.
  set (sb := exec (broadcast (starting_line args)) s).
  unfold bind at 1, sys_result.
  destruct (subprocess_Popen args (world sb)) as [[p|e] w1]; [|by unfold same_logs].
  unfold bind, sys, modify. cbn. destruct (time_time w1) as [now w2]. by unfold same_logs.
Qed.

Lemma reader_finally_logs p s :
  ∃ rc w1, same_logs (exec (broadcast (finished_line rc)) (set_world w1 s))
                     (exec (reader_finally p) s).
Proof.
  unfold exec, reader_finally, bind at 1, sys.
  destruct (Popen_wait p (world s)) as [rc w1]. exists rc, w1.
  unfold bind at 1. by rewrite broadcast_exec.
Qed.

Lemma api_stop_only_world s : ∃ w, exec api_stop s = set_world w s.
Proof.
  unfold exec, api_stop, bind at 1, gets.
  destruct (slot_p (current_proc s)) as [p|]; [|exists (world s); by destruct s].
  unfold bind at 1, try_except_class, bind, sys_result.
  destruct (os_getpgid (pid p) (world s)) as [[g|e] w1]; cbn.
  - destruct (os_killpg g SIGINT w1) as [[[]|e] w2]; cbn; [by eexists|].
    destruct (decide (exn_cls e = ProcessLookupError)); by eexists.
  - destruct (decide (exn_cls e = ProcessLookupError)); by eexists.
Qed.

Lemma api_stop_logs s : same_logs s (exec api_stop s).
Proof. destruct (api_stop_only_world s) as [w ->]. by unfold same_logs. Qed.

(** A property of the history, the queues and the registry that
    [broadcast] and the three phases of an event stream keep is kept by
    every operation of the program. *)
Lemma logs_invariant (I : State W → Prop) :
  (∀ s s', same_logs s s' → I s → I s') →
  (∀ line s, I s → I (exec (broadcast line) s)) →
  (∀ s, I s → I (exec sse_attach s)) →
  (∀ q s, I s → I (match sse_next q s with Some (_, s') => s' | None => s end)) →
  (∀ q s, I s → I (exec (sse_close q) s)) →
  ∀ (Form : Type) build_args_from_form shlex_split (a : action Form) s,
    I s → I (step Form build_args_from_form shlex_split a s).
Proof.
  intros Hsame Hb Hattach Hnext Hclose Form build split a s HI.
  assert (∀ args raw, I (exec (spawn_process args raw) s)) as Hspawn.
  { intros args raw. destruct (spawn_process_logs args raw s) as (s0 & [->| ->] & Hl);
      (eapply Hsame; [exact Hl|]); [done|by apply Hb]. }
  destruct a as [data|cmd| | | |q|q|line|p]; cbn [step].
  - unfold exec, api_start, try_except, bind at 1, pure_result.
    destruct (build data) as [args|e]; [|done].
    unfold bind at 1. specialize (Hspawn args false). unfold exec in Hspawn.
    by destruct (spawn_process args false s) as [[[]|e] s'].
  - unfold exec, api_run_raw. destruct cmd as [|c cmd]; [done|].
    unfold try_except, bind at 1, pure_result.
    destruct (split (String c cmd)) as [args|e]; [|done].
    unfold bind at 1. specialize (Hspawn args true). unfold exec in Hspawn.
    by destruct (spawn_process args true s) as [[[]|e] s'].
  - eapply Hsame; [apply api_stop_logs|done].
  - done.
  - by apply Hattach.
  - by apply Hnext.
  - by apply Hclose.
  - by apply Hb.
  - destruct (reader_finally_logs p s) as (rc & w1 & Hl).
    eapply Hsame; [exact Hl|]. apply Hb. by eapply Hsame; [|exact HI].
Qed.

Lemma logs_invariant_run (I : State W → Prop) :
  (∀ s s', same_logs s s' → I s → I s') →
  (∀ line s, I s → I (exec (broadcast line) s)) →
  (∀ s, I s → I (exec sse_attach s)) →
  (∀ q s, I s → I (match sse_next q s with Some (_, s') => s' | None => s end)) →
  (∀ q s, I s → I (exec (sse_close q) s)) →
  ∀ (Form : Type) build_args_from_form shlex_split (acts : list (action Form)) s,
    I s → I (run Form build_args_from_form shlex_split acts s).
Proof.
  intros Hsame Hb Hattach Hnext Hclose Form build split acts.
  induction acts as [|a acts IH]; intros s HI; [done|].
  cbn. apply IH. by apply logs_invariant.
Qed.

End Logs.

(** ** Invariants of the running program *)

Section Invariants.
Context {W : Type} `{OS W}.
Implicit Types (s : State W) (q : qid).

Lemma Forall_slice_last {A} (P : A → Prop) n (l : list A) :
  Forall P l → Forall P (Py.slice_last n l).
Proof. unfold Py.slice_last. destruct n; [done|]. apply Forall_drop. Qed.

Lemma deliver_cases line (o : option Queue) qu' :
  deliver line o = Some qu' →
  o = Some qu'
  ∨ ∃ qu, o = Some qu ∧ queue_full qu = false
          ∧ qu' = MkQueue (maxsize qu) (items qu ++ [line]).
Proof.
  destruct o as [qu|]; [|done]. cbn.
  destruct (queue_full qu) eqn:Hfull; intros [= <-]; [by left|right; by exists qu].
Qed.

Lemma not_full_room qu : queue_full qu = false → maxsize qu = 1000 → length (items qu) < 1000.
Proof.
  unfold queue_full. intros Hf Hm. rewrite Hm in Hf.
  apply andb_false_iff in Hf as [Hf|Hf]; [done|]. by apply Nat.leb_gt in Hf.
Qed.

Lemma bounded_step (Form : Type) build_args_from_form shlex_split (a : action Form) s :
  bounded s → bounded (step Form build_args_from_form shlex_split a s).
Proof.
  revert Form build_args_from_form shlex_split a s. apply logs_invariant.
  - intros s s' (Hh & Hq & _) Hb. unfold bounded. by rewrite Hh, Hq.
  - intros line s [Hh Hq]. destruct (broadcast_exec_post line s) as [Hh' _ Hq' _ _ _].
    split; [rewrite Hh'; apply appended_length|].
    intros q qu'. rewrite Hq'. destruct (decide (q ∈ subscribers s)); [|apply Hq].
    intros [Heq|(qu & Heq & Hfull & ->)]%deliver_cases; [by eapply Hq|].
    destruct (Hq q qu Heq) as [Hm Hl]. cbn. split; [done|].
    rewrite length_app. cbn. pose proof (not_full_room qu Hfull Hm). lia.
  - intros s [Hh Hq]. unfold exec. destruct (sse_attach_spec s) as [_ ->].
    cbn [snd]. split; [done|]. intros q qu. cbn [queues set_subscribers set_queues].
    destruct (decide (q = fresh (dom (queues s)))) as [->|Hne].
    + rewrite lookup_insert_eq. intros [= <-]. cbn [maxsize items]. split; [done|].
      rewrite length_drop. lia.
    + rewrite lookup_insert_ne by done. apply Hq.
  - intros q s [Hh Hq]. pose proof (sse_next_spec q s) as Hnext.
    destruct (queues s !! q) as [[n [|x rest]]|] eqn:Hqq; rewrite Hnext; try done.
    split; [done|]. intros q' qu. cbn.
    destruct (decide (q' = q)) as [->|Hne].
    + rewrite lookup_insert_eq. intros [= <-]. destruct (Hq q _ Hqq) as [Hm Hl].
      cbn in *. split; [done|lia].
    + rewrite lookup_insert_ne by done. apply Hq.
  - by intros q s Hb.
Qed.

Lemma stripped_step (Form : Type) build_args_from_form shlex_split (a : action Form) s :
  stripped s → stripped (step Form build_args_from_form shlex_split a s).
Proof.
  revert Form build_args_from_form shlex_split a s. apply logs_invariant.
  - intros s s' (Hh & Hq & _) Hb. unfold stripped. by rewrite Hh, Hq.
  - intros line s [Hh Hq]. destruct (broadcast_exec_post line s) as [Hh' _ Hq' _ _ _].
    split.
    + rewrite Hh', appended_slice. apply Forall_slice_last, Forall_app. split; [done|].
      apply Forall_singleton, rstrip_nl_idemp.
    + intros q qu'. rewrite Hq'. destruct (decide (q ∈ subscribers s)); [|apply Hq].
      intros [Heq|(qu & Heq & Hfull & ->)]%deliver_cases; [by eapply Hq|].
      cbn. apply Forall_app. split; [by eapply Hq|].
      apply Forall_singleton, rstrip_nl_idemp.
  - intros s [Hh Hq]. unfold exec. destruct (sse_attach_spec s) as [_ ->].
    cbn [snd]. split; [done|]. intros q qu. cbn [queues set_subscribers set_queues].
    destruct (decide (q = fresh (dom (queues s)))) as [->|Hne].
    + rewrite lookup_insert_eq. intros [= <-]. cbn [items]. by apply Forall_drop.
    + rewrite lookup_insert_ne by done. apply Hq.
  - intros q s [Hh Hq]. pose proof (sse_next_spec q s) as Hnext.
    destruct (queues s !! q) as [[n [|x rest]]|] eqn:Hqq; rewrite Hnext; try done.
    split; [done|]. intros q' qu. cbn.
    destruct (decide (q' = q)) as [->|Hne].
    + rewrite lookup_insert_eq. intros [= <-]. specialize (Hq q _ Hqq).
      cbn in *. by apply Forall_cons in Hq as [_ ?].
    + rewrite lookup_insert_ne by done. apply Hq.
  - by intros q s Hb.
Qed.

(** X1: bounded memory.  In every state the program can reach, the history
    has at most 2000 lines and every subscriber queue was made with room
    for 1000 lines and holds no more. *)
Theorem reachable_bounded (Form : Type) build_args_from_form shlex_split
    (acts : list (action Form)) (w : W) :
  let s := run Form build_args_from_form shlex_split acts (initial_state w) in
  length (history s) ≤ 2000
  ∧ ∀ q qu, queues s !! q = Some qu → maxsize qu = 1000 ∧ length (items qu) ≤ 1000.
Proof.
  cbn zeta. change (bounded (run Form build_args_from_form shlex_split acts (initial_state w))).
  assert (bounded (initial_state w)) as Hinit.
  { split; [cbn; lia|]. intros q qu Hq. cbn in Hq. by rewrite lookup_empty in Hq. }
  revert Hinit. generalize (initial_state w).
  induction acts as [|a acts IH]; intros s Hs; [done|].
  cbn. apply IH. by apply bounded_step.
Qed.

(** X2: no retained line ends in a newline.  In every state the program can
    reach, each line of the history and each line waiting in a queue is
    unchanged by [rstrip("\n")]. *)
Theorem reachable_stripped (Form : Type) build_args_from_form shlex_split
    (acts : list (action Form)) (w : W) :
  let s := run Form build_args_from_form shlex_split acts (initial_state w) in
  Forall (λ l, Py.rstrip_nl l = l) (history s)
  ∧ ∀ q qu, queues s !! q = Some qu → Forall (λ l, Py.rstrip_nl l = l) (items qu).
Proof.
  cbn zeta. change (stripped (run Form build_args_from_form shlex_split acts (initial_state w))).
  assert (stripped (initial_state w)) as Hinit.
  { split; [done|]. intros q qu Hq. cbn in Hq. by rewrite lookup_empty in Hq. }
  revert Hinit. generalize (initial_state w).
  induction acts as [|a acts IH]; intros s Hs; [done|].
  cbn. apply IH. by apply stripped_step.
Qed.

Lemma spawn_process_slot args raw s :
  current_proc (exec (spawn_process args raw) s) = current_proc s
  ∨ ∃ p now, current_proc (exec (spawn_process args raw) s)
             = {| slot_p := Some p; slot_start_ts := Some now;
                  slot_args := Some args; slot_raw := raw |}.
Proof.
  assert (∃ s', exec (spawn_process args raw) s = s' ∧
            (current_proc s' = current_proc s
             ∨ ∃ p now, current_proc s'
                        = {| slot_p := Some p; slot_start_ts := Some now;
                             slot_args := Some args; slot_raw := raw |})) as (s' & -> & Hs');
    [|done].
  unfold exec, spawn_process, bind at 1, gets.
  destruct (slot_p (current_proc s)); [eexists; split; [done|by left]|].
  unfold bind at 1. rewrite broadcast_exec.
  destruct (broadcast_exec_post (starting_line args) s) as [_ _ _ Hcp _ _].
  set (sb := exec (broadcast (starting_line args)) s) in *.
  unfold bind at 1, sys_result.
  destruct (subprocess_Popen args (world sb)) as [[p|e] w1];
    [|eexists; split; [done|by left]].
  unfold bind, sys, modify. cbn. destruct (time_time w1) as [now w2].
  eexists. split; [done|]. right. by exists p, now.
Qed.

Lemma slot_coherent_step (Form : Type) build_args_from_form shlex_split (a : action Form) s :
  slot_coherent (current_proc s) →
  slot_coherent (current_proc (step Form build_args_from_form shlex_split a s)).
Proof.
  intros Hc.
  assert (∀ args raw, slot_coherent (current_proc (exec (spawn_process args raw) s))) as Hspawn.
  { intros args raw. destruct (spawn_process_slot args raw s) as [->|(p & now & ->)]; [done|].
    split; by eexists. }
  destruct a as [data|cmd| | | |q|q|line|p]; cbn [step].
  - unfold exec, api_start, try_except, bind at 1, pure_result.
    destruct (build_args_from_form data) as [args|e]; [|done].
    unfold bind at 1. specialize (Hspawn args false). unfold exec in Hspawn.
    by destruct (spawn_process args false s) as [[[]|e] s'].
  - unfold exec, api_run_raw. destruct cmd as [|c cmd]; [done|].
    unfold try_except, bind at 1, pure_result.
    destruct (shlex_split (String c cmd)) as [args|e]; [|done].
    unfold bind at 1. specialize (Hspawn args true). unfold exec in Hspawn.
    by destruct (spawn_process args true s) as [[[]|e] s'].
  - by rewrite api_stop_slot.
  - done.
  - unfold exec. by destruct (sse_attach_spec s) as [_ ->].
  - by rewrite sse_next_slot.
  - done.
  - by destruct (broadcast_exec_post (Py.rstrip_nl line) s) as [_ _ _ -> _ _].
  - assert (current_proc (exec (reader_finally p) s) = idle_slot) as ->; [|done].
    unfold exec, reader_finally, bind at 1, sys.
    destruct (Popen_wait p (world s)) as [rc w1]. unfold bind at 1.
    by rewrite broadcast_exec.
Qed.

(** X3: the status report is consistent.  In every state the program can
    reach, [/api/status] returns without changing anything, and it reports
    either no job with neither argv nor start time, or a job with both. *)
Theorem api_status_consistent (Form : Type) build_args_from_form shlex_split
    (acts : list (action Form)) (w : W) :
  let s := run Form build_args_from_form shlex_split acts (initial_state w) in
  ∃ r, api_status s = (Ok r, s)
       ∧ (r = jsonify [("running", JBool false); ("args", JNull); ("start_ts", JNull)]
          ∨ ∃ args ts, r = jsonify [("running", JBool true); ("args", JArr args);
                                    ("start_ts", JNum ts)]).
Proof.
  cbn zeta.
  assert (slot_coherent (current_proc
            (run Form build_args_from_form shlex_split acts (initial_state w)))) as Hc.
  { assert (slot_coherent (current_proc (initial_state w))) as Hinit by done.
    revert Hinit. generalize (initial_state w).
    induction acts as [|a acts IH]; intros s Hs; [done|].
    cbn. apply IH. by apply slot_coherent_step. }
  set (s := run _ _ _ _ _) in *. eexists. split; [done|].
  unfold slot_coherent in Hc. destruct (current_proc s) as [p ts args raw]. cbn in *.
  destruct p as [p|].
  - destruct Hc as [[t ->] [a ->]]. right. by exists a, t.
  - injection Hc as -> -> ->. by left.
Qed.

End Invariants.

(** ** Requests that are turned down, stop, and the end of a stream *)

Section Requests.
Context {W : Type} `{OS W}.
Implicit Types (s : State W) (q : qid).

(** X4: a start request that cannot start.  [/api/start] whose argument
    builder raises answers 400 with the text of the exception, in any
    state; with the slot occupied it answers 400 with "Another task is
    running".  [/api/run_raw] answers 400 with "Missing cmd" for an empty
    command, with the text of the exception when [shlex.split] raises, and
    with "Another task is running" when the slot is occupied.  In all
    these cases the state is as before: nothing is broadcast or spawned. *)
Theorem start_request_rejected (Form : Type) (build_args_from_form : Form → Result (list string))
    (shlex_split : string → Result (list string)) s :
  (∀ data e, build_args_from_form data = Raise e →
     api_start Form build_args_from_form data s = (Ok (error_response e), s))
  ∧ (∀ data args, build_args_from_form data = Ok args →
     is_Some (slot_p (current_proc s)) →
     api_start Form build_args_from_form data s = (Ok (error_response already_running), s))
  ∧ api_run_raw shlex_split EmptyString s
    = (Ok (MkResponse 400 [("error", JStr "Missing cmd")]), s)
  ∧ (∀ cmd e, cmd ≠ EmptyString → shlex_split cmd = Raise e →
     api_run_raw shlex_split cmd s = (Ok (error_response e), s))
  ∧ (∀ cmd args, cmd ≠ EmptyString → shlex_split cmd = Ok args →
     is_Some (slot_p (current_proc s)) →
     api_run_raw shlex_split cmd s = (Ok (error_response already_running), s)).
Proof.
  repeat split.
  - intros data e Hb. unfold api_start, try_except, bind at 1, pure_result. by rewrite Hb.
  - intros data args Hb Hrun. unfold api_start, try_except, bind at 1, pure_result.
    rewrite Hb. unfold bind at 1. by rewrite spawn_process_running.
  - intros [|c cmd] e Hne Hsp; [done|].
    unfold api_run_raw, try_except, bind at 1, pure_result. by rewrite Hsp.
  - intros [|c cmd] args Hne Hsp Hrun; [done|].
    unfold api_run_raw, try_except, bind at 1, pure_result.
    rewrite Hsp. unfold bind at 1. by rewrite spawn_process_running.
Qed.

(** X5: stop only signals.  Whatever the system answers, [/api/stop]
    changes nothing of the program's state but the world: the job stays in
    the slot, with its argv and start time, until its reader thread ends.
    Of the exceptions of the two system calls only [ProcessLookupError] is
    swallowed: any other one leaves the view. *)
Theorem api_stop_only_signals s :
  (∃ w, exec api_stop s = set_world w s)
  ∧ (∀ p e w1, slot_p (current_proc s) = Some p →
       os_getpgid (pid p) (world s) = (Raise e, w1) →
       exn_cls e ≠ ProcessLookupError →
       api_stop s = (Raise e, set_world w1 s))
  ∧ (∀ p g e w1 w2, slot_p (current_proc s) = Some p →
       os_getpgid (pid p) (world s) = (Ok g, w1) →
       os_killpg g SIGINT w1 = (Raise e, w2) →
       exn_cls e ≠ ProcessLookupError →
       api_stop s = (Raise e, set_world w2 s)).
Proof.
  split; [apply api_stop_only_world|]. split.
  - intros p e w1 Hp Hg Hcls. unfold api_stop, bind at 1, gets. rewrite Hp.
    unfold bind at 1, try_except_class, bind, sys_result. rewrite Hg.
    by rewrite decide_False by done.
  - intros p g e w1 w2 Hp Hg Hk Hcls. unfold api_stop, bind at 1, gets. rewrite Hp.
    unfold bind at 1, try_except_class, bind, sys_result. rewrite Hg. cbn. rewrite Hk.
    rewrite decide_False by done. by destruct s.
Qed.

Lemma broadcast_all_exec_cons l ls s :
  exec (broadcast_all (l :: ls)) s = exec (broadcast_all ls) (exec (broadcast l) s).
Proof. unfold exec at 1. by rewrite broadcast_all_cons. Qed.

Lemma broadcast_all_unregistered q ls : ∀ s,
  q ∉ subscribers s →
  q ∉ subscribers (exec (broadcast_all ls) s)
  ∧ queues (exec (broadcast_all ls) s) !! q = queues s !! q.
Proof.
  induction ls as [|l ls IH]; intros s Hq; [done|].
  rewrite broadcast_all_exec_cons.
  destruct (broadcast_exec_post l s) as [_ Hsub Hqs _ _ _].
  destruct (IH (exec (broadcast l) s)) as [Hn Hsame].
  { rewrite Hsub. by intros [? _]. }
  split; [done|]. rewrite Hsame, Hqs. by rewrite decide_False.
Qed.

(** X6: the end of an event stream.  When the generator of queue [q] is
    closed, [q] is out of the registry and its content is untouched;
    closing again changes nothing; and whatever is appended afterwards,
    the queue stays as it was. *)
Theorem sse_close_unsubscribes q s :
  let s1 := exec (sse_close q) s in
  q ∉ subscribers s1
  ∧ queues s1 = queues s
  ∧ history s1 = history s
  ∧ exec (sse_close q) s1 = s1
  ∧ (∀ q', q' ≠ q → (q' ∈ subscribers s1 ↔ q' ∈ subscribers s))
  ∧ ∀ ls, queues (exec (broadcast_all ls) s1) !! q = queues s !! q.
Proof.
  cbn zeta.
  assert (q ∉ subscribers (exec (sse_close q) s)) as Hn by (cbn; set_solver).
  split; [done|]. split; [done|]. split; [done|]. split; [|split].
  - unfold exec, sse_close, modify, set_subscribers. cbn. f_equal. set_solver.
  - intros q' Hne. cbn. set_solver.
  - intros ls. by destruct (broadcast_all_unregistered q ls _ Hn) as [_ ->].
Qed.

Lemma spawn_process_started args raw s p w1 now w2 :
  slot_p (current_proc s) = None →
  subprocess_Popen args (world s) = (Ok p, w1) →
  time_time w1 = (now, w2) →
  spawn_process args raw s
  = (Ok tt, set_threads (threads s ++ [p])
              (set_current_proc
                 {| slot_p := Some p; slot_start_ts := Some now;
                    slot_args := Some args; slot_raw := raw |}
                 (set_world w2 (exec (broadcast (starting_line args)) s)))).
Proof.
  intros Hp Hspawn Htime.
  pose proof (broadcast_exec_post (starting_line args) s) as [Hh _ _ _ Hth Hw].
  unfold spawn_process, bind at 1, gets. rewrite Hp.
  unfold bind at 1. rewrite broadcast_exec.
  unfold bind at 1, sys_result. rewrite Hw, Hspawn.
  unfold bind at 1, sys. cbn. rewrite Htime. cbn.
  unfold set_threads, set_current_proc; cbn. by rewrite Hth.
Qed.

(** X7: the life of a job.  From an idle state, a start whose spawn
    succeeds, followed by the run of its reader thread over the output
    lines [out]: in between, the status reports the job with its argv and
    start time; at the end the history has gained the starting line, the
    output lines and the exit-code line, in this order, the slot is idle,
    the status reports no job, and the only calls to the system were the
    spawn, the clock and the wait. *)
Theorem job_lifecycle args raw out fin s p w1 now w2 :
  slot_p (current_proc s) = None →
  subprocess_Popen args (world s) = (Ok p, w1) →
  time_time w1 = (now, w2) →
  let s1 := exec (spawn_process args raw) s in
  let s2 := exec (reader p out fin) s1 in
  let rc := (Popen_wait p w2).1 in
  api_status s1 = (Ok (jsonify [("running", JBool true); ("args", JArr args);
                                ("start_ts", JNum now)]), s1)
  ∧ history s2
    = Py.slice_last 2000
        (history s ++ [starting_line args] ++ map Py.rstrip_nl out ++ [finished_line rc])
  ∧ current_proc s2 = idle_slot
  ∧ world s2 = (Popen_wait p w2).2
  ∧ threads s2 = threads s ++ [p]
  ∧ api_status s2 = (Ok (jsonify [("running", JBool false); ("args", JNull);
                                  ("start_ts", JNull)]), s2).
Proof.
  intros Hp Hspawn Htime s1 s2 rc.
  assert (s1 = set_threads (threads s ++ [p])
                 (set_current_proc
                    {| slot_p := Some p; slot_start_ts := Some now;
                       slot_args := Some args; slot_raw := raw |}
                    (set_world w2 (exec (broadcast (starting_line args)) s)))) as Hs1.
  { subst s1. unfold exec at 1. by rewrite (spawn_process_started _ _ _ _ _ _ _ Hp Hspawn Htime). }
  assert (history s1 = appended (history s) (starting_line args)
          ∧ world s1 = w2 ∧ threads s1 = threads s ++ [p]) as (Hh1 & Hw1 & Ht1).
  { rewrite Hs1. cbn. destruct (broadcast_exec_post (starting_line args) s) as [-> _ _ _ _ _].
    by rewrite (rstrip_nl_clean (starting_line args)) by apply starting_line_clean. }
  assert (s2 = set_current_proc idle_slot
                 (exec (broadcast (finished_line rc))
                    (set_world (Popen_wait p w2).2
                       (exec (broadcast_all (map Py.rstrip_nl out)) s1)))) as Hs2.
  { subst s2 rc. unfold exec at 1. by rewrite reader_spec, Hw1. }
  split; [by rewrite Hs1|].
  destruct (broadcast_exec_post (finished_line rc)
              (set_world (Popen_wait p w2).2 (exec (broadcast_all (map Py.rstrip_nl out)) s1)))
    as [Hh _ _ _ Hth Hw].
  destruct (broadcast_all_frame (map Py.rstrip_nl out) s1) as (Hha & _ & Hta & _).
  rewrite Hs2. cbn [history current_proc world threads set_current_proc].
  split; [|split; [done|split; [by rewrite Hw|split; [|done]]]].
  - rewrite Hh. cbn [history set_world]. rewrite Hha, Hh1.
    rewrite map_rstrip_idemp, (rstrip_nl_clean (finished_line rc)) by apply finished_line_clean.
    rewrite <- (foldl_snoc appended).
    rewrite appended_all by (by destruct (map Py.rstrip_nl out)).
    rewrite appended_slice, slice_last_app by (unfold LOG_HISTORY_MAX; lia).
    by rewrite <- !app_assoc.
  - rewrite Hth. cbn [threads set_world]. by rewrite Hta.
Qed.

End Requests.

(** ** [strip], [shlex.split] and [shlex.quote] *)

Section SplitFacts.
Local Arguments String.append !_ _ / : simpl nomatch.
Implicit Types (s rest token : string) (c : ascii) (acc : list string).

Lemma whitespace_bytes w :
  w ∈ PyStr.whitespace →
  (∃ c, w = String c EmptyString ∧ nat_of_ascii c < 128)
  ∨ (∃ c d rest, w = String c (String d rest)
                 ∧ 128 ≤ nat_of_ascii c
                 ∧ (∃ e, last_char w = Some e ∧ 128 ≤ nat_of_ascii e)).
Proof.
  unfold PyStr.whitespace. cbn [map PyStr.bytes].
  intros Hw. repeat (apply elem_of_cons in Hw as [->|Hw]);
    try (by apply elem_of_nil in Hw);
    first [left; eexists; split; [reflexivity|by apply Nat.ltb_lt]
          |right; do 3 eexists; split; [reflexivity|split; [by apply Nat.leb_le|]];
           eexists; split; [reflexivity|by apply Nat.leb_le]].
Qed.

Lemma plain_not_whitespace c : plain c = true → PyStr.is_whitespace (String c EmptyString) = false.
Proof. unfold plain. intros [_ Hn]%andb_true_iff. by apply negb_true_iff. Qed.

Lemma plain_ascii c : plain c = true → nat_of_ascii c < 128.
Proof. unfold plain. intros [Hn _]%andb_true_iff. by apply Nat.ltb_lt. Qed.

Lemma plain_not_longer c d rest :
  plain c = true → PyStr.is_whitespace (String c (String d rest)) = false.
Proof.
  intros Hp. apply bool_decide_eq_false_2. intros Hw.
  destruct (whitespace_bytes _ Hw) as [(e & [=] & _)|(c' & d' & r' & [= <- <- <-] & Hc & _)].
  apply plain_ascii in Hp. lia.
Qed.

Lemma lstrip_plain c s : plain c = true → PyStr.lstrip (String c s) = String c s.
Proof.
  intros Hp. cbn [PyStr.lstrip]. rewrite plain_not_whitespace by done.
  destruct s as [|d [|e s]]; [done| |]; rewrite plain_not_longer by done; [done|].
  by rewrite plain_not_longer.
Qed.

Lemma rstrip_plain s c : last_char s = Some c → plain c = true → PyStr.rstrip s = s.
Proof.
  induction s as [|a s IH]; [done|]. intros Hl Hp. cbn [PyStr.rstrip]. cbn in Hl.
  destruct (last_char s) as [d|] eqn:Hd.
  - injection Hl as ->. rewrite IH by done.
    assert (PyStr.is_whitespace (String a s) = false) as ->; [|done].
    apply bool_decide_eq_false_2. intros Hw.
    destruct (whitespace_bytes _ Hw) as [(e & [= -> ->] & _)|(_ & _ & _ & _ & _ & e & He & Hge)];
      [done|].
    cbn in He. rewrite Hd in He. injection He as <-. apply plain_ascii in Hp. lia.
  - apply last_char_None in Hd as ->. injection Hl as ->. cbn.
    by rewrite plain_not_whitespace.
Qed.

(** A string that begins and ends with plain characters is its own [strip]. *)
Lemma strip_plain s a c :
  first_char s = Some a → plain a = true →
  last_char s = Some c → plain c = true →
  PyStr.strip s = s.
Proof.
  intros Hf Ha Hl Hc. destruct s as [|b s]; [done|]. injection Hf as ->.
  unfold PyStr.strip. rewrite lstrip_plain by done. by eapply rstrip_plain.
Qed.

Lemma lstrip_whitespace w s : w ∈ PyStr.whitespace → PyStr.lstrip (w +:+ s) = PyStr.lstrip s.
Proof.
  unfold PyStr.whitespace. cbn [map PyStr.bytes].
  intros Hw. repeat (apply elem_of_cons in Hw as [->|Hw]);
    try (by apply elem_of_nil in Hw); reflexivity.
Qed.

(** A string made of whitespace characters only strips to nothing. *)
Lemma strip_blank (ws : list string) :
  Forall (λ w, w ∈ PyStr.whitespace) ws → PyStr.strip (foldr String.append EmptyString ws) = EmptyString.
Proof.
  intros Hws. unfold PyStr.strip.
  assert (PyStr.lstrip (foldr String.append EmptyString ws) = EmptyString) as ->; [|done].
  induction Hws as [|w ws Hw _ IH]; [done|]. cbn [foldr]. by rewrite lstrip_whitespace.
Qed.

Lemma safe_char_plain_ascii c : Shlex.safe_char c = true → plain c = true.
Proof.
  intros Hs. destruct c as [[] [] [] [] [] [] [] []]; vm_compute in Hs; try discriminate;
    vm_compute; reflexivity.
Qed.

Lemma safe_char_lex c :
  Shlex.safe_char c = true →
  ShlexSplit.is_space c = false ∧ ShlexSplit.is_quote c = false
  ∧ c ≠ ShlexSplit.backslash.
Proof.
  intros Hs. destruct c as [[] [] [] [] [] [] [] []]; vm_compute in Hs; try discriminate;
    repeat split; try reflexivity; discriminate.
Qed.

Lemma lex_snoc_app token c s : ShlexSplit.snoc token c +:+ s = token +:+ String c s.
Proof. unfold ShlexSplit.snoc. induction token as [|d w IH]; cbn; [done|]. by rewrite IH. Qed.

Lemma lex_safe s : ∀ rest token quoted acc,
  Shlex.all_safe s = true →
  ShlexSplit.lex (s +:+ rest) ShlexSplit.Word token quoted acc
  = ShlexSplit.lex rest ShlexSplit.Word (token +:+ s) quoted acc.
Proof.
  induction s as [|c s IH]; intros rest token quoted acc Hs.
  - cbn. by rewrite app_empty_r.
  - cbn in Hs. apply andb_true_iff in Hs as [Hc Hs].
    destruct (safe_char_lex c Hc) as (Hsp & Hq & Hb).
    cbn [String.append ShlexSplit.lex].
    rewrite Hsp, Hq, bool_decide_eq_false_2 by done.
    rewrite IH by done. by rewrite lex_snoc_app.
Qed.

Lemma lex_escaped s : ∀ rest token acc,
  ShlexSplit.lex (Shlex.escape_squotes s +:+ String Shlex.squote rest)
    (ShlexSplit.Quote Shlex.squote) token true acc
  = ShlexSplit.lex rest ShlexSplit.Word (token +:+ s) true acc.
Proof.
  induction s as [|c s IH]; intros rest token acc.
  - cbn. by rewrite app_empty_r.
  - cbn [Shlex.escape_squotes]. case_bool_decide as Hc.
    + subst c. unfold Shlex.squote_escape. cbn [String.append ShlexSplit.lex].
      change (bool_decide (Shlex.squote = Shlex.squote)) with true.
      change (ShlexSplit.is_space Shlex.dquote) with false.
      change (ShlexSplit.is_quote Shlex.dquote) with true.
      change (bool_decide (Shlex.squote = Shlex.dquote)) with false.
      change (bool_decide (Shlex.squote = ShlexSplit.backslash)) with false.
      change (bool_decide (Shlex.dquote = Shlex.dquote)) with true.
      change (ShlexSplit.is_space Shlex.squote) with false.
      change (ShlexSplit.is_quote Shlex.squote) with true.
      cbn match. cbn [andb]. cbn match.
      rewrite IH. by rewrite lex_snoc_app.
    + cbn [String.append ShlexSplit.lex]. rewrite bool_decide_eq_false_2 by done.
      change (bool_decide (Shlex.squote = Shlex.dquote)) with false.
      rewrite andb_false_r. rewrite IH. by rewrite lex_snoc_app.
Qed.

(** One quoted argument is lexed as one token, the argument, ready to be
    emitted. *)
Lemma lex_quote s rest acc :
  ∃ quoted,
    ShlexSplit.lex (Shlex.quote s +:+ rest) ShlexSplit.White EmptyString false acc
    = ShlexSplit.lex rest ShlexSplit.Word s quoted acc
    ∧ ShlexSplit.emit s quoted acc = acc ++ [s].
Proof.
  unfold Shlex.quote. destruct s as [|c s]; [by exists true|].
  destruct (Shlex.all_safe (String c s)) eqn:Hs.
  - exists false. cbn in Hs. apply andb_true_iff in Hs as [Hc Hs].
    destruct (safe_char_lex c Hc) as (Hsp & Hq & Hb).
    cbn [String.append ShlexSplit.lex].
    rewrite Hsp, Hq, bool_decide_eq_false_2 by done.
    by rewrite lex_safe by done.
  - exists true. split; [|done]. cbn [String.append ShlexSplit.lex].
    change (ShlexSplit.is_space Shlex.squote) with false.
    change (bool_decide (Shlex.squote = ShlexSplit.backslash)) with false.
    change (ShlexSplit.is_quote Shlex.squote) with true. cbn match.
    assert (∀ a b, (a +:+ String Shlex.squote EmptyString) +:+ b
                   = a +:+ String Shlex.squote b) as Happ.
    { intros a b. induction a as [|d a IH]; cbn; [done|]. by rewrite IH. }
    rewrite Happ.
    assert (∀ x, ShlexSplit.lex x (ShlexSplit.Quote Shlex.squote) EmptyString false acc
                 = ShlexSplit.lex x (ShlexSplit.Quote Shlex.squote) EmptyString true acc) as Hq.
    { intros [|d x]; [done|]. cbn [ShlexSplit.lex]. done. }
    rewrite Hq, lex_escaped. done.
Qed.

Lemma lex_command_text args : ∀ acc,
  ShlexSplit.lex (command_text args) ShlexSplit.White EmptyString false acc = Ok (acc ++ args).
Proof.
  unfold command_text.
  induction args as [|a args IH]; intros acc.
  - cbn. by rewrite app_nil_r.
  - destruct args as [|b args].
    + cbn [map Py.join]. rewrite <- (app_empty_r (Shlex.quote a)).
      destruct (lex_quote a EmptyString acc) as (quoted & -> & Hemit). cbn. by rewrite Hemit.
    + change (Py.join " " (map Shlex.quote (a :: b :: args)))
        with (Shlex.quote a +:+ " " +:+ Py.join " " (map Shlex.quote (b :: args))).
      destruct (lex_quote a (" " +:+ Py.join " " (map Shlex.quote (b :: args))) acc)
        as (quoted & -> & Hemit).
      cbn [String.append ShlexSplit.lex].
      change (ShlexSplit.is_space " ") with true. cbn match.
      rewrite Hemit, IH. by rewrite <- app_assoc.
Qed.

(** The only exceptions of [shlex.split] are [ValueError("No closing
    quotation")] and [ValueError("No escaped character")]. *)
Lemma split_errors s e :
  ShlexSplit.split s = Raise e →
  e = ShlexSplit.no_closing_quotation ∨ e = ShlexSplit.no_escaped_character.
Proof.
  unfold ShlexSplit.split. generalize ShlexSplit.White EmptyString false (@nil string).
  induction s as [|c s IH]; intros st token quoted acc.
  - destruct st; cbn; intros [=]; auto.
  - cbn [ShlexSplit.lex]. destruct st as [| |q|[q|]]; repeat case_match; apply IH.
Qed.

End SplitFacts.

(** ** The command text *)

Section CommandText.
Local Arguments String.append !_ _ / : simpl nomatch.
Implicit Types (s : string) (c : ascii).

Lemma squote_plain : plain Shlex.squote = true.
Proof. reflexivity. Qed.

Lemma first_char_app a b :
  first_char (a +:+ b) = match first_char a with Some c => Some c | None => first_char b end.
Proof. by destruct a. Qed.

Lemma quote_first s : ∃ c, first_char (Shlex.quote s) = Some c ∧ plain c = true.
Proof.
  unfold Shlex.quote. destruct s as [|c s]; [by exists Shlex.squote|].
  destruct (Shlex.all_safe (String c s)) eqn:Hs; [|by exists Shlex.squote].
  cbn in Hs. apply andb_true_iff in Hs as [Hc _]. exists c. split; [done|].
  by apply safe_char_plain_ascii.
Qed.

Lemma all_safe_last s c :
  Shlex.all_safe s = true → last_char s = Some c → plain c = true.
Proof.
  induction s as [|a s IH]; [done|]. cbn. intros [Ha Hs]%andb_true_iff.
  destruct (last_char s) as [d|] eqn:Hd.
  - intros [= ->]. by apply IH.
  - intros [= ->]. by apply safe_char_plain_ascii.
Qed.

Lemma quote_last s : ∃ c, last_char (Shlex.quote s) = Some c ∧ plain c = true.
Proof.
  unfold Shlex.quote. destruct s as [|a s]; [by exists Shlex.squote|].
  destruct (Shlex.all_safe (String a s)) eqn:Hs.
  - destruct (last_char (String a s)) as [c|] eqn:Hc.
    + exists c. split; [done|]. by eapply all_safe_last.
    + by apply last_char_None in Hc.
  - exists Shlex.squote. split; [|done].
    change (String Shlex.squote (Shlex.escape_squotes (String a s))
              +:+ String Shlex.squote EmptyString)
      with (String Shlex.squote (Shlex.escape_squotes (String a s)
              +:+ String Shlex.squote EmptyString)).
    cbn [last_char]. by rewrite last_char_app.
Qed.

Lemma join_last sep x xs :
  ∃ y, y ∈ x :: xs ∧
       (last_char y ≠ None → last_char (Py.join sep (x :: xs)) = last_char y).
Proof.
  revert x. induction xs as [|z xs IH]; intros x.
  - exists x. split; [by left|done].
  - destruct (IH z) as (y & Hy & Hl). exists y. split; [by right|].
    intros Hne.
    change (Py.join sep (x :: z :: xs)) with (x +:+ sep +:+ Py.join sep (z :: xs)).
    rewrite !last_char_app, Hl by done. by destruct (last_char y).
Qed.

(** The command text of a non-empty argument vector begins and ends with
    plain characters, so [strip] leaves it alone, and it is not empty. *)
Lemma command_text_strip args :
  args ≠ [] →
  PyStr.strip (command_text args) = command_text args ∧ command_text args ≠ EmptyString.
Proof.
  intros Hne. destruct args as [|a args]; [done|]. unfold command_text. cbn [map].
  assert (∃ c, first_char (Py.join " " (Shlex.quote a :: map Shlex.quote args)) = Some c
               ∧ plain c = true) as (c & Hc & Hpc).
  { destruct (quote_first a) as (c & Hc & Hp). exists c. split; [|done].
    destruct (map Shlex.quote args) as [|b l]; [done|].
    change (Py.join " " (Shlex.quote a :: b :: l))
      with (Shlex.quote a +:+ " " +:+ Py.join " " (b :: l)).
    by rewrite first_char_app, Hc. }
  assert (∃ d, last_char (Py.join " " (Shlex.quote a :: map Shlex.quote args)) = Some d
               ∧ plain d = true) as (d & Hd & Hpd).
  { destruct (join_last " " (Shlex.quote a) (map Shlex.quote args)) as (y & Hy & Hl).
    assert (∃ b, y = Shlex.quote b) as [b ->].
    { apply elem_of_cons in Hy as [->|Hy]; [by eexists|].
      apply list_elem_of_fmap in Hy as (b & -> & _). by eexists. }
    destruct (quote_last b) as (d & Hd & Hp). exists d. split; [|done].
    rewrite Hl; [done|]. by rewrite Hd. }
  split; [by eapply strip_plain|]. intros Heq. by rewrite Heq in Hc.
Qed.

End CommandText.

(** ** The routes on a JSON body *)

Section JsonRouteFacts.
Context {W : Type} `{OS W} `{Interp}.
Implicit Types (s : State W) (d : list (string * pyval)).

(** X8: the logged command runs again.  [shlex.split] undoes the quoting
    of line 132: the command text of a starting line splits back into
    exactly the argument vector.  So, sent to [/api/run_raw] as [cmd], the
    command text of a non-empty argument vector does what starting this
    very vector in raw mode does: the same outcome and state, with
    "started" or the error as the answer. *)
Theorem run_raw_of_command_text args d s :
  starting_line args = "# Starting: " +:+ command_text args
  ∧ ShlexSplit.split (command_text args) = Ok args
  ∧ (args ≠ [] →
     PyVal.lookup "cmd" d = Some (PStr (command_text args)) →
     api_run_raw_json (PDict d) s
     = try_except (do_ spawn_process args true; ret started)
                  (λ e, ret (error_response e)) s).
Proof.
  split; [done|]. split; [apply lex_command_text|].
  intros Hne Hcmd. destruct (command_text_strip args Hne) as [Hstrip Hnonempty].
  unfold api_run_raw_json, bind at 1, pure_result, get_strip.
  assert (PyVal.or (PDict d) (PDict []) = PDict d) as ->.
  { unfold PyVal.or. destruct d; [done|done]. }
  cbn [PyVal.get rbind]. rewrite Hcmd. cbn [from_option id PyVal.strip]. rewrite Hstrip.
  unfold api_run_raw. destruct (command_text args) as [|c t] eqn:Ht; [done|].
  rewrite <- Ht. unfold try_except, bind at 1, pure_result.
  unfold ShlexSplit.split. rewrite lex_command_text. reflexivity.
Qed.

(** X9: what [/api/run_raw] takes for a command.  A body that is false, or
    a dict without ["cmd"], or with a [cmd] string of white space only, is
    answered 400 "Missing cmd"; a [cmd] that is not a string, or a true
    body that is not a dict, raises out of the view (line 171 is outside
    the [try]); when [shlex.split] raises, the answer is 400 with one of
    its two messages.  The state is unchanged in all these cases. *)
Theorem run_raw_validation s :
  (∀ body, PyVal.truthy body = false →
     api_run_raw_json body s = (Ok (MkResponse 400 [("error", JStr "Missing cmd")]), s))
  ∧ (∀ d, PyVal.lookup "cmd" d = None →
     api_run_raw_json (PDict d) s = (Ok (MkResponse 400 [("error", JStr "Missing cmd")]), s))
  ∧ (∀ d ws, PyVal.lookup "cmd" d = Some (PStr (foldr String.append EmptyString ws)) →
     Forall (λ w, w ∈ PyStr.whitespace) ws →
     api_run_raw_json (PDict d) s = (Ok (MkResponse 400 [("error", JStr "Missing cmd")]), s))
  ∧ (∀ d v, PyVal.lookup "cmd" d = Some v → (∀ t, v ≠ PStr t) →
     api_run_raw_json (PDict d) s = (Raise (builtin_exn (NoAttribute v "strip")), s))
  ∧ (∀ body, PyVal.truthy body = true → (∀ d, body ≠ PDict d) →
     api_run_raw_json body s = (Raise (builtin_exn (NoAttribute body "get")), s))
  ∧ (∀ d t e, PyVal.lookup "cmd" d = Some (PStr t) →
     ShlexSplit.split (PyStr.strip t) = Raise e →
     api_run_raw_json (PDict d) s = (Ok (error_response e), s)
     ∧ (exn_str e = "No closing quotation" ∨ exn_str e = "No escaped character")).
Proof.
  assert (∀ d, PyVal.or (PDict d) (PDict []) = PDict d) as Hor.
  { intros d. unfold PyVal.or. by destruct d. }
  split; [|split; [|split; [|split; [|split]]]].
  - intros body Hf. unfold api_run_raw_json, PyVal.or. by rewrite Hf.
  - intros d Hd. unfold api_run_raw_json. rewrite Hor.
    unfold bind, pure_result, get_strip. cbn. by rewrite Hd.
  - intros d ws Hd Hws. unfold api_run_raw_json. rewrite Hor.
    unfold bind, pure_result, get_strip. cbn [PyVal.get rbind]. rewrite Hd.
    cbn [from_option id PyVal.strip]. by rewrite strip_blank.
  - intros d v Hd Hv. unfold api_run_raw_json. rewrite Hor.
    unfold bind, pure_result, get_strip. cbn [PyVal.get rbind]. rewrite Hd.
    cbn [from_option id]. destruct v; try done. by destruct (Hv s0).
  - intros body Ht Hnd. unfold api_run_raw_json, PyVal.or. rewrite Ht.
    unfold bind, pure_result, get_strip. destruct body; try done. by destruct (Hnd d).
  - intros d t e Hd Hsp. split.
    + unfold api_run_raw_json. rewrite Hor.
      unfold bind, pure_result, get_strip. cbn [PyVal.get rbind]. rewrite Hd.
      cbn [from_option id PyVal.strip].
      unfold api_run_raw. destruct (PyStr.strip t) as [|c u] eqn:Ht; [done|].
      unfold try_except, bind at 1, pure_result. by rewrite Hsp.
    + destruct (split_errors _ _ Hsp) as [-> | ->]; [by left|by right].
Qed.

End JsonRouteFacts.

(** ** [build_args_from_form] *)

Section BuildFacts.
Context `{Interp}.
Implicit Types (d : list (string * pyval)) (args : list string).

Lemma lookup_set_eq key v d : PyVal.lookup key (PyVal.set key v d) = Some v.
Proof.
  induction d as [|[k w] d IH]; cbn.
  - by rewrite bool_decide_eq_true_2.
  - case_bool_decide as Hk; cbn; [by rewrite bool_decide_eq_true_2|].
    by rewrite bool_decide_eq_false_2.
Qed.

Lemma lookup_set_ne key k v d : k ≠ key → PyVal.lookup k (PyVal.set key v d) = PyVal.lookup k d.
Proof.
  intros Hne. induction d as [|[k' w] d IH]; cbn.
  - by rewrite bool_decide_eq_false_2.
  - case_bool_decide as Hk; cbn.
    + subst k'. by rewrite bool_decide_eq_false_2 by done.
    + by rewrite IH.
Qed.

Lemma nonempty_false s : nonempty s = false ↔ s = EmptyString.
Proof. unfold nonempty. rewrite negb_false_iff. apply bool_decide_eq_true. Qed.

(** The toggle loop only adds allowed flags at the end. *)
Lemma add_toggles_grows ts : ∀ args args',
  add_toggles ts args = Ok args' →
  ∃ flags, args' = args ++ flags ∧ Forall (λ x, x ∈ allowed) flags.
Proof.
  induction ts as [|t ts IH]; intros args args'.
  - intros [= <-]. exists []. by rewrite app_nil_r.
  - cbn [add_toggles]. destruct t; cbn [PyVal.in_set rbind]; try done;
      try (intros (flags & -> & Hf)%IH; by exists flags).
    case_bool_decide as Hs.
    + intros (flags & -> & Hf)%IH. exists (s :: flags). rewrite <- app_assoc.
      split; [done|]. by constructor.
    + intros (flags & -> & Hf)%IH. by exists flags.
Qed.

(** On hashable values the loop adds exactly the allowed ones, in order. *)
Lemma add_toggles_filter ts : ∀ args,
  forallb hashable ts = true →
  add_toggles ts args
  = Ok (args ++ omap (λ t, match t with
                          | PStr x => if bool_decide (x ∈ allowed) then Some x else None
                          | _ => None
                          end) ts).
Proof.
  induction ts as [|t ts IH]; intros args Hh.
  - cbn. by rewrite app_nil_r.
  - cbn in Hh. apply andb_true_iff in Hh as [Ht Hh]. cbn [add_toggles omap list_omap].
    destruct t; try done; cbn [PyVal.in_set rbind]; rewrite IH by done; try done.
    destruct (bool_decide (s ∈ allowed)); [|done]. cbn. by rewrite <- app_assoc.
Qed.

Lemma add_toggles_allowed_only ts args :
  forallb hashable ts = true →
  add_toggles ts args = add_toggles (filter (λ t, allowed_toggle t = true) ts) args.
Proof.
  intros Hh. rewrite add_toggles_filter by done.
  rewrite add_toggles_filter.
  - f_equal. f_equal. clear Hh. induction ts as [|t ts IH]; [done|].
    rewrite filter_cons. destruct t; cbn; try done.
    case_decide as Hd; cbn; unfold allowed_toggle in Hd.
    + rewrite Hd. cbn. by rewrite IH.
    + apply not_true_is_false in Hd. by rewrite Hd.
  - clear Hh. induction ts as [|t ts IH]; [done|]. rewrite filter_cons.
    case_decide as Hd; [|done]. cbn. rewrite IH, andb_true_r.
    by destruct t.
Qed.

Ltac rbind_same :=
  repeat match goal with
         | |- rbind ?r _ = rbind ?r _ => destruct r; cbn [rbind]; [|reflexivity]
         end.

Ltac rbind_ok Hb :=
  repeat match type of Hb with
         | rbind ?r _ = Ok _ =>
             let E := fresh "E" in
             destruct r eqn:E; cbn [rbind] in Hb; [|discriminate Hb]
         end.

Lemma build_args_ok data args :
  build_args_from_form data = Ok args →
  ∃ d u options,
    data = PDict d
    ∧ PyVal.lookup "url" d = Some (PStr u)
    ∧ PyStr.strip u ≠ EmptyString
    ∧ args = YTDLP_BIN :: "--newline" :: options ++ [PyStr.strip u].
Proof.
  intros Hb. unfold build_args_from_form in Hb.
  destruct (get_strip data "url") as [url|e] eqn:Hurl; cbn [rbind] in Hb; [|done].
  destruct (nonempty url) eqn:Hne; cbn [negb] in Hb; [|done].
  assert (∃ d u, data = PDict d ∧ PyVal.lookup "url" d = Some (PStr u) ∧ url = PyStr.strip u)
    as (d & u & -> & Hu & ->).
  { unfold get_strip in Hurl. destruct data; try done. cbn [PyVal.get rbind] in Hurl.
    destruct (PyVal.lookup "url" d) as [v|] eqn:Hv; cbn in Hurl.
    - destruct v; try done. injection Hurl as <-. by eexists _, _.
    - injection Hurl as <-. by vm_compute in Hne. }
  exists d, u.
  assert (∃ body, [YTDLP_BIN; "--newline"] `prefix_of` body
                  ∧ args = body ++ [PyStr.strip u]) as (body & [options ->] & ->).
  { rbind_ok Hb.
    match goal with
    | E : add_toggles _ _ = Ok _ |- _ => apply add_toggles_grows in E as (flags & -> & _)
    end.
    injection Hb as <-. eexists. split; [|reflexivity].
    match goal with
    | E : (if PyVal.eq_str ?m _ then _ else _) = Ok _ |- _ =>
        destruct (PyVal.eq_str m "custom"); rbind_ok E; injection E as <-
    end;
    repeat case_match; repeat apply prefix_app_r; by eexists. }
  exists options. split; [done|]. split; [done|]. split; [|done].
  intros Hz. rewrite Hz in Hne. done.
Qed.

Lemma api_start_exec {W : Type} `{OS W} (Form : Type)
    (build : Form → Result (list string)) data (s : State W) :
  exec (api_start Form build data) s
  = match build data with
    | Ok args => exec (spawn_process args false) s
    | Raise _ => s
    end.
Proof.
  unfold exec, api_start, try_except, bind at 1, pure_result.
  destruct (build data) as [args|e]; [|done].
  unfold bind at 1. by destruct (spawn_process args false s) as [[[]|e] s'].
Qed.

(** X10: [/api/start] only ever starts yt-dlp.  Whatever the request, when
    [build_args_from_form] returns, the request was a dict with a string
    [url] that is not blank, and the argument vector is [yt-dlp],
    [--newline], then the options, then the stripped URL at the end.  So
    when [/api/start] puts a job into an empty slot, the job's argv has
    this shape and its raw flag is off: the request chooses neither the
    program nor its first flag. *)
Theorem api_start_runs_ytdlp {W : Type} `{OS W} (body : pyval) (s : State W) :
  (∀ args, build_args_from_form body = Ok args →
     ∃ d u options,
       body = PDict d ∧ PyVal.lookup "url" d = Some (PStr u)
       ∧ PyStr.strip u ≠ EmptyString
       ∧ args = YTDLP_BIN :: "--newline" :: options ++ [PyStr.strip u])
  ∧ (slot_p (current_proc s) = None →
     is_Some (slot_p (current_proc (exec (api_start_json body) s))) →
     ∃ d u options,
       body = PDict d ∧ PyVal.lookup "url" d = Some (PStr u)
       ∧ PyStr.strip u ≠ EmptyString
       ∧ slot_args (current_proc (exec (api_start_json body) s))
         = Some (YTDLP_BIN :: "--newline" :: options ++ [PyStr.strip u])
       ∧ slot_raw (current_proc (exec (api_start_json body) s)) = false).
Proof.
  split; [apply build_args_ok|].
  intros Hidle. unfold api_start_json.
  assert (∀ args, build_args_from_form (PyVal.or body (PDict [])) = Ok args →
            ∃ d u options,
              body = PDict d ∧ PyVal.lookup "url" d = Some (PStr u)
              ∧ PyStr.strip u ≠ EmptyString
              ∧ args = YTDLP_BIN :: "--newline" :: options ++ [PyStr.strip u]) as Hshape.
  { intros args (d & u & options & Hor & Hu & Hne & ->)%build_args_ok.
    exists d, u, options. split; [|done].
    unfold PyVal.or in Hor. destruct (PyVal.truthy body); [done|].
    injection Hor as <-. done. }
  rewrite api_start_exec.
  destruct (build_args_from_form (PyVal.or body (PDict []))) as [args|e] eqn:Hb.
  - destruct (Hshape args eq_refl) as (d & u & options & -> & Hu & Hne & ->).
    destruct (spawn_process_slot (YTDLP_BIN :: "--newline" :: options ++ [PyStr.strip u])
                false s) as [->|(p & now & ->)].
    + rewrite Hidle. by intros [? ?].
    + intros _. by exists d, u, options.
  - rewrite Hidle. by intros [? ?].
Qed.

Ltac build_lookups :=
  unfold build_args_from_form, get_strip, get_str_strip;
  cbn [PyVal.get rbind];
  rewrite ?lookup_set_eq;
  rewrite ?lookup_set_ne by discriminate.

Ltac step_same :=
  repeat first
    [ reflexivity
    | match goal with
      | |- rbind ?r _ = rbind ?r _ => destruct r; cbn [rbind]
      | |- (if ?c then _ else _) = (if ?c then _ else _) => destruct c
      end ].

(** X11: unknown toggles are dropped.  For a request whose [toggles] is a
    list of hashable values, the outcome is the same as for the request
    with only the toggles of the list that are strings of the allowed set,
    in their order: nothing else of [toggles] reaches the command. *)
Theorem toggles_whitelisted d ts :
  PyVal.lookup "toggles" d = Some (PList ts) →
  forallb hashable ts = true →
  build_args_from_form (PDict d)
  = build_args_from_form
      (PDict (PyVal.set "toggles" (PList (filter (λ t, allowed_toggle t = true) ts)) d)).
Proof.
  intros Hts Hh. build_lookups. rewrite Hts. cbn [from_option id PyVal.iter].
  step_same. cbn [rbind]. rewrite (add_toggles_allowed_only ts) by done. step_same.
Qed.

(** X12: the output template wins.  When [output_template] is a string that
    is not blank, the string given as [destination_dir] has no effect on
    the outcome. *)
Theorem output_template_wins d t x y :
  PyVal.lookup "output_template" d = Some (PStr t) →
  PyStr.strip t ≠ EmptyString →
  build_args_from_form (PDict (PyVal.set "destination_dir" (PStr x) d))
  = build_args_from_form (PDict (PyVal.set "destination_dir" (PStr y) d)).
Proof.
  intros Ht Hne. build_lookups. rewrite Ht. cbn [from_option id PyVal.strip rbind].
  assert (nonempty (PyStr.strip t) = true) as ->.
  { destruct (nonempty (PyStr.strip t)) eqn:Hn; [done|]. by apply nonempty_false in Hn. }
  cbn [negb]. rewrite !andb_false_r. step_same.
Qed.

(** X13: the format mode decides what is read.  With [format_mode] the
    string ["custom"], [dl_kind] and [max_height] are not read: whatever
    values they have, of whatever type, the outcome is the same.  With any
    other [format_mode] it is [custom_format] that is not read. *)
Theorem format_mode_selects d m :
  PyVal.lookup "format_mode" d = Some m →
  (m = PStr "custom" →
     ∀ v v', build_args_from_form (PDict (PyVal.set "dl_kind" v d))
             = build_args_from_form (PDict (PyVal.set "dl_kind" v' d))
           ∧ build_args_from_form (PDict (PyVal.set "max_height" v d))
             = build_args_from_form (PDict (PyVal.set "max_height" v' d)))
  ∧ (PyVal.eq_str m "custom" = false →
     ∀ v v', build_args_from_form (PDict (PyVal.set "custom_format" v d))
             = build_args_from_form (PDict (PyVal.set "custom_format" v' d))).
Proof.
  intros Hm. split.
  - intros -> v v'. split; build_lookups; rewrite Hm; cbn [from_option id PyVal.eq_str];
      rewrite bool_decide_eq_true_2 by done; step_same.
  - intros Hc v v'. build_lookups. rewrite Hm. cbn [from_option id]. rewrite Hc. step_same.
Qed.

(** X14: the command of a bare request.  A request with a non-blank [url]
    string and none of the other keys gives [yt-dlp --newline -f
    bestvideo+bestaudio/best URL]; with a non-blank [destination_dir]
    string as well, [-o] and the directory joined with the default
    template come before the URL. *)
Theorem bare_request_command d u :
  PyVal.lookup "url" d = Some (PStr u) →
  PyStr.strip u ≠ EmptyString →
  (∀ k, k ∈ option_keys → k ≠ "destination_dir" → PyVal.lookup k d = None) →
  (PyVal.lookup "destination_dir" d = None →
     build_args_from_form (PDict d)
     = Ok [YTDLP_BIN; "--newline"; "-f"; "bestvideo+bestaudio/best"; PyStr.strip u])
  ∧ (∀ dir, PyVal.lookup "destination_dir" d = Some (PStr dir) →
       PyStr.strip dir ≠ EmptyString →
       build_args_from_form (PDict d)
       = Ok [YTDLP_BIN; "--newline"; "-f"; "bestvideo+bestaudio/best";
             "-o"; PyStr.path_join (PyStr.strip dir) "%(uploader)s/%(title)s.%(ext)s";
             PyStr.strip u]).
Proof.
  intros Hu Hne Hnone.
  assert (nonempty (PyStr.strip u) = true) as Hnu.
  { destruct (nonempty (PyStr.strip u)) eqn:Hn; [done|]. by apply nonempty_false in Hn. }
  assert (∀ k, k ∈ option_keys → k ≠ "destination_dir" → PyVal.lookup k d = None) as Hk by done.
  unfold option_keys in Hk.
  pose proof (Hk "output_template" ltac:(set_solver) ltac:(done)) as H1.
  pose proof (Hk "archive_path" ltac:(set_solver) ltac:(done)) as H2.
  pose proof (Hk "format_mode" ltac:(set_solver) ltac:(done)) as H3.
  pose proof (Hk "dl_kind" ltac:(set_solver) ltac:(done)) as H5.
  pose proof (Hk "max_height" ltac:(set_solver) ltac:(done)) as H6.
  pose proof (Hk "limit_rate" ltac:(set_solver) ltac:(done)) as H7.
  pose proof (Hk "sleep_interval" ltac:(set_solver) ltac:(done)) as H8.
  pose proof (Hk "max_sleep_interval" ltac:(set_solver) ltac:(done)) as H9.
  pose proof (Hk "toggles" ltac:(set_solver) ltac:(done)) as H10.
  split.
  - intros Hd. build_lookups. rewrite Hu, H1, H2, H3, H5, H6, H7, H8, H9, H10, Hd.
    cbn [from_option id PyVal.strip rbind]. rewrite Hnu. reflexivity.
  - intros dir Hd Hdir.
    assert (nonempty (PyStr.strip dir) = true) as Hnd.
    { destruct (nonempty (PyStr.strip dir)) eqn:Hn; [done|]. by apply nonempty_false in Hn. }
    build_lookups. rewrite Hu, H1, H2, H3, H5, H6, H7, H8, H9, H10, Hd.
    cbn [from_option id PyVal.strip rbind]. rewrite Hnu. cbn [negb].
    change (PyStr.strip EmptyString) with EmptyString.
    cbn [PyVal.eq_str PyVal.or PyVal.truthy PyVal.str PyVal.iter add_toggles rbind].
    change (PyStr.strip EmptyString) with EmptyString.
    change (nonempty EmptyString) with false. cbn match. rewrite Hnd. reflexivity.
Qed.

(** X15: a request without URL.  [/api/start] answers 400 "Missing URL",
    and changes nothing, for a body that is false, for a dict without
    ["url"], and for a [url] string that strips to nothing.  A [url] that
    is there but is not a string (null, a number) is answered 400 with the
    interpreter's message for the failed [.strip()] instead. *)
Theorem missing_url_rejected {W : Type} `{OS W} (s : State W) :
  (∀ body, PyVal.truthy body = false →
     api_start_json body s = (Ok (MkResponse 400 [("error", JStr "Missing URL")]), s))
  ∧ (∀ d, PyVal.lookup "url" d = None →
     api_start_json (PDict d) s = (Ok (MkResponse 400 [("error", JStr "Missing URL")]), s))
  ∧ (∀ d u, PyVal.lookup "url" d = Some (PStr u) → PyStr.strip u = EmptyString →
     api_start_json (PDict d) s = (Ok (MkResponse 400 [("error", JStr "Missing URL")]), s))
  ∧ (∀ d v, PyVal.lookup "url" d = Some v → (∀ t, v ≠ PStr t) →
     api_start_json (PDict d) s
     = (Ok (error_response (builtin_exn (NoAttribute v "strip"))), s)).
Proof.
  assert (∀ d, PyVal.or (PDict d) (PDict []) = PDict d) as Hor.
  { intros d. unfold PyVal.or. by destruct d. }
  split; [|split; [|split]].
  - intros body Hf. unfold api_start_json, PyVal.or. by rewrite Hf.
  - intros d Hd. unfold api_start_json. rewrite Hor.
    unfold api_start, try_except, bind at 1, pure_result.
    unfold build_args_from_form, get_strip. cbn [PyVal.get rbind]. by rewrite Hd.
  - intros d u Hd Hu. unfold api_start_json. rewrite Hor.
    unfold api_start, try_except, bind at 1, pure_result.
    unfold build_args_from_form, get_strip. cbn [PyVal.get rbind]. rewrite Hd.
    cbn [from_option id PyVal.strip rbind]. by rewrite Hu.
  - intros d v Hd Hv. unfold api_start_json. rewrite Hor.
    unfold api_start, try_except, bind at 1, pure_result.
    unfold build_args_from_form, get_strip. cbn [PyVal.get rbind]. rewrite Hd.
    cbn [from_option id]. destruct v; try done. by destruct (Hv s0).
Qed.

(** What [list(s)] gives: each element is one byte, alone or with
    continuation bytes after it. *)
Lemma chars_shape s :
  Forall (λ x, ∃ a w, x = String a w ∧ (w = EmptyString ∨ PyStr.continues w = true))
         (PyStr.chars s).
Proof.
  induction s as [|a s IH]; cbn [PyStr.chars]; [constructor|].
  destruct (PyStr.chars s) as [|w ws].
  { repeat constructor. exists a, EmptyString. by split; [|left]. }
  destruct (PyStr.continues w) eqn:Hc.
  - inversion IH as [|? ? _ Hws]; subst. constructor; [|done].
    exists a, w. by split; [|right].
  - constructor; [|done]. exists a, EmptyString. by split; [|left].
Qed.

Lemma chars_not_allowed s x : x ∈ PyStr.chars s → x ∉ allowed.
Proof.
  intros Hx Ha. pose proof (chars_shape s) as Hs. rewrite Forall_forall in Hs.
  destruct (Hs x Hx) as (a & w & -> & Hw).
  assert (Forall (λ y, ∃ rest, y = String "-" (String "-" rest)) allowed) as Hall
    by (repeat constructor; eexists; reflexivity).
  rewrite Forall_forall in Hall. destruct (Hall _ Ha) as (rest & [= -> ->]).
  by destruct Hw.
Qed.

Lemma add_toggles_none l : ∀ args,
  (∀ x, x ∈ l → x ∉ allowed) → add_toggles (map PStr l) args = Ok args.
Proof.
  induction l as [|x l IH]; intros args Hl; [done|].
  cbn [map add_toggles PyVal.in_set rbind].
  rewrite bool_decide_eq_false_2 by (apply Hl, elem_of_cons; by left).
  apply IH. intros y Hy. apply Hl, elem_of_cons. by right.
Qed.

(** X16: [toggles] that is not a list.  A string given as [toggles] adds no
    flag at all, whatever it holds: it is gone through character by
    character, and no flag is one character.  An object given as
    [toggles] counts as the list of its keys.  Null, a boolean or a number
    makes the request fail, with the interpreter's message that the value
    is not iterable, when the request is good otherwise. *)
Theorem toggles_not_a_list d v :
  PyVal.lookup "toggles" d = Some v →
  (∀ s, v = PStr s →
     build_args_from_form (PDict d)
     = build_args_from_form (PDict (PyVal.set "toggles" (PList []) d)))
  ∧ (∀ items, v = PDict items →
     build_args_from_form (PDict d)
     = build_args_from_form
         (PDict (PyVal.set "toggles" (PList (map (λ kv, PStr kv.1) items)) d)))
  ∧ (iterable v = false →
     ∀ args, build_args_from_form (PDict (PyVal.set "toggles" (PList []) d)) = Ok args →
     build_args_from_form (PDict d) = Raise (builtin_exn (NotIterable v))).
Proof.
  intros Hv. split; [|split].
  - intros s ->. build_lookups. rewrite Hv. cbn [from_option id PyVal.iter].
    step_same. cbn [rbind]. rewrite add_toggles_none by apply chars_not_allowed.
    cbn [add_toggles]. step_same.
  - intros items ->. build_lookups. rewrite Hv. cbn [from_option id PyVal.iter].
    step_same.
  - intros Hit args. build_lookups. rewrite Hv. cbn [from_option id].
    intros Hb.
    repeat match type of Hb with
           | rbind ?r _ = Ok _ => destruct r; cbn [rbind] in Hb |- *; [|discriminate Hb]
           | (if ?c then _ else _) = Ok _ => destruct c; [discriminate Hb|]
           end.
    by destruct v.
Qed.

End BuildFacts.

(** ** The administration routes *)

Section AdminFacts.
Context {W : Type} `{Admin W} `{Interp}.
Implicit Types (d : list (string * pyval)) (w : W).

Lemma or_dict d : PyVal.or (PDict d) (PDict []) = PDict d.
Proof. unfold PyVal.or. by destruct d. Qed.

Lemma get_strip_text d key :
  text_field d key → ∃ t, get_strip (PDict d) key = Ok t.
Proof.
  unfold get_strip. cbn [PyVal.get rbind].
  intros [-> | (t & ->)]; cbn [from_option id PyVal.strip]; by eexists.
Qed.

Lemma get_strip_blank d key :
  blank_field d key → get_strip (PDict d) key = Ok EmptyString.
Proof.
  unfold get_strip. cbn [PyVal.get rbind].
  intros [-> | (ws & -> & Hws)]; cbn [from_option id PyVal.strip]; [done|].
  by rewrite strip_blank.
Qed.

(** X17: mount requests are checked first.  [/api/mount] answers 400 with
    the error "device and mountpoint required", and [/api/umount] 400 with
    "target required", without making a directory or running a command,
    when the body is false, or when a field is missing or is a string of
    white space only (the other field of a mount being a string, or
    missing).  With string fields that are not blank, [/api/mount] makes
    the mount point with [os.makedirs] first, whose exception leaves the
    view, and then runs [sudo mount] with the stripped device and mount
    point, each a word of its own; [/api/umount] runs [sudo umount] with
    the stripped target. *)
Theorem mount_requests_validated w :
  (∀ body, PyVal.truthy body = false →
     api_mount body w
     = (Ok (MkResponse 400 [("error", JStr "device and mountpoint required")]), w)
     ∧ api_umount body w = (Ok (MkResponse 400 [("error", JStr "target required")]), w))
  ∧ (∀ d, text_field d "device" → text_field d "mountpoint" →
       blank_field d "device" ∨ blank_field d "mountpoint" →
       api_mount (PDict d) w
       = (Ok (MkResponse 400 [("error", JStr "device and mountpoint required")]), w))
  ∧ (∀ d, blank_field d "target" →
       api_umount (PDict d) w = (Ok (MkResponse 400 [("error", JStr "target required")]), w))
  ∧ (∀ d dev mnt, PyVal.lookup "device" d = Some (PStr dev) →
       PyVal.lookup "mountpoint" d = Some (PStr mnt) →
       PyStr.strip dev ≠ EmptyString → PyStr.strip mnt ≠ EmptyString →
       api_mount (PDict d) w
       = match os_makedirs (PyStr.strip mnt) w with
         | (Raise e, w1) => (Raise e, w1)
         | (Ok _, w1) => run_command ["sudo"; "mount"; PyStr.strip dev; PyStr.strip mnt] w1
         end)
  ∧ (∀ d target, PyVal.lookup "target" d = Some (PStr target) →
       PyStr.strip target ≠ EmptyString →
       api_umount (PDict d) w = run_command ["sudo"; "umount"; PyStr.strip target] w).
Proof.
  assert (∀ t, t ≠ EmptyString → nonempty t = true) as Hne.
  { intros t Ht. destruct (nonempty t) eqn:Hn; [done|]. by apply nonempty_false in Hn. }
  split; [|split; [|split; [|split]]].
  - intros body Hf. unfold api_mount, api_umount, PyVal.or. by rewrite Hf.
  - intros d Hdev Hmnt Hblank. unfold api_mount. rewrite or_dict.
    destruct Hblank as [Hb | Hb].
    + rewrite (get_strip_blank _ _ Hb).
      by destruct (get_strip_text _ _ Hmnt) as (t & ->).
    + rewrite (get_strip_blank _ _ Hb).
      destruct (get_strip_text _ _ Hdev) as (t & ->).
      cbn [nonempty]. by rewrite orb_true_r.
  - intros d Hb. unfold api_umount. rewrite or_dict.
    by rewrite (get_strip_blank _ _ Hb).
  - intros d dev mnt Hdev Hmnt Hd Hm. unfold api_mount. rewrite or_dict.
    unfold get_strip. cbn [PyVal.get rbind]. rewrite Hdev, Hmnt.
    cbn [from_option id PyVal.strip]. by rewrite !Hne.
  - intros d target Ht Hn. unfold api_umount. rewrite or_dict.
    unfold get_strip. cbn [PyVal.get rbind]. rewrite Ht.
    cbn [from_option id PyVal.strip]. by rewrite Hne.
Qed.

End AdminFacts.
(** ** [api_list_destinations] *)

Section PathFacts.

Local Arguments String.append !_ _ / : simpl nomatch.

Lemma split_from_app a : ∀ b cur,
  PyPath.split_from (a +:+ String PyPath.sep b) cur
  = PyPath.split_from a cur ++ PyPath.split_from b EmptyString.
Proof.
  induction a as [|c a IH]; intros b cur; cbn.
  - by rewrite bool_decide_eq_true_2.
  - case_bool_decide; [by rewrite IH|apply IH].
Qed.

Lemma split_from_plain n : ∀ cur,
  PyPath.sep ∉ list_ascii_of_string n → PyPath.split_from n cur = [cur +:+ n].
Proof.
  induction n as [|c n IH]; intros cur Hn; cbn.
  - by rewrite app_empty_r.
  - cbn in Hn. apply not_elem_of_cons in Hn as [Hc Hn].
    rewrite bool_decide_eq_false_2 by done. rewrite IH by done.
    f_equal. apply (lex_snoc_app cur c n).
Qed.

Lemma entry_name_spec n :
  entry_name n = true →
  PyPath.kept n = true ∧ PyPath.sep ∉ list_ascii_of_string n
  ∧ ∃ c rest, n = String c rest ∧ c ≠ PyPath.sep.
Proof.
  unfold entry_name. intros [Hk Hs]%andb_true_iff.
  apply negb_true_iff, bool_decide_eq_false in Hs.
  split; [done|]. split; [done|].
  destruct n as [|c rest]; [done|]. exists c, rest. split; [done|].
  intros ->. apply Hs. cbn. apply elem_of_cons. by left.
Qed.

Lemma last_char_plain n c :
  PyPath.sep ∉ list_ascii_of_string n → last_char n = Some c → c ≠ PyPath.sep.
Proof.
  revert c. induction n as [|a n IH]; intros c Hn; [done|].
  cbn in Hn |- *. apply not_elem_of_cons in Hn as [Ha Hn].
  destruct (last_char n) as [e|]; intros [= <-]; [by apply IH|done].
Qed.

(** The parts of a clean path: the root, and the pieces between the
    slashes that are kept. *)
Lemma parts_clean top :
  clean top →
  ∃ rel, top = String PyPath.sep rel
         ∧ PyPath.parts top = "/" :: List.filter PyPath.kept (PyPath.split rel).
Proof.
  intros [(c & rest & -> & Hc) _]. exists (String c rest). split; [done|].
  unfold PyPath.parts, PyPath.splitroot. rewrite bool_decide_eq_true_2 by done.
  cbn [PyPath.lstrip_sep]. rewrite bool_decide_eq_true_2 by done.
  cbn [PyPath.lstrip_sep]. rewrite bool_decide_eq_false_2 by done.
  cbn [String.length]. replace (S (S (String.length rest)) - S (String.length rest)) with 1 by lia.
  done.
Qed.

(** Joining a name to a clean path gives a clean path with one part more. *)
Lemma join_clean top n :
  clean top → entry_name n = true →
  clean (PyStr.path_join top n)
  ∧ length (PyPath.parts (PyStr.path_join top n)) = S (length (PyPath.parts top)).
Proof.
  intros Hclean (Hk & Hs & c' & rest' & -> & Hc')%entry_name_spec.
  destruct (parts_clean top Hclean) as (rel & -> & Hparts).
  destruct Hclean as [(c & rest & [= ->] & Hc) Hlast].
  assert (PyStr.path_join (String PyPath.sep (String c rest)) (String c' rest')
          = String PyPath.sep (String c rest +:+ String PyPath.sep (String c' rest'))) as Hjoin.
  { unfold PyStr.path_join.
    destruct c' as [[] [] [] [] [] [] [] []]; try done;
      rewrite bool_decide_eq_false_2 by done; done. }
  rewrite Hjoin. split.
  - split.
    + exists c, (rest +:+ String PyPath.sep (String c' rest')). by split.
    + change (String PyPath.sep (String c rest +:+ String PyPath.sep (String c' rest')))
        with (String PyPath.sep (String c rest) +:+ String PyPath.sep (String c' rest')).
      rewrite last_char_app.
      destruct (last_char (String PyPath.sep (String c' rest'))) as [e|] eqn:He.
      * intros [= ->]. cbn in He.
        destruct (last_char rest') as [e'|] eqn:He'.
        -- injection He as ->. cbn in Hs. apply not_elem_of_cons in Hs as [_ Hs].
           by apply (last_char_plain rest' PyPath.sep Hs).
        -- by injection He as ->.
      * by apply last_char_None in He.
  - unfold PyPath.parts at 1, PyPath.splitroot.
    rewrite bool_decide_eq_true_2 by done.
    cbn [PyPath.lstrip_sep String.append]. rewrite bool_decide_eq_true_2 by done.
    cbn [PyPath.lstrip_sep]. rewrite bool_decide_eq_false_2 by done.
    cbn [String.length].
    replace (S (S (String.length (rest +:+ String PyPath.sep (String c' rest'))))
             - S (String.length (rest +:+ String PyPath.sep (String c' rest')))) with 1 by lia.
    cbn [Nat.eqb nonempty]. rewrite Hparts.
    change (String c (rest +:+ String PyPath.sep (String c' rest')))
      with (String c rest +:+ String PyPath.sep (String c' rest')).
    unfold PyPath.split. rewrite split_from_app, (split_from_plain (String c' rest')) by done.
    rewrite List.filter_app, !length_app. cbn [List.filter String.append].
    rewrite Hk. change (nonempty "/") with true. cbn [length]. lia.
Qed.

Lemma bases_clean : Forall clean DEFAULT_DOWNLOAD_DIRS.
Proof.
  repeat constructor; try (eexists _, _; split; [reflexivity|discriminate]);
    cbn; discriminate.
Qed.

(** The order of strings. *)
Lemma ascii_compare_refl c : Ascii.compare c c = Eq.
Proof. unfold Ascii.compare. apply N.compare_refl. Qed.

Lemma path_le_trans : Transitive PyPath.le.
Proof.
  unfold PyPath.le, String.leb. intros a.
  induction a as [|x a IH]; intros b c.
  - destruct c; cbn; [done|]. by destruct b.
  - destruct b as [|y b]; [done|]. destruct c as [|z c]; [by destruct (Ascii.compare x y)|].
    cbn. unfold Ascii.compare.
    destruct (N.compare_spec (N_of_ascii x) (N_of_ascii y)) as [Hxy|Hxy|Hxy];
      destruct (N.compare_spec (N_of_ascii y) (N_of_ascii z)) as [Hyz|Hyz|Hyz];
      destruct (N.compare_spec (N_of_ascii x) (N_of_ascii z)) as [Hxz|Hxz|Hxz];
      try done; try lia.
    apply IH.
Qed.

Lemma path_le_total : Total PyPath.le.
Proof. intros a b. apply String.leb_total. Qed.

(** [sorted(set(l))] is in order, without repeats, and has the elements
    of [l]. *)
Lemma sorted_set_spec l :
  StronglySorted PyPath.le (PyPath.sorted_set l)
  ∧ NoDup (PyPath.sorted_set l)
  ∧ ∀ p, p ∈ PyPath.sorted_set l ↔ p ∈ l.
Proof.
  unfold PyPath.sorted_set. split; [|split].
  - apply StronglySorted_merge_sort; [apply path_le_trans|apply path_le_total].
  - rewrite merge_sort_Permutation. apply NoDup_remove_dups.
  - intros p. rewrite merge_sort_Permutation. apply elem_of_remove_dups.
Qed.

End PathFacts.
Section DestinationFacts.
Context `{FileSystem}.
Implicit Types (found dirs : list string) (entries : list (string * bool)).

Lemma walk_unfold {S : Type} fuel
    (body : string → list string → list string → S → list string * S) top (st : S) :
  walk (Datatypes.S fuel) body top st
  = match os_scandir top with
    | None => Some st
    | Some entries =>
        let '(dirs, st) :=
          body top (List.filter (λ e, e.2) entries).*1
               (List.filter (λ e, negb e.2) entries).*1 st in
        foldl (λ acc dirname,
                 match acc with
                 | None => None
                 | Some st =>
                     if os_path_islink (PyStr.path_join top dirname) then Some st
                     else walk fuel body (PyStr.path_join top dirname) st
                 end)
              (Some st) dirs
    end.
Proof. reflexivity. Qed.

Lemma visit_keep base root dirs files found :
  length (PyPath.parts root) ≤ S (length (PyPath.parts base)) →
  visit base root dirs files found = (dirs, found ++ [root]).
Proof.
  intros Hlen. unfold visit.
  replace (Z.of_nat (length (PyPath.parts root))
           - Z.of_nat (length (PyPath.parts base)) >? 1)%Z with false; [done|].
  symmetry. rewrite Z.gtb_ltb. apply Z.ltb_ge. lia.
Qed.

Lemma visit_prune base root dirs files found :
  S (length (PyPath.parts base)) < length (PyPath.parts root) →
  visit base root dirs files found = ([], found).
Proof.
  intros Hlen. unfold visit.
  replace (Z.of_nat (length (PyPath.parts root))
           - Z.of_nat (length (PyPath.parts base)) >? 1)%Z with true; [done|].
  symmetry. rewrite Z.gtb_ltb. apply Z.ltb_lt. lia.
Qed.

(** Two levels below the base the walk reads the directory, reports
    nothing and goes no further. *)
Lemma walk_pruned fuel base root found :
  length (PyPath.parts root) = S (S (length (PyPath.parts base))) →
  walk (S fuel) (visit base) root found = Some found.
Proof.
  intros Hlen. rewrite walk_unfold. destruct (os_scandir root) as [entries|]; [|done].
  by rewrite visit_prune by lia.
Qed.

(** One level below the base the directory is reported when it can be
    read. *)
Lemma walk_child fuel base root found :
  proper_names → clean root →
  length (PyPath.parts root) = S (length (PyPath.parts base)) →
  walk (S (S fuel)) (visit base) root found
  = Some (if bool_decide (is_Some (os_scandir root)) then found ++ [root] else found).
Proof.
  intros Hnames Hclean Hlen. rewrite walk_unfold.
  destruct (os_scandir root) as [entries|] eqn:Hscan.
  2: { by rewrite bool_decide_eq_false_2 by (by intros [? ?]). }
  rewrite bool_decide_eq_true_2 by done.
  rewrite visit_keep by lia.
  pose proof (Hnames _ _ Hscan) as Hentries. clear Hscan.
  generalize (found ++ [root]). intros st.
  induction Hentries as [|[n b] entries Hn _ IH]; [done|].
  cbn [List.filter]. destruct b; cbn [snd negb fmap list_fmap fst foldl]; [|apply IH].
  destruct (os_path_islink (PyStr.path_join root n)); [apply IH|].
  rewrite walk_pruned; [apply IH|].
  destruct (join_clean root n Hclean Hn) as [_ ->]. by rewrite Hlen.
Qed.

(** The walk of a base directory. *)
Lemma walk_base fuel base found :
  proper_names → clean base →
  walk (S (S (S fuel))) (visit base) base found
  = Some (match os_scandir base with
          | Some entries => found ++ base :: children base entries
          | None => found
          end).
Proof.
  intros Hnames Hclean. rewrite walk_unfold.
  destruct (os_scandir base) as [entries|] eqn:Hscan; [|done].
  rewrite visit_keep by lia.
  pose proof (Hnames _ _ Hscan) as Hentries. clear Hscan.
  change (found ++ base :: children base entries)
    with (found ++ [base] ++ children base entries).
  rewrite app_assoc. generalize (found ++ [base]). intros st. revert st.
  induction Hentries as [|[n b] entries Hn _ IH]; intros st.
  { cbn. by rewrite app_nil_r. }
  unfold children. cbn [List.filter omap list_omap fst snd].
  destruct b; cbn [negb fmap list_fmap fst foldl andb]; [|apply IH].
  destruct (os_path_islink (PyStr.path_join base n)) eqn:Hlink; cbn [negb andb]; [apply IH|].
  destruct (join_clean base n Hclean Hn) as [Hclean' Hlen].
  rewrite walk_child by done.
  destruct (bool_decide (is_Some (os_scandir (PyStr.path_join base n)))); [|apply IH].
  fold (children base entries). rewrite IH. by rewrite <- app_assoc.
Qed.

Lemma find_destinations_spec fuel :
  proper_names →
  find_destinations (S (S (S fuel))) = Some (concat (map reported DEFAULT_DOWNLOAD_DIRS)).
Proof.
  intros Hnames. unfold find_destinations.
  change (concat (map reported DEFAULT_DOWNLOAD_DIRS))
    with ([] ++ concat (map reported DEFAULT_DOWNLOAD_DIRS)).
  generalize (@nil string). pose proof bases_clean as Hclean.
  induction Hclean as [|base bases Hbase _ IH]; intros found.
  { cbn. by rewrite app_nil_r. }
  cbn [foldl map concat]. rewrite app_assoc, <- IH. f_equal. f_equal.
  unfold reported. destruct (os_path_isdir base); [|by rewrite app_nil_r].
  rewrite walk_base by done. destruct (os_scandir base); [done|by rewrite app_nil_r].
Qed.

Lemma elem_of_concat_map {A B} (f : A → list B) (l : list A) (y : B) :
  y ∈ concat (map f l) ↔ ∃ x, x ∈ l ∧ y ∈ f x.
Proof.
  induction l as [|a l IH]; cbn [map concat].
  - split; [by intros ?%elem_of_nil|]. by intros (x & ?%elem_of_nil & _).
  - rewrite elem_of_app, IH. split.
    + intros [Hy | (x & Hx & Hy)]; [exists a|exists x]; split; try done.
      * apply elem_of_cons. by left.
      * apply elem_of_cons. by right.
    + intros (x & [-> | Hx]%elem_of_cons & Hy); [by left|right]. by exists x.
Qed.

Lemma reported_destination p :
  p ∈ concat (map reported DEFAULT_DOWNLOAD_DIRS) ↔ destination p.
Proof.
  rewrite elem_of_concat_map. unfold destination. split.
  - intros (base & Hbase & Hp).
    unfold reported in Hp. destruct (os_path_isdir base) eqn:Hdir; [|by apply elem_of_nil in Hp].
    destruct (os_scandir base) as [entries|] eqn:Hscan; [|by apply elem_of_nil in Hp].
    exists base, entries. split; [done|]. split; [done|]. split; [done|].
    apply elem_of_cons in Hp as [-> | Hp]; [by left|right].
    unfold children in Hp. apply list_elem_of_omap in Hp as ([n b] & He & Hsome).
    cbn [fst snd] in Hsome.
    destruct b; [|done]. cbn [andb] in Hsome.
    destruct (os_path_islink (PyStr.path_join base n)) eqn:Hlink; [done|].
    cbn [negb andb] in Hsome. case_bool_decide as Hread; [|done].
    injection Hsome as <-. by exists n.
  - intros (base & entries & Hbase & Hdir & Hscan & Hp).
    exists base. split; [done|].
    unfold reported. rewrite Hdir, Hscan.
    destruct Hp as [-> | (n & He & Hlink & Hread & ->)]; apply elem_of_cons; [by left|right].
    unfold children. apply list_elem_of_omap. exists (n, true). split; [done|].
    cbn [fst snd andb]. rewrite Hlink. cbn [negb andb].
    by rewrite bool_decide_eq_true_2.
Qed.

(** X18: the destinations listed.  When the entries of directories have
    proper names, [/api/list_destinations] returns, and a recursion of
    depth 3 is enough for it: the walk reads the directories two levels
    below a base and goes no deeper.  The paths it returns are in
    increasing order, without repeats, and they are exactly these: each of
    the five default directories that is a directory and can be read, and
    each directory in one of them that is not a symbolic link and can be
    read. *)
Theorem list_destinations_spec :
  proper_names →
  ∃ paths,
    (∀ fuel, 3 ≤ fuel →
       api_list_destinations fuel = Some (jsonify [("paths", JArr paths)]))
    ∧ StronglySorted PyPath.le paths
    ∧ NoDup paths
    ∧ ∀ p, p ∈ paths ↔ destination p.
Proof.
  intros Hnames.
  exists (PyPath.sorted_set (concat (map reported DEFAULT_DOWNLOAD_DIRS))).
  destruct (sorted_set_spec (concat (map reported DEFAULT_DOWNLOAD_DIRS)))
    as (Hsorted & Hnodup & Hmem).
  split; [|split; [done|split; [done|]]].
  - intros fuel Hfuel. destruct fuel as [|[|[|fuel]]]; try lia.
    unfold api_list_destinations. by rewrite find_destinations_spec.
  - intros p. rewrite Hmem. apply reported_destination.
Qed.

End DestinationFacts.

(** ** The reader thread among the other threads *)

Section ReaderThreadFacts.
Context {W : Type} `{OS W}.
Variable Form : Type.
Variable build_args_from_form : Form → Result (list string).
Variable shlex_split : string → Result (list string).
Implicit Types (s : State W) (p : Popen) (out : list string) (c : Config W).

Notation act := (step Form build_args_from_form shlex_split).
Notation thread_step := (thread_step Form build_args_from_form shlex_split).
Notation reached := (reached Form build_args_from_form shlex_split).

(** While a job holds the slot, a start request changes nothing. *)
Lemma api_start_running data s :
  is_Some (slot_p (current_proc s)) → exec (api_start Form build_args_from_form data) s = s.
Proof.
  intros Hrun. unfold exec, api_start, try_except, bind at 1, pure_result.
  destruct (build_args_from_form data) as [args|e]; cbn; [|done].
  unfold bind at 1. by rewrite spawn_process_running.
Qed.

Lemma api_run_raw_running cmd s :
  is_Some (slot_p (current_proc s)) → exec (api_run_raw shlex_split cmd) s = s.
Proof.
  intros Hrun. unfold exec, api_run_raw. destruct cmd as [|ch cmd]; [done|].
  unfold try_except, bind at 1, pure_result.
  destruct (shlex_split (String ch cmd)) as [args|e]; cbn; [|done].
  unfold bind at 1. by rewrite spawn_process_running.
Qed.

(** While a job holds the slot, the other threads change neither the
    slot nor the history. *)
Lemma other_thread_running a s :
  other_thread Form a = true →
  is_Some (slot_p (current_proc s)) →
  current_proc (act a s) = current_proc s ∧ history (act a s) = history s.
Proof.
  intros Ha Hrun. destruct a as [data|cmd| | | |q|q|line|p0]; try discriminate Ha;
    cbn [step].
  - by rewrite api_start_running.
  - by rewrite api_run_raw_running.
  - by destruct (api_stop_only_world s) as [w ->].
  - done.
  - unfold exec. by destruct (sse_attach_spec s) as [_ ->].
  - pose proof (sse_next_spec q s) as Hnext.
    destruct (queues s !! q) as [[n [|x rest]]|]; by rewrite Hnext.
  - done.
Qed.

(** The event streams touch neither the slot nor the history. *)
Lemma stream_op_frame a s :
  other_thread Form a = true →
  takes_proc_lock Form a = false →
  current_proc (act a s) = current_proc s ∧ history (act a s) = history s.
Proof.
  intros Ha Hl. destruct a as [data|cmd| | | |q|q|line|p0]; try discriminate Ha;
    try discriminate Hl; cbn [step].
  - unfold exec. by destruct (sse_attach_spec s) as [_ ->].
  - pose proof (sse_next_spec q s) as Hnext.
    destruct (queues s !! q) as [[n [|x rest]]|]; by rewrite Hnext.
  - done.
Qed.

Lemma broadcast_last line s :
  Py.rstrip_nl line = line → last (history (exec (broadcast line) s)) = Some line.
Proof.
  intros Hline. destruct (broadcast_exec_post line s) as [-> _ _ _ _ _].
  rewrite Hline. apply appended_last.
Qed.

Lemma reader_inv_step p c c' :
  reader_inv c → thread_step p c c' → reader_inv c'.
Proof.
  intros Hinv Hstep. destruct Hstep as [c c' Hstep | a c Ha Hlock].
  - destruct c as [s pc locked]. unfold reader_step in Hstep. unfold reader_inv in *.
    cbn [cfg_state cfg_pc cfg_locked] in *.
    destruct pc as [[|line out] fin|pe|rc pe|rc pe|rc pe|rc pe|r].
    + injection Hstep as <-. done.
    + injection Hstep as <-. cbn [cfg_state cfg_pc cfg_locked].
      destruct (broadcast_exec_post (Py.rstrip_nl line) s) as [_ _ _ -> _ _]. done.
    + destruct (Popen_wait p (world s)) as [rc w]. injection Hstep as <-. done.
    + injection Hstep as <-. cbn [cfg_state cfg_pc cfg_locked].
      destruct Hinv as [Hl Hrun]. split; [done|]. split.
      * by destruct (broadcast_exec_post (finished_line rc) s) as [_ _ _ -> _ _].
      * apply broadcast_last, rstrip_nl_clean, finished_line_clean.
    + destruct Hinv as (-> & Hrun & Hlast). injection Hstep as <-. done.
    + injection Hstep as <-. cbn [cfg_state cfg_pc cfg_locked].
      destruct Hinv as (Hl & Hrun & Hlast). done.
    + injection Hstep as <-. done.
    + discriminate.
  - destruct c as [s pc locked]. unfold reader_inv in *.
    cbn [cfg_state cfg_pc cfg_locked] in *.
    destruct pc as [out fin|pe|rc pe|rc pe|rc pe|rc pe|r].
    + destruct Hinv as [Hl Hrun].
      destruct (other_thread_running a s Ha Hrun) as [-> _]. done.
    + destruct Hinv as [Hl Hrun].
      destruct (other_thread_running a s Ha Hrun) as [-> _]. done.
    + destruct Hinv as [Hl Hrun].
      destruct (other_thread_running a s Ha Hrun) as [-> _]. done.
    + destruct Hinv as (Hl & Hrun & Hlast).
      destruct (other_thread_running a s Ha Hrun) as [-> ->]. done.
    + destruct Hinv as (Hl & Hrun & Hlast).
      destruct (other_thread_running a s Ha Hrun) as [-> ->]. done.
    + destruct Hinv as (Hl & Hidle & Hlast).
      assert (takes_proc_lock Form a = false) as Hno.
      { destruct (takes_proc_lock Form a); [|done]. rewrite Hlock in Hl; done. }
      destruct (stream_op_frame a s Ha Hno) as [-> ->]. done.
    + done.
Qed.

Lemma reader_inv_reached p out fin s c :
  is_Some (slot_p (current_proc s)) → reached p out fin s c → reader_inv c.
Proof.
  intros Hrun. revert c. apply (rtc_ind_r (λ c, reader_inv c)); [done|].
  intros c c' _ Hstep IH. by eapply reader_inv_step.
Qed.

(** The reading phase of the thread running alone. *)
Lemma reader_run_read p fin n out : ∀ s locked,
  reader_run p (length out + n) (MkConfig s (AtRead out fin) locked)
  = reader_run p n
      (MkConfig (exec (broadcast_all (map Py.rstrip_nl out)) s) (AtRead [] fin) locked).
Proof.
  induction out as [|line out IH]; intros s locked; [done|].
  cbn [length Nat.add reader_run reader_step cfg_state cfg_pc cfg_locked map].
  by rewrite IH, broadcast_all_exec_cons.
Qed.


End ReaderThreadFacts.


(** ** Examples for the further properties *)

Lemma start_request_rejected_witness :
  let s := Scenario.running in
  api_start pyval build_args_from_form (PDict []) s = (Ok (error_response missing_url), s)
  ∧ api_start pyval build_args_from_form (PDict Sample.video) s
    = (Ok (error_response already_running), s)
  ∧ api_run_raw ShlexSplit.split "echo 'hello" s
    = (Ok (error_response ShlexSplit.no_closing_quotation), s)
  ∧ api_run_raw ShlexSplit.split "echo hello" s = (Ok (error_response already_running), s).
Proof.
  destruct (start_request_rejected pyval build_args_from_form ShlexSplit.split
              Scenario.running) as (Hbuild & Hbusy & _ & Hsplit & Hbusy').
  assert (is_Some (slot_p (current_proc Scenario.running))) as Hrun
    by (exists (MkPopen 100); reflexivity).
  split; [apply Hbuild; reflexivity|].
  split; [eapply Hbusy; [reflexivity|exact Hrun]|].
  split; [apply Hsplit; [discriminate|reflexivity]|].
  eapply Hbusy'; [discriminate|reflexivity|exact Hrun].
Defined.

Lemma api_stop_only_signals_witness :
  api_stop (Denied.running true) = (Raise Denied.not_permitted, Denied.running true)
  ∧ api_stop (Denied.running false) = (Raise Denied.not_permitted, Denied.running false).
Proof.
  split.
  - destruct (api_stop_only_signals (Denied.running true)) as (_ & Hgetpgid & _).
    apply (Hgetpgid (MkPopen 1) Denied.not_permitted (Denied.MkWorld true));
      [reflexivity|reflexivity|discriminate].
  - destruct (api_stop_only_signals (Denied.running false)) as (_ & _ & Hkillpg).
    apply (Hkillpg (MkPopen 1) 1 Denied.not_permitted (Denied.MkWorld false)
             (Denied.MkWorld false)); [reflexivity|reflexivity|reflexivity|discriminate].
Defined.

Lemma sse_close_unsubscribes_witness :
  let s1 := exec (sse_close 0) Scenario.crowded in
  0 ∉ subscribers s1 ∧ (1 ∈ subscribers s1 ↔ 1 ∈ subscribers Scenario.crowded).
Proof.
  destruct (sse_close_unsubscribes 0 Scenario.crowded) as (Hout & _ & _ & _ & Hothers & _).
  split; [exact Hout|].
  apply Hothers. discriminate.
Defined.

Lemma job_lifecycle_witness :
  let s1 := exec (spawn_process Scenario.job false) Sim.boot in
  let s2 := exec (reader (MkPopen 100) [String.append "hello world" (String Py.newline EmptyString)] EOF) s1 in
  history s2
  = ["# Starting: echo_stub 'hello world'"; "hello world"; "# Finished with exit code 0"]
  ∧ current_proc s2 = idle_slot.
Proof.
  edestruct (job_lifecycle Scenario.job false [String.append "hello world" (String Py.newline EmptyString)] EOF Sim.boot)
    as (_ & Hhist & Hslot & _); [reflexivity|reflexivity|reflexivity|].
  split; [exact Hhist|exact Hslot].
Defined.

Lemma run_raw_of_command_text_witness :
  api_run_raw_json (PDict [("cmd", PStr "echo_stub 'hello world'")]) Sim.boot
  = try_except (do_ spawn_process Scenario.job true; ret started)
               (λ e, ret (error_response e)) Sim.boot.
Proof.
  destruct (run_raw_of_command_text Scenario.job [("cmd", PStr "echo_stub 'hello world'")]
              Sim.boot) as (_ & _ & Hrun).
  apply Hrun; [discriminate|reflexivity].
Defined.

Lemma run_raw_validation_witness :
  let missing := (Ok (MkResponse 400 [("error", JStr "Missing cmd")]), Sim.boot) in
  api_run_raw_json PNone Sim.boot = missing
  ∧ api_run_raw_json (PDict Sample.video) Sim.boot = missing
  ∧ api_run_raw_json (PDict [("cmd", PStr (PyStr.bytes [32; 9; 226; 128; 131]))]) Sim.boot
    = missing
  ∧ api_run_raw_json (PDict [("cmd", PInt 5)]) Sim.boot
    = (Raise (Exn OtherException "'int' object has no attribute 'strip'"), Sim.boot)
  ∧ api_run_raw_json (PList [PStr "ls"]) Sim.boot
    = (Raise (Exn OtherException "'list' object has no attribute 'get'"), Sim.boot)
  ∧ api_run_raw_json (PDict [("cmd", PStr " echo 'hello ")]) Sim.boot
    = (Ok (error_response ShlexSplit.no_closing_quotation), Sim.boot).
Proof.
  destruct (run_raw_validation Sim.boot)
    as (Hfalsy & Hnone & Hblank & Hstrip & Hget & Hsplit).
  split; [apply Hfalsy; reflexivity|].
  split; [apply Hnone; reflexivity|].
  split.
  { apply (Hblank _ (map PyStr.bytes [[32]; [9]; [226; 128; 131]])); [reflexivity|].
    apply (bool_decide_unpack _). vm_compute. exact I. }
  split; [apply (Hstrip _ (PInt 5)); [reflexivity|discriminate]|].
  split; [apply Hget; [reflexivity|discriminate]|].
  apply (Hsplit _ " echo 'hello " ShlexSplit.no_closing_quotation); reflexivity.
Defined.

Lemma api_start_runs_ytdlp_witness :
  let s' := exec (api_start_json (PDict Sample.video)) Sim.boot in
  (∃ d u options,
     PDict Sample.video = PDict d ∧ PyVal.lookup "url" d = Some (PStr u)
     ∧ PyStr.strip u ≠ EmptyString
     ∧ slot_args (current_proc s')
       = Some (YTDLP_BIN :: "--newline" :: options ++ [PyStr.strip u])
     ∧ slot_raw (current_proc s') = false)
  ∧ slot_args (current_proc s')
    = Some ["yt-dlp"; "--newline"; "-f"; "bestvideo+bestaudio/best"; "https://example.org/v"].
Proof.
  split; [|reflexivity].
  apply (proj2 (api_start_runs_ytdlp (PDict Sample.video) Sim.boot)).
  - reflexivity.
  - exists (MkPopen 100). reflexivity.
Defined.

Lemma toggles_whitelisted_witness :
  build_args_from_form
    (PDict (Sample.video
            ++ [("toggles", PList [PStr "--continue"; PStr "--exec"; PInt 3; PNone;
                                   PStr "--progress"])]))
  = build_args_from_form
      (PDict (Sample.video ++ [("toggles", PList [PStr "--continue"; PStr "--progress"])])).
Proof.
  apply (toggles_whitelisted
           (Sample.video
            ++ [("toggles", PList [PStr "--continue"; PStr "--exec"; PInt 3; PNone;
                                   PStr "--progress"])])
           [PStr "--continue"; PStr "--exec"; PInt 3; PNone; PStr "--progress"]);
    reflexivity.
Defined.

Lemma output_template_wins_witness :
  let d := Sample.video ++ [("output_template", PStr "%(title)s.%(ext)s")] in
  build_args_from_form (PDict (d ++ [("destination_dir", PStr "/mnt")]))
  = build_args_from_form (PDict (d ++ [("destination_dir", PStr "/srv/downloads")])).
Proof.
  apply (output_template_wins
           (Sample.video ++ [("output_template", PStr "%(title)s.%(ext)s")])
           "%(title)s.%(ext)s" "/mnt" "/srv/downloads"); [reflexivity|discriminate].
Defined.

Lemma format_mode_selects_witness :
  let custom := Sample.video ++ [("format_mode", PStr "custom")] in
  let preset := Sample.video ++ [("format_mode", PStr "preset")] in
  build_args_from_form (PDict (custom ++ [("dl_kind", PStr "audio")]))
  = build_args_from_form (PDict (custom ++ [("dl_kind", PInt 7)]))
  ∧ build_args_from_form (PDict (preset ++ [("custom_format", PStr "best")]))
    = build_args_from_form (PDict (preset ++ [("custom_format", PNone)])).
Proof.
  split.
  - apply (proj1 (format_mode_selects (Sample.video ++ [("format_mode", PStr "custom")])
                    (PStr "custom") eq_refl) eq_refl (PStr "audio") (PInt 7)).
  - apply (proj2 (format_mode_selects (Sample.video ++ [("format_mode", PStr "preset")])
                    (PStr "preset") eq_refl) eq_refl (PStr "best") PNone).
Defined.

Lemma bare_request_command_witness :
  build_args_from_form (PDict Sample.video)
  = Ok ["yt-dlp"; "--newline"; "-f"; "bestvideo+bestaudio/best"; "https://example.org/v"]
  ∧ build_args_from_form (PDict (Sample.video ++ [("destination_dir", PStr "/mnt/usb ")]))
    = Ok ["yt-dlp"; "--newline"; "-f"; "bestvideo+bestaudio/best";
          "-o"; "/mnt/usb/%(uploader)s/%(title)s.%(ext)s"; "https://example.org/v"].
Proof.
  split.
  - refine (proj1 (bare_request_command Sample.video " https://example.org/v "
                     eq_refl _ _) eq_refl); [discriminate|].
    intros k Hk _. revert k Hk. apply Forall_forall.
    repeat constructor.
  - refine (proj2 (bare_request_command
                     (Sample.video ++ [("destination_dir", PStr "/mnt/usb ")])
                     " https://example.org/v " eq_refl _ _) "/mnt/usb " eq_refl _);
      [discriminate| |discriminate].
    apply (proj1 (Forall_forall (λ k, k ≠ "destination_dir" → PyVal.lookup k _ = None)
                    option_keys)).
    repeat constructor; try reflexivity. intros Hne. by destruct Hne.
Defined.

Lemma missing_url_rejected_witness :
  let missing := (Ok (MkResponse 400 [("error", JStr "Missing URL")]), Sim.boot) in
  api_start_json (PBool false) Sim.boot = missing
  ∧ api_start_json (PDict [("cmd", PStr "ls")]) Sim.boot = missing
  ∧ api_start_json (PDict [("url", PStr "   ")]) Sim.boot = missing
  ∧ api_start_json (PDict [("url", PNone)]) Sim.boot
    = (Ok (MkResponse 400 [("error", JStr "'NoneType' object has no attribute 'strip'")]),
       Sim.boot).
Proof.
  destruct (missing_url_rejected Sim.boot) as (Hfalsy & Hnone & Hblank & Hstrip).
  split; [apply Hfalsy; reflexivity|].
  split; [apply Hnone; reflexivity|].
  split; [apply (Hblank _ "   "); reflexivity|].
  apply (Hstrip _ PNone); [reflexivity|discriminate].
Defined.
Lemma toggles_not_a_list_witness :
  build_args_from_form (PDict (Sample.video ++ [("toggles", PStr "--continue")]))
  = build_args_from_form (PDict (Sample.video ++ [("toggles", PList [])]))
  ∧ build_args_from_form
      (PDict (Sample.video ++ [("toggles", PDict [("--continue", PBool false)])]))
    = build_args_from_form (PDict (Sample.video ++ [("toggles", PList [PStr "--continue"])]))
  ∧ build_args_from_form (PDict (Sample.video ++ [("toggles", PNone)]))
    = Raise (Exn OtherException "'NoneType' object is not iterable").
Proof.
  split; [|split].
  - apply (proj1 (toggles_not_a_list
                    (Sample.video ++ [("toggles", PStr "--continue")])
                    (PStr "--continue") eq_refl) "--continue" eq_refl).
  - apply (proj1 (proj2 (toggles_not_a_list
                           (Sample.video ++ [("toggles", PDict [("--continue", PBool false)])])
                           (PDict [("--continue", PBool false)]) eq_refl))
             [("--continue", PBool false)] eq_refl).
  - exact (proj2 (proj2 (toggles_not_a_list (Sample.video ++ [("toggles", PNone)])
                           PNone eq_refl))
             eq_refl
             ["yt-dlp"; "--newline"; "-f"; "bestvideo+bestaudio/best";
              "https://example.org/v"]
             eq_refl).
Defined.

Lemma mount_requests_validated_witness :
  let w := Refusing.MkWorld [] [] in
  api_mount (PDict [("device", PStr "/dev/sda1"); ("mountpoint", PStr "  ")]) w
  = (Ok (MkResponse 400 [("error", JStr "device and mountpoint required")]), w)
  ∧ api_umount PNone w = (Ok (MkResponse 400 [("error", JStr "target required")]), w)
  ∧ api_mount (PDict [("device", PStr " /dev/sda1"); ("mountpoint", PStr "/mnt/usb ")]) w
    = (Ok (MkResponse 500 [("ok", JBool false); ("out", JStr "mount: only root can do that");
                           ("code", JNum 1%Z)]),
       Refusing.MkWorld ["/mnt/usb"] [["sudo"; "mount"; "/dev/sda1"; "/mnt/usb"]]).
Proof.
  destruct (mount_requests_validated (Refusing.MkWorld [] []))
    as (Hfalsy & Hblank & _ & Hmount & _).
  split; [|split].
  - apply Hblank.
    + right. by eexists.
    + right. by eexists.
    + right. right. exists [" "; " "]. split; [reflexivity|].
      apply (bool_decide_unpack _). vm_compute. exact I.
  - apply (Hfalsy PNone eq_refl).
  - apply (Hmount _ " /dev/sda1" "/mnt/usb "); [reflexivity|reflexivity|discriminate|discriminate].
Defined.

Lemma list_destinations_spec_witness :
  api_list_destinations 3
  = Some (jsonify [("paths", JArr ["/mnt"; "/mnt/usb"; "/srv/downloads"])])
  ∧ ∃ paths, api_list_destinations 5 = Some (jsonify [("paths", JArr paths)])
             ∧ (destination "/mnt/usb" ↔ "/mnt/usb" ∈ paths).
Proof.
  split; [reflexivity|].
  assert proper_names as Hnames.
  { intros top entries Hscan. cbn in Hscan.
    repeat (case_bool_decide; [injection Hscan as <-; repeat constructor|]).
    discriminate. }
  destruct (list_destinations_spec Hnames) as (paths & Hrun & _ & _ & Hmem).
  exists paths. split; [apply Hrun; lia|]. symmetry. apply Hmem.
Defined.
